(** * Toggl -> GitLab time synchronisation: the reconciliation core

    A shallow embedding of the decision logic of
    [toggl_client.py] (ticket parser, rounding, weekend filter, entry
    normalisation, the analysis printed before a sync),
    [sync_service.py] (grouping, issue reconciliation, duplicate
    detection, counters), of the marker recovery and the time text of
    [gitlab_client.py] and of the skip terms and the validation of
    [config.py], together with the properties checked against it.

    Text.  A Python [str] is modelled as a Rocq [string] that holds the
    bytes of its UTF-8 encoding; [len] and slices count characters, not
    bytes.  The character classes of [re], of [str.strip] and of
    [str.lower] are the ASCII ones: a character outside ASCII is carried
    as its bytes and is no digit, no space, no word character and no
    letter, where [re] and [str] know digits, spaces and letters outside
    ASCII as well.  The embedding is exact on ASCII text, and on any text
    for the functions that do not look at these classes.

    Numbers.  A Python [int] is modelled as [Z]. *)

From Stdlib Require Import ZArith List String Ascii Bool Lia Arith.
From Stdlib Require Import DecimalString.
Import ListNotations.

Local Open Scope string_scope.
Local Open Scope Z_scope.

Set Implicit Arguments.

(* ================================================================= *)
(** ** Python text primitives *)

Module Text.

Definition code (c : ascii) : nat := nat_of_ascii c.

Definition between (lo hi : nat) (c : ascii) : bool :=
  (Nat.leb lo (code c) && Nat.leb (code c) hi)%bool.

(** [\d] *)
Definition is_digit (c : ascii) : bool := between 48 57 c.

(** [\s] and [str.isspace]: space, [\t \n \v \f \r], and the separators
    [\x1c .. \x1f]. *)
Definition is_space (c : ascii) : bool :=
  (Nat.eqb (code c) 32 || between 9 13 c || between 28 31 c)%bool.

Definition is_upper (c : ascii) : bool := between 65 90 c.
Definition is_lower (c : ascii) : bool := between 97 122 c.

(** [[A-Z]] under [re.IGNORECASE] *)
Definition is_alpha (c : ascii) : bool := (is_upper c || is_lower c)%bool.

(** [\w] *)
Definition is_word (c : ascii) : bool :=
  (is_alpha c || is_digit c || Nat.eqb (code c) 95)%bool.

(** [.] without [re.DOTALL] *)
Definition is_dot (c : ascii) : bool := negb (Nat.eqb (code c) 10).

Definition lower_char (c : ascii) : ascii :=
  if is_upper c then ascii_of_nat (code c + 32) else c.

(** A literal pattern character under [re.IGNORECASE]. *)
Definition is_lit (l c : ascii) : bool :=
  Ascii.eqb (lower_char l) (lower_char c).

Definition chars (s : string) : list ascii := list_ascii_of_string s.
Definition text (l : list ascii) : string := string_of_list_ascii l.

(** [str.lower] *)
Definition lower (s : string) : string := text (map lower_char (chars s)).

Fixpoint lstrip_chars (l : list ascii) : list ascii :=
  match l with
  | c :: t => if is_space c then lstrip_chars t else l
  | [] => []
  end.

Definition rstrip_chars (l : list ascii) : list ascii :=
  rev (lstrip_chars (rev l)).

(** [str.strip] *)
Definition strip (s : string) : string :=
  text (rstrip_chars (lstrip_chars (chars s))).

Fixpoint starts_with (p l : list ascii) : bool :=
  match p, l with
  | [], _ => true
  | a :: p', b :: l' => (Ascii.eqb a b && starts_with p' l')%bool
  | _ :: _, [] => false
  end.

Fixpoint contains_chars (p l : list ascii) : bool :=
  (starts_with p l ||
   match l with
   | [] => false
   | _ :: t => contains_chars p t
   end)%bool.

(** [p in s] *)
Definition contains (p s : string) : bool := contains_chars (chars p) (chars s).

(** [sep.join(parts)] *)
Fixpoint join (sep : string) (parts : list string) : string :=
  match parts with
  | [] => ""
  | [p] => p
  | p :: rest => p ++ sep ++ join sep rest
  end.

(** [s.replace('Z', '+00:00')] *)
Fixpoint replace_Z_chars (l : list ascii) : list ascii :=
  match l with
  | [] => []
  | c :: t =>
      if Ascii.eqb c "Z"%char then chars "+00:00" ++ replace_Z_chars t
      else c :: replace_Z_chars t
  end.

Definition replace_Z (s : string) : string := text (replace_Z_chars (chars s)).

(** A byte that continues a character of several bytes. *)
Definition is_continuation (c : ascii) : bool := between 128 191 c.

(** [len(s)]: the characters of [s], one for every byte that starts
    one. *)
Definition char_length (s : string) : nat :=
  List.length (filter (fun c => negb (is_continuation c)) (chars s)).

(** The first [n] characters of [l], each with the bytes that continue
    it. *)
Fixpoint take_chars (n : nat) (l : list ascii) : list ascii :=
  match l with
  | [] => []
  | c :: t =>
      if is_continuation c then c :: take_chars n t
      else
        match n with
        | O => []
        | S m => c :: take_chars m t
        end
  end.

(** [s[:n]] *)
Definition prefix (n : nat) (s : string) : string := text (take_chars n (chars s)).

(** [str(n)] for an [int] *)
Definition str_of_Z (n : Z) : string := NilZero.string_of_int (Z.to_int n).

(** The bytes of a non-ASCII literal of the source. *)
Definition bytes (l : list nat) : string := text (map ascii_of_nat l).

(** Python truthiness of a [str]. *)
Definition truthy (s : string) : bool :=
  match s with EmptyString => false | _ => true end.

End Text.

(* ================================================================= *)
(** ** A backtracking matcher for the fragment of [re] the code uses *)

Module Re.
Import Text.

(** The constructs of the nine ticket patterns and of the marker
    pattern: a single character test, concatenation, a greedy [p{n,}]
    on a character test, a greedy optional part, a capturing group and
    the word boundary [\b]. *)
Inductive regex : Type :=
| Eps
| Chr (p : ascii -> bool)
| Cat (r1 r2 : regex)
| Rep (least : nat) (p : ascii -> bool)
| Opt (r : regex)
| Group (i : nat) (r : regex)
| WordBoundary.

(** What was consumed so far (most recent first), what is left, and the
    groups closed so far. *)
Record mstate : Type := MState {
  seen : list ascii;
  rest : list ascii;
  caps : list (nat * list ascii)
}.

Definition at_boundary (st : mstate) : bool :=
  let before := match seen st with c :: _ => is_word c | [] => false end in
  let after := match rest st with c :: _ => is_word c | [] => false end in
  xorb before after.

Section Matcher.
Variable R : Type.

(** Greedy repetition: take as many characters as possible, then give
    them back one at a time until the continuation succeeds. *)
Fixpoint rep (p : ascii -> bool) (least : nat) (count : nat)
         (sn rs : list ascii) (cp : list (nat * list ascii))
         (k : mstate -> option R) : option R :=
  let stop := if Nat.leb least count then k (MState sn rs cp) else None in
  match rs with
  | c :: rs' =>
      if p c then
        match rep p least (S count) (c :: sn) rs' cp k with
        | Some r => Some r
        | None => stop
        end
      else stop
  | [] => stop
  end.

Fixpoint run (r : regex) (st : mstate) (k : mstate -> option R) : option R :=
  match r with
  | Eps => k st
  | Chr p =>
      match rest st with
      | c :: rs' => if p c then k (MState (c :: seen st) rs' (caps st)) else None
      | [] => None
      end
  | Cat r1 r2 => run r1 st (fun st' => run r2 st' k)
  | Rep least p => rep p least 0 (seen st) (rest st) (caps st) k
  | Opt r' =>
      match run r' st k with
      | Some x => Some x
      | None => k st
      end
  | Group i r' =>
      run r' st (fun st' =>
        let n := (List.length (seen st') - List.length (seen st))%nat in
        k (MState (seen st') (rest st')
                  ((i, firstn n (rest st)) :: caps st')))
  | WordBoundary => if at_boundary st then k st else None
  end.
End Matcher.

Fixpoint lookup (i : nat) (cp : list (nat * list ascii)) : option string :=
  match cp with
  | [] => None
  | (j, v) :: t => if Nat.eqb i j then Some (text v) else lookup i t
  end.

(** [match.group(i)] *)
Definition group (i : nat) (cp : list (nat * list ascii)) : option string :=
  lookup i cp.

Definition accept (st : mstate) : option (list (nat * list ascii)) :=
  Some (caps st).

(** [re.match(pattern, s, re.IGNORECASE)]: anchored at the start. *)
Definition re_match (r : regex) (s : string) : option (list (nat * list ascii)) :=
  run r (MState [] (chars s) []) accept.

(** [re.search(pattern, s)]: the leftmost position with a match. *)
Fixpoint search_from (r : regex) (sn rs : list ascii)
  : option (list (nat * list ascii)) :=
  match run r (MState sn rs []) accept with
  | Some cp => Some cp
  | None =>
      match rs with
      | [] => None
      | c :: rs' => search_from r (c :: sn) rs'
      end
  end.

Definition re_search (r : regex) (s : string) : option (list (nat * list ascii)) :=
  search_from r [] (chars s).

(** Pattern builders. *)
Fixpoint lit_chars (l : list ascii) : regex :=
  match l with
  | [] => Eps
  | c :: t => Cat (Chr (is_lit c)) (lit_chars t)
  end.

(** A literal string; case is ignored. *)
Definition lit (s : string) : regex := lit_chars (chars s).

(** A literal string; case matters. *)
Fixpoint exact_chars (l : list ascii) : regex :=
  match l with
  | [] => Eps
  | c :: t => Cat (Chr (Ascii.eqb c)) (exact_chars t)
  end.

Definition exact (s : string) : regex := exact_chars (chars s).

Fixpoint seq (l : list regex) : regex :=
  match l with
  | [] => Eps
  | r :: t => Cat r (seq t)
  end.

Definition plus (p : ascii -> bool) : regex := Rep 1 p.
Definition star (p : ascii -> bool) : regex := Rep 0 p.

End Re.

(* ================================================================= *)
(** ** toggl_client.py: the ticket parser *)

Module Parser.
Import Text Re.

Record TicketInfo : Type := mkTicketInfo {
  ticket_id : option string;
  ticket_name : option string
}.

Definition tag_sep (c : ascii) : bool :=
  (Ascii.eqb c "-"%char || Ascii.eqb c ":"%char)%bool.

Definition trailing : regex := Group 2 (star is_dot).

(** The tag [[A-Z]+-\d+] of rules 3, 5 and 6. *)
Definition project_tag : regex := seq [plus is_alpha; lit "-"; plus is_digit].

(** The ordered rule list of [extract_ticket_info]: each rule with the
    pattern text of the source. *)
Definition rules : list (string * regex) :=
  [ ("kazoo#(\d+)\s*(.*)",
     seq [lit "kazoo#"; Group 1 (plus is_digit); star is_space; trailing]);
    ("#(\d+):?\s*(.*)",
     seq [lit "#"; Group 1 (plus is_digit); Opt (lit ":"); star is_space; trailing]);
    ("([A-Z]+-\d+):?\s*(.*)",
     seq [Group 1 project_tag; Opt (lit ":"); star is_space; trailing]);
    ("Issue\s+#(\d+):?\s*(.*)",
     seq [lit "Issue"; plus is_space; lit "#"; Group 1 (plus is_digit);
          Opt (lit ":"); star is_space; trailing]);
    ("\[([A-Z]+-\d+)\]\s*(.*)",
     seq [lit "["; Group 1 project_tag; lit "]"; star is_space; trailing]);
    ("\(([A-Z]+-\d+)\)\s*(.*)",
     seq [lit "("; Group 1 project_tag; lit ")"; star is_space; trailing]);
    ("(\w+-\d+)\s*[-:]\s*(.*)",
     seq [Group 1 (seq [plus is_word; lit "-"; plus is_digit]);
          star is_space; Chr tag_sep; star is_space; trailing]);
    ("([A-Z]{2,}-\d+)\b\s*(.*)",
     seq [Group 1 (seq [Rep 2 is_alpha; lit "-"; plus is_digit]);
          WordBoundary; star is_space; trailing]);
    ("(\d+):\s*(.*)",
     seq [Group 1 (plus is_digit); lit ":"; star is_space; trailing]) ].

Definition patterns : list regex := map snd rules.

(** [x or y] on strings *)
Definition str_or (x y : string) : string := if truthy x then x else y.

(** What the body of the [if match:] branch returns. *)
Definition matched (description : string) (cp : list (nat * list ascii))
  : TicketInfo :=
  let name :=
    match group 2 cp with
    | Some g2 => if truthy g2 then strip g2 else description
    | None => description
    end in
  mkTicketInfo (group 1 cp) (Some (str_or name description)).

(** The [for] loop over the patterns, with its early [return]. *)
Fixpoint try_patterns (ps : list regex) (description : string)
  : option TicketInfo :=
  match ps with
  | [] => None
  | p :: ps' =>
      match re_match p (strip description) with
      | Some cp => Some (matched description cp)
      | None => try_patterns ps' description
      end
  end.

Definition extract_ticket_info (description : string) : TicketInfo :=
  if negb (truthy description) then mkTicketInfo None None
  else
    match try_patterns patterns description with
    | Some info => info
    | None => mkTicketInfo None (Some description)
    end.

End Parser.

(* ================================================================= *)
(** ** Calendar dates, as [datetime] computes them *)

Module Calendar.

Record datetime : Type := mkDatetime {
  year : Z; month : Z; day : Z;
  hour : Z; minute : Z; second : Z
}.

Definition is_leap (y : Z) : bool :=
  ((y mod 4 =? 0) && (negb (y mod 100 =? 0) || (y mod 400 =? 0)))%bool.

Definition days_before_year (y : Z) : Z :=
  let p := y - 1 in p * 365 + p / 4 - p / 100 + p / 400.

Definition days_before_month_table : list Z :=
  [-1; 0; 31; 59; 90; 120; 151; 181; 212; 243; 273; 304; 334].

Definition days_before_month (y m : Z) : Z :=
  nth (Z.to_nat m) days_before_month_table 0
  + (if ((2 <? m) && is_leap y)%bool then 1 else 0).

Definition toordinal (d : datetime) : Z :=
  days_before_year (year d) + days_before_month (year d) (month d) + day d.

(** [datetime.weekday()]: Monday is 0, Sunday is 6. *)
Definition weekday (d : datetime) : Z := (toordinal d + 6) mod 7.

End Calendar.

(* ================================================================= *)
(** ** toggl_client.py: rounding, weekend filter, normalisation *)

Module Toggl.
Import Text Calendar Parser.

(** The [id] of a time entry as it comes out of the JSON document: a
    number, or text. *)
Inductive entry_id : Type :=
| IntId (n : Z)
| StrId (s : string).

(** [str(entry['id'])] *)
Definition str_of_id (i : entry_id) : string :=
  match i with
  | IntId n => str_of_Z n
  | StrId s => s
  end.

(** A raw time entry.  [raw_start = None] is an entry without a
    ['start'] key and [raw_description_key = None] one without a
    ['description'] key; a missing ['duration'] reads as 0, missing
    ['tags'] as the empty list, a missing ['billable'] as [False]. *)
Record RawEntry : Type := mkRaw {
  raw_id : entry_id;
  raw_description_key : option string;
  raw_start : option string;
  raw_stop : option string;
  raw_duration : Z;
  raw_billable : bool;
  raw_project_id : option Z;
  raw_tags : list string
}.

(** [entry.get('description', '')] *)
Definition raw_description (e : RawEntry) : string :=
  match raw_description_key e with
  | Some d => d
  | None => ""
  end.

(** A processed entry. *)
Record Entry : Type := mkEntry {
  id : entry_id;
  description : string;
  start : string;
  stop : option string;
  duration : Z;
  original_duration : Z;
  project_id : option Z;
  project_name : option string;
  billable : bool;
  ticket_id : option string;
  ticket_name : option string;
  tags : list string
}.

(** [round(a / b)] for integers [a] and [b > 0]: the quotient rounded to
    the nearest integer, a tie going to the even one.  Python divides in
    binary64 and rounds the float; for [0 <= a < 2^40] and [b <= 1800]
    the float quotient lies on the same side of every half-integer as
    the exact one, so both agree. *)
Definition round_div (a b : Z) : Z :=
  let q := a / b in
  let r := a mod b in
  if 2 * r <? b then q
  else if b <? 2 * r then q + 1
  else if Z.even q then q else q + 1.

Definition round_time (duration_seconds round_to_minutes : Z) : Z :=
  if round_to_minutes <=? 0 then duration_seconds
  else
    let round_to_seconds := round_to_minutes * 60 in
    let rounded := round_div duration_seconds round_to_seconds * round_to_seconds in
    if ((rounded =? 0) && (0 <? duration_seconds))%bool
    then round_to_seconds
    else rounded.

Section WithClock.

(** [datetime.fromisoformat]; [None] when it raises. *)
Variable fromisoformat : string -> option datetime.

(** [datetime.fromisoformat(entry['start'].replace('Z', '+00:00'))];
    [None] when the lookup or the parse raises. *)
Definition parse_start (s : option string) : option datetime :=
  match s with
  | None => None
  | Some t => fromisoformat (replace_Z t)
  end.

(** The body of the loop of [filter_by_weekdays]: whether the entry is
    appended to [filtered].  The [try] block appends an entry that
    starts on a working day; for any other day it builds the message
    [f"Skipping weekend entry: {entry['description']}"], and that lookup
    raises [KeyError] when the entry has no ['description'] key.  The
    handler appends the entry, whatever was raised: by the parse, by
    the lookup of ['start'], or by the lookup of ['description']. *)
Definition keeps (e : RawEntry) : bool :=
  match parse_start (raw_start e) with
  | Some start_time =>
      if weekday start_time <? 5 then true
      else
        match raw_description_key e with
        | Some _ => false
        | None => true
        end
  | None => true
  end.

Fixpoint filter_loop (entries filtered : list RawEntry) : list RawEntry :=
  match entries with
  | [] => filtered
  | e :: rest =>
      if keeps e then filter_loop rest (filtered ++ [e])
      else filter_loop rest filtered
  end.

Definition filter_by_weekdays (entries : list RawEntry) (exclude_weekends : bool)
  : list RawEntry :=
  if negb exclude_weekends then entries
  else filter_loop entries [].

(** One turn of the loop of [process_time_entries]: the entry to
    append, or [None] on [continue]. *)
Definition process_entry (minimum_duration round_to_minutes : Z) (e : RawEntry)
  : option Entry :=
  if raw_duration e <=? 0 then None
  else if raw_duration e <? minimum_duration then None
  else
    let ticket_info := extract_ticket_info (raw_description e) in
    let original := raw_duration e in
    let rounded := round_time original round_to_minutes in
    let pname :=
      match raw_project_id e with
      | Some p => if p =? 0 then None else Some ("Project " ++ str_of_Z p)
      | None => None
      end in
    match raw_start e with
    | None => None
    | Some st =>
        Some (mkEntry (raw_id e) (raw_description e) st (raw_stop e)
                      rounded original (raw_project_id e) pname
                      (raw_billable e)
                      (Parser.ticket_id ticket_info)
                      (Parser.ticket_name ticket_info)
                      (raw_tags e))
    end.

Fixpoint process_loop (minimum_duration round_to_minutes : Z)
         (entries : list RawEntry) (processed : list Entry) : list Entry :=
  match entries with
  | [] => processed
  | e :: rest =>
      match process_entry minimum_duration round_to_minutes e with
      | Some pe => process_loop minimum_duration round_to_minutes rest (processed ++ [pe])
      | None => process_loop minimum_duration round_to_minutes rest processed
      end
  end.

Definition process_time_entries (time_entries : list RawEntry)
           (minimum_duration round_to_minutes : Z) (exclude_weekends : bool)
  : list Entry :=
  let time_entries :=
    if exclude_weekends
    then filter_by_weekdays time_entries exclude_weekends
    else time_entries in
  process_loop minimum_duration round_to_minutes time_entries [].

End WithClock.

End Toggl.

(* ================================================================= *)
(** ** The collaborator: the methods of [GitLabClient] the reconciler calls *)

Module GitLab.
Import Calendar.

(** A Python call that returns, or raises. *)
Inductive result (A : Type) : Type :=
| Ok (a : A)
| Raised.
Arguments Raised {A}.

(** The issue dictionary of [_format_issue_dict], with the keys the
    reconciler reads. *)
Record Issue : Type := mkIssue {
  iid : Z;
  title : string
}.

(** An element of the list [get_time_tracking_entries] returns. *)
Record TrackedEntry : Type := mkTracked {
  summary : string;
  toggl_id : string
}.

(** [find_issue_by_ticket_id] and [create_issue] catch every exception
    themselves and the reconciler calls them outside any [try]; the
    other calls sit inside a [try] of the reconciler. *)
Inductive Cmd : Type :=
| FindIssueByTicketId (ticket_id : string)
| CreateIssue (title description : string) (labels : list string)
              (assignee milestone : option string) (estimate_seconds : option Z)
| GetTimeTrackingEntries (issue_iid : Z)
| AddTimeSpent (issue_iid duration_seconds : Z) (spent_at : datetime)
               (description : string)
| GetIssueTimeStats (issue_iid : Z)
| SetTimeEstimate (issue_iid estimate_seconds : Z)
| AddNoteToIssue (issue_iid : Z) (note : string).

(** What each call answers.  [GetIssueTimeStats] answers the
    ['time_estimate'] of the dictionary, [None] when the key is absent. *)
Definition resp (c : Cmd) : Type :=
  match c with
  | FindIssueByTicketId _ => option Issue
  | CreateIssue _ _ _ _ _ _ => option Issue
  | GetTimeTrackingEntries _ => result (list TrackedEntry)
  | AddTimeSpent _ _ _ _ => result bool
  | GetIssueTimeStats _ => result (option Z)
  | SetTimeEstimate _ _ => result bool
  | AddNoteToIssue _ _ => result bool
  end.

(** The calls that change the issue tracker. *)
Definition mutating (c : Cmd) : bool :=
  match c with
  | CreateIssue _ _ _ _ _ _ => true
  | AddTimeSpent _ _ _ _ => true
  | SetTimeEstimate _ _ => true
  | AddNoteToIssue _ _ => true
  | FindIssueByTicketId _ => false
  | GetTimeTrackingEntries _ => false
  | GetIssueTimeStats _ => false
  end.

Definition is_add_time_spent (c : Cmd) : bool :=
  match c with
  | AddTimeSpent _ _ _ _ => true
  | _ => false
  end.

(** A computation that calls the collaborator: it returns, or it makes
    a call and goes on from the answer. *)
Inductive Prog (A : Type) : Type :=
| Ret (a : A)
| Call (c : Cmd) (k : resp c -> Prog A).
Arguments Ret {A} a.
Arguments Call {A} c k.

Fixpoint bind {A B : Type} (p : Prog A) (f : A -> Prog B) : Prog B :=
  match p with
  | Ret a => f a
  | Call c k => Call c (fun r => bind (k r) f)
  end.

(** A call together with its answer. *)
Inductive event : Type :=
| Ev (c : Cmd) (r : resp c).

Definition called (e : event) : Cmd := match e with Ev c _ => c end.

(** [Runs p t a]: with its calls answered as [t] records, [p] returns
    [a]. *)
Fixpoint Runs {A : Type} (p : Prog A) (t : list event) (a : A) : Prop :=
  match p with
  | Ret x => t = [] /\ x = a
  | Call c k => exists (r : resp c) (t' : list event),
      t = Ev c r :: t' /\ Runs (k r) t' a
  end.

(** Every call of [p], whatever the answers, satisfies [ok]. *)
Fixpoint Calls {A : Type} (ok : Cmd -> bool) (p : Prog A) : Prop :=
  match p with
  | Ret _ => True
  | Call c k => ok c = true /\ forall r : resp c, Calls ok (k r)
  end.

(** A collaborator: a state and an answer to every call. *)
Record Collaborator : Type := mkCollaborator {
  world : Type;
  answer : forall c : Cmd, world -> resp c * world
}.

Fixpoint exec {A : Type} (h : Collaborator) (p : Prog A) (w : world h)
  : A * world h * list event :=
  match p with
  | Ret a => (a, w, [])
  | Call c k =>
      let '(r, w1) := answer h c w in
      let '(a, w2, t) := exec h (k r) w1 in
      (a, w2, Ev c r :: t)
  end.

End GitLab.

Declare Scope prog_scope.
Delimit Scope prog_scope with prog.
Notation "x <- p ;; q" := (GitLab.bind p (fun x => q))
  (at level 61, p at next level, right associativity) : prog_scope.

(* ================================================================= *)
(** ** sync_service.py: the reconciler *)

Module Sync.
Import Text Re Calendar Toggl GitLab.
Local Open Scope prog_scope.

(** The settings of [config.py] the reconciler reads.  [scale_estimate x]
    stands for [int(x * Config.ESTIMATE_MULTIPLIER)], a product with a
    float. *)
Record Config : Type := mkConfig {
  DRY_RUN : bool;
  AUTO_CREATE_ISSUES : bool;
  MINIMUM_DURATION : Z;
  ROUND_TIME_TO_MINUTES : Z;
  MIN_DESCRIPTION_LENGTH : Z;
  SKIP_GENERIC_TERMS : list string;
  ISSUE_LABELS : list string;
  GITLAB_DEFAULT_ASSIGNEE : option string;
  GITLAB_DEFAULT_MILESTONE : option string;
  ADD_TIME_ESTIMATES : bool;
  scale_estimate : Z -> Z;
  SYNC_ONLY_BILLABLE : bool;
  EXCLUDE_WEEKENDS : bool;
  PREVENT_DUPLICATES : bool
}.

(** [self.stats] *)
Record Stats : Type := mkStats {
  processed_entries : Z;
  synced_entries : Z;
  created_issues : Z;
  errors : Z;
  skipped_entries : Z;
  time_estimates_added : Z;
  total_time_synced : Z;
  billable_time_synced : Z
}.

Definition stats0 : Stats := mkStats 0 0 0 0 0 0 0 0.

Definition add_processed (n : Z) (s : Stats) : Stats :=
  mkStats (processed_entries s + n) (synced_entries s) (created_issues s)
          (errors s) (skipped_entries s) (time_estimates_added s)
          (total_time_synced s) (billable_time_synced s).

Definition add_synced (n : Z) (s : Stats) : Stats :=
  mkStats (processed_entries s) (synced_entries s + n) (created_issues s)
          (errors s) (skipped_entries s) (time_estimates_added s)
          (total_time_synced s) (billable_time_synced s).

Definition add_created (n : Z) (s : Stats) : Stats :=
  mkStats (processed_entries s) (synced_entries s) (created_issues s + n)
          (errors s) (skipped_entries s) (time_estimates_added s)
          (total_time_synced s) (billable_time_synced s).

Definition add_errors (n : Z) (s : Stats) : Stats :=
  mkStats (processed_entries s) (synced_entries s) (created_issues s)
          (errors s + n) (skipped_entries s) (time_estimates_added s)
          (total_time_synced s) (billable_time_synced s).

Definition add_skipped (n : Z) (s : Stats) : Stats :=
  mkStats (processed_entries s) (synced_entries s) (created_issues s)
          (errors s) (skipped_entries s + n) (time_estimates_added s)
          (total_time_synced s) (billable_time_synced s).

Definition add_estimates (n : Z) (s : Stats) : Stats :=
  mkStats (processed_entries s) (synced_entries s) (created_issues s)
          (errors s) (skipped_entries s) (time_estimates_added s + n)
          (total_time_synced s) (billable_time_synced s).

Definition set_totals (total billable_total : Z) (s : Stats) : Stats :=
  mkStats (processed_entries s) (synced_entries s) (created_issues s)
          (errors s) (skipped_entries s) (time_estimates_added s)
          total billable_total.

(** [sum(entry['duration'] for entry in entries)] *)
Definition sum_durations (entries : list Entry) : Z :=
  fold_left (fun acc e => acc + duration e) entries 0.

Definition len (entries : list Entry) : Z := Z.of_nat (List.length entries).

(** [_format_duration] *)
Definition format_duration (seconds : Z) : string :=
  let hours := seconds / 3600 in
  let minutes := (seconds mod 3600) / 60 in
  if 0 <? hours then
    if 0 <? minutes
    then str_of_Z hours ++ "h " ++ str_of_Z minutes ++ "m"
    else str_of_Z hours ++ "h"
  else str_of_Z minutes ++ "m".

(** The pattern [\[TogglID:(\d+)\]] of the marker scan. *)
Definition marker : regex :=
  seq [exact "[TogglID:"; Group 1 (plus is_digit); exact "]"].

(** [re.search(r'\[TogglID:(\d+)\]', summary)], then [match.group(1)] *)
Definition marker_id (summary : string) : option string :=
  match re_search marker summary with
  | Some cp => group 1 cp
  | None => None
  end.

(** The scan of the existing entries of an issue: [existing_toggl_ids]
    after the loop, in the order the ids were added. *)
Fixpoint scan_markers (existing_entries : list TrackedEntry)
         (existing_toggl_ids : list string) : list string :=
  match existing_entries with
  | [] => existing_toggl_ids
  | existing_entry :: more =>
      match marker_id (summary existing_entry) with
      | Some i => scan_markers more (existing_toggl_ids ++ [i])
      | None => scan_markers more existing_toggl_ids
      end
  end.

(** [toggl_id in existing_toggl_ids] *)
Definition mem (x : string) (l : list string) : bool :=
  existsb (String.eqb x) l.

(** The arrow of the rounding note and the emblem of the summary note,
    as the bytes the source file holds. *)
Definition arrow : string := bytes [195; 162; 226; 128; 160; 226; 128; 153]%nat.
Definition emblem : string := bytes [195; 176; 197; 184; 226; 128; 156; 197; 160]%nat.

Section Reconciler.

Variable cfg : Config.
Variable fromisoformat : string -> option datetime.

(** [_should_sync_entry] *)
Definition should_sync_entry (e : Entry) : bool :=
  if duration e <? MINIMUM_DURATION cfg then false
  else if (SYNC_ONLY_BILLABLE cfg && negb (billable e))%bool then false
  else true.

Definition key : Type := (option string * option string)%type.

Definition opt_eqb (a b : option string) : bool :=
  match a, b with
  | Some x, Some y => String.eqb x y
  | None, None => true
  | _, _ => false
  end.

Definition key_eqb (a b : key) : bool :=
  (opt_eqb (fst a) (fst b) && opt_eqb (snd a) (snd b))%bool.

(** [grouped[ticket_key].append(entry)], the key being created at its
    first occurrence; the dictionary keeps the keys in that order. *)
Fixpoint group_add (k : key) (e : Entry) (grouped : list (key * list Entry))
  : list (key * list Entry) :=
  match grouped with
  | [] => [(k, [e])]
  | (k', es) :: more =>
      if key_eqb k' k then (k', (es ++ [e])%list) :: more
      else (k', es) :: group_add k e more
  end.

(** [_group_entries_by_ticket] *)
Definition group_entries_by_ticket (entries : list Entry)
  : list (key * list Entry) :=
  fold_left (fun grouped e => group_add (Toggl.ticket_id e, Toggl.ticket_name e) e grouped)
            entries [].

(** The loop over the skip terms of [_should_create_issue]. *)
Fixpoint no_generic_term (terms : list string) (ticket_name : string) : bool :=
  match terms with
  | [] => true
  | term :: more =>
      if contains (lower term) (lower ticket_name) then false
      else no_generic_term more ticket_name
  end.

(** [_should_create_issue] *)
Definition should_create_issue (ticket_name : string) : bool :=
  if Z.of_nat (char_length (strip ticket_name)) <? MIN_DESCRIPTION_LENGTH cfg
  then false
  else no_generic_term (SKIP_GENERIC_TERMS cfg) ticket_name.

(** The text logged with an entry. *)
Definition log_description (e : Entry) : string :=
  let toggl_id := str_of_id (id e) in
  join " "
    (List.app ["Toggl: " ++ description e]
    (List.app (match tags e with
               | [] => []
               | _ => ["[Tags: " ++ join ", " (tags e) ++ "]"]
               end)
    (List.app (if billable e then ["[Billable]"] else [])
    (List.app (if original_duration e =? duration e then []
               else ["[Rounded: " ++ format_duration (original_duration e) ++ " "
                     ++ arrow ++ " " ++ format_duration (duration e) ++ "]"])
              (if PREVENT_DUPLICATES cfg
               then ["[TogglID:" ++ toggl_id ++ "]"] else []))))).

(** The local state of the loop of [_sync_entries_to_issue]:
    [self.stats] and [total_logged_time]. *)
Definition acc : Type := (Stats * Z)%type.

(** One turn of the loop over the entries of a group. *)
Definition sync_entry (gitlab_issue : Issue) (existing_toggl_ids : list string)
           (e : Entry) (a : acc) : Prog acc :=
  let '(st, total_logged_time) := a in
  let toggl_id := str_of_id (id e) in
  if (PREVENT_DUPLICATES cfg && mem toggl_id existing_toggl_ids)%bool
  then Ret (add_skipped 1 st, total_logged_time)
  else
    match fromisoformat (replace_Z (start e)) with
    | None => Ret (add_errors 1 st, total_logged_time)
    | Some start_time =>
        if negb (DRY_RUN cfg) then
          Call (AddTimeSpent (iid gitlab_issue) (duration e) start_time
                             (log_description e))
               (fun success =>
                  match success with
                  | Ok true => Ret (add_synced 1 st, total_logged_time + duration e)
                  | Ok false => Ret (add_errors 1 st, total_logged_time)
                  | Raised => Ret (add_errors 1 st, total_logged_time)
                  end)
        else Ret (add_synced 1 st, total_logged_time + duration e)
    end.

Fixpoint sync_loop (gitlab_issue : Issue) (existing_toggl_ids : list string)
         (entries : list Entry) (a : acc) : Prog acc :=
  match entries with
  | [] => Ret a
  | e :: more =>
      a' <- sync_entry gitlab_issue existing_toggl_ids e a ;;
      sync_loop gitlab_issue existing_toggl_ids more a'
  end.

(** The duplicate check's set of ids already on the issue. *)
Definition fetch_existing (gitlab_issue : Issue) : Prog (list string) :=
  if PREVENT_DUPLICATES cfg then
    Call (GetTimeTrackingEntries (iid gitlab_issue))
         (fun existing_entries =>
            match existing_entries with
            | Ok l => Ret (scan_markers l [])
            | Raised => Ret []
            end)
  else Ret [].

(** The estimate set after the loop. *)
Definition add_estimate (gitlab_issue : Issue) (total_logged_time : Z)
           (st : Stats) : Prog Stats :=
  if (ADD_TIME_ESTIMATES cfg && (0 <? total_logged_time) && negb (DRY_RUN cfg))%bool
  then
    let estimate_seconds := scale_estimate cfg total_logged_time in
    Call (GetIssueTimeStats (iid gitlab_issue))
         (fun current_stats =>
            match current_stats with
            | Ok current =>
                let unset :=
                  match current with
                  | None => true
                  | Some x => x =? 0
                  end in
                if unset then
                  Call (SetTimeEstimate (iid gitlab_issue) estimate_seconds)
                       (fun success =>
                          match success with
                          | Ok true => Ret (add_estimates 1 st)
                          | _ => Ret st
                          end)
                else Ret st
            | Raised => Ret st
            end)
  else Ret st.

(** The summary note added after the loop. *)
Definition add_summary (gitlab_issue : Issue) (entries : list Entry)
           (total_logged_time : Z) (st : Stats) : Prog Stats :=
  if ((1 <? len entries) && negb (DRY_RUN cfg))%bool then
    let total_time := format_duration total_logged_time in
    let summary_note :=
      emblem ++ " Toggl Sync Summary: " ++ str_of_Z (len entries)
      ++ " entries totaling " ++ total_time
      ++ " logged from time tracking tool." in
    Call (AddNoteToIssue (iid gitlab_issue) summary_note) (fun _ => Ret st)
  else Ret st.

(** [_sync_entries_to_issue] *)
Definition sync_entries_to_issue (gitlab_issue : Issue) (entries : list Entry)
           (st : Stats) : Prog Stats :=
  existing_toggl_ids <- fetch_existing gitlab_issue ;;
  a <- sync_loop gitlab_issue existing_toggl_ids entries (st, 0) ;;
  st1 <- add_estimate gitlab_issue (snd a) (fst a) ;;
  add_summary gitlab_issue entries (snd a) st1.

(** Python truthiness of an optional string. *)
Definition truthy_opt (s : option string) : bool :=
  match s with
  | Some x => truthy x
  | None => false
  end.

(** The last statement of [_sync_ticket_entries]. *)
Definition sync_or_skip (gitlab_issue : option Issue) (entries : list Entry)
           (st : Stats) : Prog Stats :=
  match gitlab_issue with
  | Some issue => sync_entries_to_issue issue entries st
  | None => Ret (add_skipped (len entries) st)
  end.

(** The creation decision of [_sync_ticket_entries], reached with no
    issue found and a ticket name that is not blank. *)
Definition create_or_skip (ticket_id : option string) (ticket_name : string)
           (entries : list Entry) (total_duration : Z) (st : Stats)
  : Prog Stats :=
  if should_create_issue ticket_name then
    if AUTO_CREATE_ISSUES cfg then
      if negb (DRY_RUN cfg) then
        let estimate_seconds :=
          if ADD_TIME_ESTIMATES cfg
          then Some (scale_estimate cfg total_duration)
          else None in
        Call (CreateIssue ticket_name
                ("Auto-created from Toggl time tracking"
                 ++ bytes [10; 10]%nat ++ "Original ticket ID: "
                 ++ (if truthy_opt ticket_id
                     then match ticket_id with Some t => t | None => "" end
                     else "N/A")
                 ++ bytes [10]%nat ++ "Total logged time: "
                 ++ format_duration total_duration)
                (ISSUE_LABELS cfg) (GITLAB_DEFAULT_ASSIGNEE cfg)
                (GITLAB_DEFAULT_MILESTONE cfg) estimate_seconds)
             (fun gitlab_issue =>
                match gitlab_issue with
                | Some issue =>
                    let st1 := add_created 1 st in
                    let st2 :=
                      match estimate_seconds with
                      | Some x => if x =? 0 then st1 else add_estimates 1 st1
                      | None => st1
                      end in
                    sync_or_skip (Some issue) entries st2
                | None => Ret (add_errors 1 st)
                end)
      else sync_or_skip None entries (add_created 1 st)
    else Ret (add_skipped (len entries) st)
  else sync_or_skip None entries st.

(** [_sync_ticket_entries] *)
Definition sync_ticket_entries (ticket_info : key) (entries : list Entry)
           (st : Stats) : Prog Stats :=
  let '(ticket_id, ticket_name) := ticket_info in
  let total_duration := sum_durations entries in
  let st := add_processed (len entries) st in
  gitlab_issue <-
    (if truthy_opt ticket_id
     then Call (FindIssueByTicketId
                  (match ticket_id with Some t => t | None => "" end))
               (fun found => Ret found)
     else Ret None) ;;
  match gitlab_issue, ticket_name with
  | None, Some name =>
      if (truthy name && truthy (strip name))%bool
      then create_or_skip ticket_id name entries total_duration st
      else sync_or_skip None entries st
  | _, _ => sync_or_skip gitlab_issue entries st
  end.

(** The loop over the groups. *)
Fixpoint sync_groups (groups : list (key * list Entry)) (st : Stats)
  : Prog Stats :=
  match groups with
  | [] => Ret st
  | (ticket_info, entries) :: more =>
      st' <- sync_ticket_entries ticket_info entries st ;;
      sync_groups more st'
  end.

(** [sum(entry['duration'] for entry in processed_entries if ...)] *)
Definition sum_where (keep : Entry -> bool) (entries : list Entry) : Z :=
  sum_durations (filter keep entries).

(** [sync_time_entries], from the entries fetched from Toggl on; the
    calls that only feed the log are left out. *)
Definition sync_time_entries (time_entries : list RawEntry) (st : Stats)
  : Prog Stats :=
  match time_entries with
  | [] => Ret st
  | _ =>
      let processed :=
        process_time_entries fromisoformat time_entries
          (MINIMUM_DURATION cfg) (ROUND_TIME_TO_MINUTES cfg)
          (EXCLUDE_WEEKENDS cfg) in
      st' <- sync_groups (group_entries_by_ticket processed) st ;;
      Ret (set_totals
             (sum_where should_sync_entry processed)
             (sum_where (fun e => (billable e && should_sync_entry e)%bool) processed)
             st')
  end.

End Reconciler.

End Sync.

(* ================================================================= *)
(** ** gitlab_client.py: marker recovery and time logging *)

Module Client.
Import Text Re Calendar GitLab.

(** A note of an issue: [note.body or ""]. *)
Definition Note : Type := string.

(** The clock emblem of the tracking note, as the bytes the source file
    holds. *)
Definition clock : string := bytes [240; 159; 149; 146]%nat.

(** The test [get_time_tracking_entries] applies to the body of a note. *)
Definition is_tracking_note (body : string) : bool :=
  ((contains (clock ++ " Time logged:") body && contains "[TogglID:" body)
   || (contains "[TogglID:" body
       && (contains "Toggl:" body || contains "time logged" (lower body))))%bool.

(** Method 1: the tracking notes. *)
Fixpoint from_notes (notes : list Note) (formatted : list TrackedEntry)
  : list TrackedEntry :=
  match notes with
  | [] => formatted
  | body :: more =>
      if is_tracking_note body then
        match Sync.marker_id body with
        | Some i => from_notes more (formatted ++ [mkTracked body i])
        | None => from_notes more formatted
        end
      else from_notes more formatted
  end.

(** Method 3: the summaries of the time events, skipping the ids the
    notes already gave. *)
Fixpoint from_events (events : list string) (formatted : list TrackedEntry)
  : list TrackedEntry :=
  match events with
  | [] => formatted
  | summary :: more =>
      match Sync.marker_id summary with
      | Some i =>
          if existsb (fun entry => String.eqb (toggl_id entry) i) formatted
          then from_events more formatted
          else from_events more (formatted ++ [mkTracked summary i])
      | None => from_events more formatted
      end
  end.

(** The last loop: one entry per id, the first one. *)
Fixpoint unique (formatted : list TrackedEntry) (kept : list TrackedEntry)
  : list TrackedEntry :=
  match formatted with
  | [] => kept
  | entry :: more =>
      if (truthy (toggl_id entry)
          && negb (existsb (fun k => String.eqb (toggl_id k) (toggl_id entry)) kept))%bool
      then unique more (kept ++ [entry])
      else unique more kept
  end.

(** [get_time_tracking_entries], from what the two requests answer:
    the notes of the issue, and the status code and body of the time
    events request; [Raised] when the request raises. *)
Definition get_time_tracking_entries (notes : result (list Note))
           (events : result (Z * list string)) : list TrackedEntry :=
  let formatted1 :=
    match notes with
    | Ok l => from_notes l []
    | Raised => []
    end in
  let formatted3 :=
    match events with
    | Ok (status, l) => if status =? 200 then from_events l formatted1 else formatted1
    | Raised => formatted1
    end in
  unique formatted3 [].

(** [_seconds_to_gitlab_time] *)
Definition seconds_to_gitlab_time (seconds : Z) : string :=
  if seconds <=? 0 then "1m"
  else
    let hours := seconds / 3600 in
    let minutes := (seconds mod 3600) / 60 in
    let time_parts :=
      List.app (if 0 <? hours then [str_of_Z hours ++ "h"] else [])
               (if 0 <? minutes then [str_of_Z minutes ++ "m"] else []) in
    match time_parts with
    | [] => "1m"
    | _ => join " " time_parts
    end.

Definition pad (width : nat) (n : Z) : string :=
  let s := str_of_Z n in
  text (repeat "0"%char (width - String.length s)) ++ s.

(** [spent_at.strftime('%Y-%m-%d')]; the C library leaves a year below
    1000 without leading zeros. *)
Definition strftime_date (d : datetime) : string :=
  str_of_Z (year d) ++ "-" ++ pad 2 (month d) ++ "-" ++ pad 2 (day d).

(** The summary [add_time_spent] posts. *)
Definition posted_summary (description : string) : string :=
  if truthy description then prefix 255 description else "Time logged from Toggl".

(** The tracking note [add_time_spent] adds after a successful post. *)
Definition tracking_note (duration_seconds : Z) (spent_at : datetime)
           (description : string) : option string :=
  match Sync.marker_id description with
  | Some _ =>
      Some (clock ++ " Time logged: " ++ seconds_to_gitlab_time duration_seconds
            ++ " on " ++ strftime_date spent_at ++ " - " ++ description)
  | None => None
  end.

End Client.

(* ================================================================= *)
(** ** An issue tracker in memory, to replay runs *)

Module Replay.
Import Text Calendar GitLab Client.

Record Tracked : Type := mkTrackedIssue {
  t_iid : Z;
  t_title : string;
  t_description : string;
  t_notes : list Note;
  t_events : list string;
  t_estimate : Z
}.

Definition tracker : Type := list Tracked.

Definition as_issue (i : Tracked) : Issue := mkIssue (t_iid i) (t_title i).

Definition all_digits (s : string) : bool :=
  (truthy s && forallb is_digit (chars s))%bool.

Definition Z_of_digits (s : string) : Z :=
  fold_left (fun n c => 10 * n + (Z.of_nat (code c) - 48)) (chars s) 0.

Definition by_iid (n : Z) (w : tracker) : option Tracked :=
  find (fun i => t_iid i =? n) w.

(** [find_issue_by_ticket_id]: the issue of that number, else the first
    issue whose title holds the id, else the first whose description
    does. *)
Definition find_issue (ticket_id : string) (w : tracker) : option Issue :=
  if negb (truthy ticket_id) then None
  else
    let by_number :=
      if all_digits ticket_id then by_iid (Z_of_digits ticket_id) w else None in
    match by_number with
    | Some i => Some (as_issue i)
    | None =>
        match find (fun i => contains (lower ticket_id) (lower (t_title i))) w with
        | Some i => Some (as_issue i)
        | None =>
            match find (fun i => contains (lower ticket_id) (lower (t_description i))) w with
            | Some i => Some (as_issue i)
            | None => None
            end
        end
    end.

Definition next_iid (w : tracker) : Z :=
  fold_left (fun m i => Z.max m (t_iid i)) w 0 + 1.

Definition update (n : Z) (f : Tracked -> Tracked) (w : tracker) : tracker :=
  map (fun i => if t_iid i =? n then f i else i) w.

Definition has_issue (n : Z) (w : tracker) : bool :=
  match by_iid n w with Some _ => true | None => false end.

Definition with_note (note : string) (i : Tracked) : Tracked :=
  mkTrackedIssue (t_iid i) (t_title i) (t_description i)
                 (t_notes i ++ [note]) (t_events i) (t_estimate i).

Definition with_event (summary : string) (i : Tracked) : Tracked :=
  mkTrackedIssue (t_iid i) (t_title i) (t_description i)
                 (t_notes i) (t_events i ++ [summary]) (t_estimate i).

Definition with_estimate (e : Z) (i : Tracked) : Tracked :=
  mkTrackedIssue (t_iid i) (t_title i) (t_description i)
                 (t_notes i) (t_events i) e.

(** Every request succeeds on an issue that exists and fails on one
    that does not. *)
Definition answer (c : Cmd) : tracker -> resp c * tracker :=
  match c as c0 return tracker -> resp c0 * tracker with
  | FindIssueByTicketId ticket_id => fun w => (find_issue ticket_id w, w)
  | CreateIssue title description _ _ _ estimate_seconds => fun w =>
      let n := next_iid w in
      let e := match estimate_seconds with Some x => x | None => 0 end in
      (Some (mkIssue n title),
       (w ++ [mkTrackedIssue n title description [] [] e])%list)
  | GetTimeTrackingEntries n => fun w =>
      match by_iid n w with
      | Some i =>
          (Ok (get_time_tracking_entries (Ok (t_notes i)) (Ok (200, t_events i))), w)
      | None => (Ok (get_time_tracking_entries Raised (Ok (404, []))), w)
      end
  | AddTimeSpent n duration_seconds spent_at description => fun w =>
      if has_issue n w then
        let w1 := update n (with_event (posted_summary description)) w in
        let w2 :=
          match tracking_note duration_seconds spent_at description with
          | Some note => update n (with_note note) w1
          | None => w1
          end in
        (Ok true, w2)
      else (Ok false, w)
  | GetIssueTimeStats n => fun w =>
      match by_iid n w with
      | Some i => (Ok (Some (t_estimate i)), w)
      | None => (Ok None, w)
      end
  | SetTimeEstimate n e => fun w =>
      if has_issue n w then (Ok true, update n (with_estimate e) w)
      else (Ok false, w)
  | AddNoteToIssue n note => fun w =>
      if has_issue n w then (Ok true, update n (with_note note) w)
      else (Ok false, w)
  end.

Definition gitlab : Collaborator := mkCollaborator answer.

Definition digit_at (n : nat) (l : list ascii) : option Z :=
  match nth_error l n with
  | Some c => if is_digit c then Some (Z.of_nat (code c) - 48) else None
  | None => None
  end.

Definition number_at (n width : nat) (l : list ascii) : option Z :=
  fold_left (fun acc i =>
               match acc, digit_at (n + i) l with
               | Some a, Some d => Some (10 * a + d)
               | _, _ => None
               end)
            (List.seq 0 width) (Some 0).

Definition char_at (n : nat) (c : ascii) (l : list ascii) : bool :=
  match nth_error l n with
  | Some x => Ascii.eqb x c
  | None => false
  end.

(** A reading of [datetime.fromisoformat] for the timestamps Toggl
    sends, [YYYY-MM-DDTHH:MM:SS] followed by an offset. *)
Definition iso_basic (s : string) : option datetime :=
  let l := chars s in
  match number_at 0 4 l, number_at 5 2 l, number_at 8 2 l,
        number_at 11 2 l, number_at 14 2 l, number_at 17 2 l with
  | Some y, Some m, Some d, Some hh, Some mm, Some ss =>
      if (char_at 4 "-" l && char_at 7 "-" l && char_at 10 "T" l
          && char_at 13 ":" l && char_at 16 ":" l
          && (1 <=? m) && (m <=? 12) && (1 <=? d) && (d <=? 31)
          && (hh <=? 23) && (mm <=? 59) && (ss <=? 59))%bool
      then Some (mkDatetime y m d hh mm ss)
      else None
  | _, _, _, _, _, _ => None
  end.

End Replay.

(* ================================================================= *)
(** ** Settings and entries of the replayed scenarios *)

Module Scenario.
Import Text Calendar Toggl GitLab Sync Replay.

(** The defaults of [config.py], run live. *)
Definition live : Config :=
  mkConfig false true 300 15 5
           ["meeting"; "break"; "lunch"; "admin"; "misc"; "other"; "call"]
           ["toggl-sync"] None None false (fun x => x * 3 / 2)
           false false true.

Definition with_dry_run (b : bool) (c : Config) : Config :=
  mkConfig b (AUTO_CREATE_ISSUES c) (MINIMUM_DURATION c)
           (ROUND_TIME_TO_MINUTES c) (MIN_DESCRIPTION_LENGTH c)
           (SKIP_GENERIC_TERMS c) (ISSUE_LABELS c)
           (GITLAB_DEFAULT_ASSIGNEE c) (GITLAB_DEFAULT_MILESTONE c)
           (ADD_TIME_ESTIMATES c) (scale_estimate c)
           (SYNC_ONLY_BILLABLE c) (EXCLUDE_WEEKENDS c) (PREVENT_DUPLICATES c).

Definition dry : Config := with_dry_run true live.

(** Monday 15 January 2024. *)
Definition monday : string := "2024-01-15T09:00:00Z".
(** Saturday 20 January 2024. *)
Definition saturday : string := "2024-01-20T09:00:00+00:00".

Definition fix_42 : RawEntry :=
  mkRaw (IntId 1) (Some "#42: fix") (Some monday) None 650 true None [].

Definition meeting : RawEntry :=
  mkRaw (IntId 2) (Some "meeting") (Some monday) None 400 false None [].

Definition dashboard : RawEntry :=
  mkRaw (IntId 3) (Some "Implement dashboard feature") (Some monday) None 900 true None [].

Definition lettered : RawEntry :=
  mkRaw (StrId "abc") (Some "#42: fix") (Some monday) None 900 true None [].

Definition weekend_work : RawEntry :=
  mkRaw (IntId 4) (Some "#42: weekend") (Some saturday) None 900 true None [].

Definition undated : RawEntry :=
  mkRaw (IntId 5) (Some "#42: undated") (Some "yesterday") None 900 true None [].

(** An entry of that Saturday that came without a ['description'] key. *)
Definition weekend_untitled : RawEntry :=
  mkRaw (IntId 8) None (Some saturday) None 900 true None [].

Definition fix_again : RawEntry :=
  mkRaw (IntId 6) (Some "#42: fix") (Some monday) None 1000 false None ["dev"].

(** The entry [fix_42], processed. *)
Definition fix_entry : Entry :=
  mkEntry (IntId 1) "#42: fix" monday None 900 650 None None true
          (Some "42") (Some "fix") [].

(** The entry [lettered], processed. *)
Definition lettered_entry : Entry :=
  mkEntry (StrId "abc") "#42: fix" monday None 900 900 None None true
          (Some "42") (Some "fix") [].

(** A tracker that holds issue 42 and nothing logged on it. *)
Definition tracker_42 : tracker := [mkTrackedIssue 42 "Fix things" "" [] [] 0].

Definition issue_42 : Issue := mkIssue 42 "Fix things".

(** One run of the reconciler on the tracker in memory: the counters,
    the tracker afterwards, and the calls made. *)
Definition replay (c : Config) (entries : list RawEntry) (w : tracker)
  : Stats * tracker * list event :=
  exec gitlab (sync_time_entries c iso_basic entries stats0) w.

Definition counters (r : Stats * tracker * list event) : Stats := fst (fst r).
Definition after (r : Stats * tracker * list event) : tracker := snd (fst r).
Definition calls (r : Stats * tracker * list event) : list event := snd r.

End Scenario.

(* ================================================================= *)
(** ** Notions the properties are stated with *)

Module Notions.
Import Text Re Calendar Toggl GitLab Sync.

(** The calls that leave the issue tracker as it is. *)
Definition reads (c : Cmd) : bool := negb (mutating c).

(** A string of the digits [0] to [9] that is not empty. *)
Definition numeric (s : string) : Prop :=
  forallb is_digit (chars s) = true /\ s <> "".

(** A character of ASCII. *)
Definition is_ascii (c : ascii) : bool := Nat.ltb (code c) 128.

(** A character that is no digit for [re] either, which knows digits
    outside ASCII: a character of ASCII other than [0] to [9]. *)
Definition ascii_non_digit (c : ascii) : bool :=
  (is_ascii c && negb (is_digit c))%bool.

(** An id with such a character. *)
Definition has_ascii_non_digit (s : string) : bool :=
  existsb ascii_non_digit (chars s).

(** What the [\d+] of [re] can capture: a text that is not empty and
    has no such character, made of the digits [0] to [9] and of
    characters outside ASCII. *)
Definition digits_only (s : string) : Prop :=
  has_ascii_non_digit s = false /\ s <> "".



(** The submission a live run makes for an entry: none for a duplicate
    and none for a start that does not parse. *)
Definition submission (cfg : Config) (f : string -> option datetime)
           (issue : Issue) (ids : list string) (e : Entry) : list Cmd :=
  if (PREVENT_DUPLICATES cfg && mem (str_of_id (id e)) ids)%bool then []
  else
    match f (replace_Z (start e)) with
    | Some dt => [AddTimeSpent (iid issue) (duration e) dt (log_description cfg e)]
    | None => []
    end.

Definition submissions (cfg : Config) (f : string -> option datetime)
           (issue : Issue) (ids : list string) (entries : list Entry) : list Cmd :=
  flat_map (submission cfg f issue ids) entries.

(** What the issue tracker answers on a run: [issue_of] resolves the
    ticket ids, and the entries returned for issue [n] let the scan
    recover at least the ids [ids_on n]. *)
Definition answers_as (issue_of : string -> option Issue)
           (ids_on : Z -> list string) (ev : event) : Prop :=
  match ev with
  | Ev c r =>
      match c return resp c -> Prop with
      | FindIssueByTicketId tid => fun r => r = issue_of tid
      | GetTimeTrackingEntries n => fun r =>
          exists l, r = Ok l
                    /\ forall x, In x (ids_on n) -> mem x (scan_markers l []) = true
      | _ => fun _ => True
      end r
  end.

(** The counters after [n] entries were processed and all skipped. *)
Definition all_skipped (n : Z) (st st' : Stats) : Prop :=
  processed_entries st' = processed_entries st + n
  /\ skipped_entries st' = skipped_entries st + n
  /\ synced_entries st' = synced_entries st
  /\ errors st' = errors st
  /\ created_issues st' = created_issues st.

(** The counters after [n] more entries were skipped. *)
Definition only_skipped (n : Z) (st st' : Stats) : Prop :=
  processed_entries st' = processed_entries st
  /\ skipped_entries st' = skipped_entries st + n
  /\ synced_entries st' = synced_entries st
  /\ errors st' = errors st
  /\ created_issues st' = created_issues st.

Definition entry_key (e : Entry) : key := (Toggl.ticket_id e, Toggl.ticket_name e).

(** The number of entries in the groups. *)
Definition group_count (groups : list (key * list Entry)) : Z :=
  fold_right (fun g n => len (snd g) + n) 0 groups.

(** Every entry of a group has the key of the group, and [Q]. *)
Definition grouped (Q : Entry -> Prop) (groups : list (key * list Entry)) : Prop :=
  Forall (fun g => Forall (fun e => entry_key e = fst g /\ Q e) (snd g)) groups.

(** The entry resolves to an issue on which its id is recovered. *)
Definition already_logged (issue_of : string -> option Issue)
           (ids_on : Z -> list string) (e : Entry) : Prop :=
  exists tid issue,
    Toggl.ticket_id e = Some tid /\ tid <> ""
    /\ issue_of tid = Some issue
    /\ In (str_of_id (id e)) (ids_on (iid issue)).

End Notions.

Module RoundTripNotions.
Import Text Re Calendar Toggl GitLab Sync Notions.

(** A text without an opening square bracket. *)
Definition bracket_free (s : string) : Prop :=
  Forall (fun c => c <> "["%char) (chars s).

(** The marker scan steps over [l]: it finds no match that starts inside
    [l]. *)
Definition stepped_over (l : list ascii) : Prop :=
  forall sn rest,
    search_from marker sn (l ++ rest) = search_from marker (rev l ++ sn) rest.

(** The characters of [parts], each part followed by a space. *)
Definition spaced (parts : list string) : list ascii :=
  List.concat (map (fun p => chars p ++ [" "%char])%list parts).

(** What follows the literal head of the marker pattern. *)
Definition marker_tail (st1 : mstate) : option (list (nat * list ascii)) :=
  run (Group 1 (plus is_digit)) st1
      (fun st2 => run (Cat (exact "]") Eps) st2 accept).


End RoundTripNotions.

Module AccountingNotions.
Import Text Re Calendar Toggl GitLab Sync Notions.

(** A submission the issue tracker accepted. *)
Definition accepted (ev : event) : bool :=
  match ev with
  | Ev c r =>
      match c return resp c -> bool with
      | AddTimeSpent _ _ _ _ => fun r =>
          match r with Ok true => true | _ => false end
      | _ => fun _ => false
      end r
  end.

(** A submission that answered [False] or raised. *)
Definition rejected (ev : event) : bool :=
  match ev with
  | Ev c r =>
      match c return resp c -> bool with
      | AddTimeSpent _ _ _ _ => fun r =>
          match r with Ok true => false | _ => true end
      | _ => fun _ => false
      end r
  end.

(** An issue creation that returned an issue. *)
Definition created_ok (ev : event) : bool :=
  match ev with
  | Ev c r =>
      match c return resp c -> bool with
      | CreateIssue _ _ _ _ _ _ => fun r =>
          match r with Some _ => true | None => false end
      | _ => fun _ => false
      end r
  end.

(** An issue creation that returned nothing. *)
Definition create_failed (ev : event) : bool :=
  match ev with
  | Ev c r =>
      match c return resp c -> bool with
      | CreateIssue _ _ _ _ _ _ => fun r =>
          match r with Some _ => false | None => true end
      | _ => fun _ => false
      end r
  end.

(** An estimate counted as added: a [set_time_estimate] answered
    [True], or an issue created with an estimate that is not zero. *)
Definition estimated (ev : event) : bool :=
  match ev with
  | Ev c r =>
      match c return resp c -> bool with
      | SetTimeEstimate _ _ => fun r =>
          match r with Ok true => true | _ => false end
      | CreateIssue _ _ _ _ _ estimate_seconds => fun r =>
          match r, estimate_seconds with
          | Some _, Some x => negb (x =? 0)
          | _, _ => false
          end
      | _ => fun _ => false
      end r
  end.

(** How many events of [t] pass [p]. *)
Definition tally (p : event -> bool) (t : list event) : Z :=
  Z.of_nat (List.length (filter p t)).

(** The entries accounted for: synced, skipped or counted as an error. *)
Definition settled (st : Stats) : Z :=
  synced_entries st + skipped_entries st + errors st.

(** What a part of a run that handles [n] entries does to the counters,
    [t] being its calls. *)
Definition fair (cfg : Config) (n : Z) (t : list event) (st st' : Stats) : Prop :=
  processed_entries st' = processed_entries st
  /\ settled st' <= settled st + n
  /\ (tally create_failed t = 0 -> settled st' = settled st + n)
  /\ time_estimates_added st' = time_estimates_added st + tally estimated t
  /\ (DRY_RUN cfg = false ->
      synced_entries st' = synced_entries st + tally accepted t
      /\ created_issues st' = created_issues st + tally created_ok t
      /\ errors st + tally rejected t + tally create_failed t <= errors st').

(** The tracker in memory while issue creation is out of order:
    [create_issue] returns [None], every other call is answered as
    before. *)
Definition answer_without_creation (c : Cmd)
  : Replay.tracker -> resp c * Replay.tracker :=
  match c as c0 return Replay.tracker -> resp c0 * Replay.tracker with
  | CreateIssue _ _ _ _ _ _ => fun w => (None, w)
  | c0 => Replay.answer c0
  end.

Definition gitlab_without_creation : Collaborator :=
  mkCollaborator answer_without_creation.

(** A second entry with the description of [Scenario.dashboard]. *)
Definition dashboard_again : RawEntry :=
  mkRaw (IntId 7) (Some "Implement dashboard feature") (Some Scenario.monday) None
        1200 false None [].

End AccountingNotions.

Module GroupingNotions.
Import Text Toggl Sync Notions.

(** The entries of [entries] that carry the key [k], in their order. *)
Definition with_key (k : key) (entries : list Entry) : list Entry :=
  filter (fun e => key_eqb (entry_key e) k) entries.

(** The keys of [keys] in the order of their first occurrence. *)
Fixpoint first_occurrences (keys seen : list key) : list key :=
  match keys with
  | [] => seen
  | k :: more =>
      if existsb (fun k' => key_eqb k' k) seen
      then first_occurrences more seen
      else first_occurrences more (seen ++ [k])
  end.

End GroupingNotions.

(* ================================================================= *)
(** ** config.py: the skip terms *)

Module Settings.
Import Text.

(** [s.split(',')] *)
Fixpoint split_chars (l current : list ascii) : list string :=
  match l with
  | [] => [text current]
  | c :: more =>
      if Ascii.eqb c ","%char
      then text current :: split_chars more []
      else split_chars more (current ++ [c])
  end.

Definition split_commas (s : string) : list string := split_chars (chars s) [].

(** [os.getenv('SKIP_GENERIC_TERMS', 'meeting,...').split(',')], from
    the value of the environment variable, [None] when it is not set. *)
Definition skip_generic_terms (env : option string) : list string :=
  split_commas
    match env with
    | Some v => v
    | None => "meeting,break,lunch,admin,misc,other,call"
    end.

End Settings.

Module GateNotions.
Import Text Toggl GitLab Sync Settings.

(** What the settings ask of a call of the reconciler. *)
Definition licensed (cfg : Config) (c : Cmd) : bool :=
  match c with
  | FindIssueByTicketId ticket_id => truthy ticket_id
  | CreateIssue title _ _ _ _ estimate_seconds =>
      negb (DRY_RUN cfg) && AUTO_CREATE_ISSUES cfg
      && should_create_issue cfg title && truthy (strip title)
      && match estimate_seconds with
         | Some _ => ADD_TIME_ESTIMATES cfg
         | None => negb (ADD_TIME_ESTIMATES cfg)
         end
  | GetTimeTrackingEntries _ => PREVENT_DUPLICATES cfg
  | AddTimeSpent _ _ _ _ => negb (DRY_RUN cfg)
  | GetIssueTimeStats _ => ADD_TIME_ESTIMATES cfg && negb (DRY_RUN cfg)
  | SetTimeEstimate _ _ => ADD_TIME_ESTIMATES cfg && negb (DRY_RUN cfg)
  | AddNoteToIssue _ _ => negb (DRY_RUN cfg)
  end%bool.

Definition is_create_issue (c : Cmd) : bool :=
  match c with
  | CreateIssue _ _ _ _ _ _ => true
  | _ => false
  end.

(** The defaults of [config.py], run live, with [SKIP_GENERIC_TERMS]
    set to the empty text in the environment. *)
Definition live_without_terms : Config :=
  mkConfig false true 300 15 5 (skip_generic_terms (Some ""))
           ["toggl-sync"] None None false (fun x => x * 3 / 2)
           false false true.

End GateNotions.

Module EstimateNotions.
Import Text Toggl GitLab Sync.

(** [not current_stats.get('time_estimate')] *)
Definition unset (current : option Z) : bool :=
  match current with
  | None => true
  | Some x => x =? 0
  end.

Definition is_set_time_estimate (c : Cmd) : bool :=
  match c with
  | SetTimeEstimate _ _ => true
  | _ => false
  end.

(** [prev] is a reading of the estimate of issue [n] that found none. *)
Definition found_no_estimate (n : Z) (prev : option event) : bool :=
  match prev with
  | Some (Ev c r) =>
      match c return resp c -> bool with
      | GetIssueTimeStats m => fun r =>
          match r with
          | Ok current => (n =? m) && unset current
          | Raised => false
          end
      | _ => fun _ => false
      end r
  | None => false
  end.

(** The call [ev], made right after [prev], does not set an estimate
    over one that was found. *)
Definition guarded (prev : option event) (ev : event) : bool :=
  match called ev with
  | SetTimeEstimate n _ => found_no_estimate n prev
  | _ => true
  end.

(** No call of [t], made after [prev], sets an estimate without a
    reading just before it that found none. *)
Fixpoint never_overwrites (prev : option event) (t : list event) : bool :=
  match t with
  | [] => true
  | ev :: more => guarded prev ev && never_overwrites (Some ev) more
  end.

(** [t] never overwrites, whatever came before. *)
Definition careful (t : list event) : Prop :=
  forall prev, never_overwrites prev t = true.

(** The time a call logged: the duration of a submission answered
    [True]. *)
Definition accepted_time (ev : event) : Z :=
  match ev with
  | Ev c r =>
      match c return resp c -> Z with
      | AddTimeSpent _ duration_seconds _ _ => fun r =>
          match r with Ok true => duration_seconds | _ => 0 end
      | _ => fun _ => 0
      end r
  end.

(** The time the calls of [t] logged. *)
Definition logged (t : list event) : Z :=
  fold_right (fun ev total => accepted_time ev + total) 0 t.

(** The summary note for [n] entries and the time [total]. *)
Definition summary_note (n total : Z) : string :=
  emblem ++ " Toggl Sync Summary: " ++ str_of_Z n
  ++ " entries totaling " ++ format_duration total
  ++ " logged from time tracking tool.".

(** A call made for a group of [n] entries on [issue], [total] being
    the time logged for the group. *)
Definition about_issue (cfg : Config) (issue : Issue) (n total : Z)
           (ev : event) : Prop :=
  match called ev with
  | GetTimeTrackingEntries m => m = iid issue
  | AddTimeSpent m _ _ _ => m = iid issue
  | GetIssueTimeStats m => m = iid issue
  | SetTimeEstimate m e => m = iid issue /\ e = scale_estimate cfg total
  | AddNoteToIssue m note => m = iid issue /\ note = summary_note n total
  | FindIssueByTicketId _ => False
  | CreateIssue _ _ _ _ _ _ => False
  end.

(** The defaults of [config.py], run live, with [ADD_TIME_ESTIMATES]
    set. *)
Definition estimating : Config :=
  mkConfig false true 300 15 5
           ["meeting"; "break"; "lunch"; "admin"; "misc"; "other"; "call"]
           ["toggl-sync"] None None true (fun x => x * 3 / 2)
           false false true.

End EstimateNotions.

Module MatcherNotions.
Import Text Re.

(** The least number of characters a match of [r] consumes. *)
Fixpoint min_len (r : regex) : nat :=
  match r with
  | Eps => 0
  | Chr _ => 1
  | Cat r1 r2 => min_len r1 + min_len r2
  | Rep least _ => least
  | Opt _ => 0
  | Group _ r' => min_len r'
  | WordBoundary => 0
  end.

(** Every group 1 of [r] consumes at least one character. *)
Fixpoint first_group_nonempty (r : regex) : bool :=
  match r with
  | Cat r1 r2 => first_group_nonempty r1 && first_group_nonempty r2
  | Opt r' => first_group_nonempty r'
  | Group i r' =>
      (negb (Nat.eqb i 1) || Nat.leb 1 (min_len r')) && first_group_nonempty r'
  | _ => true
  end.

(** [v] is a contiguous part of [input]. *)
Definition part_of (v input : list ascii) : Prop :=
  exists before after, input = (before ++ v ++ after)%list.

(** The captures [cp] were taken from [input], group 1 never empty. *)
Definition captured_from (input : list ascii) (cp : list (nat * list ascii)) : Prop :=
  Forall (fun c => part_of (snd c) input /\ (fst c = 1%nat -> snd c <> [])) cp.

(** The matcher state [st] is a position in [input]. *)
Definition position_in (input : list ascii) (st : mstate) : Prop :=
  (rev (seen st) ++ rest st)%list = input /\ captured_from input (caps st).

End MatcherNotions.

(* ================================================================= *)
(** ** config.py: validation *)

Module Validation.
Import Text Sync.

(** The required settings, [None] when the environment variable is not
    set, and [SYNC_DAYS_BACK]. *)
Record Credentials : Type := mkCredentials {
  TOGGL_API_TOKEN : option string;
  TOGGL_WORKSPACE_ID : option string;
  GITLAB_TOKEN : option string;
  GITLAB_PROJECT_ID : option string;
  SYNC_DAYS_BACK : Z
}.

(** [str.isdigit] *)
Definition isdigit (s : string) : bool :=
  (truthy s && forallb is_digit (chars s))%bool.

(** [required_fields], each with [getattr(cls, field)]. *)
Definition required_fields (c : Credentials) : list (string * option string) :=
  [ ("TOGGL_API_TOKEN", TOGGL_API_TOKEN c);
    ("TOGGL_WORKSPACE_ID", TOGGL_WORKSPACE_ID c);
    ("GITLAB_TOKEN", GITLAB_TOKEN c);
    ("GITLAB_PROJECT_ID", GITLAB_PROJECT_ID c) ].

(** The loop over the required fields. *)
Fixpoint check_required (fields : list (string * option string))
         (missing_fields invalid_fields : list string)
  : list string * list string :=
  match fields with
  | [] => (missing_fields, invalid_fields)
  | (field, value) :: more =>
      match value with
      | Some v =>
          if negb (truthy v)
          then check_required more (missing_fields ++ [field]) invalid_fields
          else if (String.eqb field "GITLAB_PROJECT_ID" && negb (isdigit v))%bool
          then check_required more missing_fields
                              (invalid_fields ++ [field ++ " must be numeric"])
          else check_required more missing_fields invalid_fields
      | None => check_required more (missing_fields ++ [field]) invalid_fields
      end
  end.

(** The list [errors] of [validate]. *)
Definition validation_errors (c : Credentials) (cfg : Config) : list string :=
  let '(missing_fields, invalid_fields) := check_required (required_fields c) [] [] in
  let invalid_fields :=
    if SYNC_DAYS_BACK c <=? 0
    then (invalid_fields ++ ["SYNC_DAYS_BACK must be greater than 0"])%list
    else invalid_fields in
  let invalid_fields :=
    if MINIMUM_DURATION cfg <? 0
    then (invalid_fields ++ ["MINIMUM_DURATION must be >= 0"])%list
    else invalid_fields in
  let invalid_fields :=
    if negb (existsb (Z.eqb (ROUND_TIME_TO_MINUTES cfg)) [1; 5; 10; 15; 30])
    then (invalid_fields
          ++ ["ROUND_TIME_TO_MINUTES must be one of: 1, 5, 10, 15, 30"])%list
    else invalid_fields in
  List.app
    match missing_fields with
    | [] => []
    | _ => ["Missing required configuration: " ++ join ", " missing_fields]
    end
    invalid_fields.

(** [Config.validate]: [inr true] when it returns, [inl message] when it
    raises [ValueError(message)]. *)
Definition validate (c : Credentials) (cfg : Config) : string + bool :=
  match validation_errors c cfg with
  | [] => inr true
  | errors => inl (join (bytes [10]%nat) errors)
  end.

(** A required field is present. *)
Definition present (value : option string) : Prop :=
  exists v, value = Some v /\ v <> "".

End Validation.

Module TargetNotions.
Import Text Toggl GitLab Sync.

(** The issue a call is about. *)
Definition issue_number (c : Cmd) : option Z :=
  match c with
  | GetTimeTrackingEntries n => Some n
  | AddTimeSpent n _ _ _ => Some n
  | GetIssueTimeStats n => Some n
  | SetTimeEstimate n _ => Some n
  | AddNoteToIssue n _ => Some n
  | FindIssueByTicketId _ => None
  | CreateIssue _ _ _ _ _ _ => None
  end.

(** What a lookup or a creation returned: the number of the issue, or
    nothing; [None] for the other calls. *)
Definition resolved (ev : event) : option (option Z) :=
  match ev with
  | Ev c r =>
      match c return resp c -> option (option Z) with
      | FindIssueByTicketId _ => fun r => Some (option_map iid r)
      | CreateIssue _ _ _ _ _ _ => fun r => Some (option_map iid r)
      | _ => fun _ => None
      end r
  end.

(** Every call of [t] about an issue is about the issue the latest
    lookup or creation before it returned, [current] being what the
    latest one before [t] returned. *)
Fixpoint on_target (current : option Z) (t : list event) : bool :=
  match t with
  | [] => true
  | ev :: more =>
      match resolved ev with
      | Some found => on_target found more
      | None =>
          match issue_number (called ev), current with
          | Some n, Some m => (n =? m) && on_target current more
          | Some _, None => false
          | None, _ => on_target current more
          end
      end
  end.

(** [t] is on target whatever was resolved before it. *)
Definition self_targeted (t : list event) : Prop :=
  forall current, on_target current t = true.

End TargetNotions.

(* ================================================================= *)
(** ** toggl_client.py: the analysis printed before the sync *)

Module Analysis.
Import Text Toggl Sync.

(** The value of [projects[proj_id]]. *)
Record ProjectTotals : Type := mkProjectTotals {
  count : Z;
  project_duration : Z
}.

(** Equality of the keys of [projects]: a project number, or [None]. *)
Definition project_eqb (a b : option Z) : bool :=
  match a, b with
  | Some x, Some y => x =? y
  | None, None => true
  | _, _ => false
  end.

(** One turn of the loop over the entries: the key is created with zero
    totals at its first occurrence, then count and duration are added;
    the dictionary keeps the keys in that order. *)
Fixpoint count_project (proj_id : option Z) (d : Z)
         (projects : list (option Z * ProjectTotals))
  : list (option Z * ProjectTotals) :=
  match projects with
  | [] => [(proj_id, mkProjectTotals (0 + 1) (0 + d))]
  | (k, totals) :: more =>
      if project_eqb k proj_id
      then (k, mkProjectTotals (count totals + 1) (project_duration totals + d)) :: more
      else (k, totals) :: count_project proj_id d more
  end.

(** The dictionary [get_detailed_stats] returns, without
    ['average_duration'], a float. *)
Record DetailedStats : Type := mkDetailedStats {
  total_entries : Z;
  total_duration : Z;
  total_original_duration : Z;
  time_saved_by_rounding : Z;
  billable_time : Z;
  non_billable_time : Z;
  entries_with_tickets : Z;
  entries_without_tickets : Z;
  projects : list (option Z * ProjectTotals)
}.

(** [get_detailed_stats]; [None] is the empty dictionary. *)
Definition get_detailed_stats (entries : list Entry) : option DetailedStats :=
  match entries with
  | [] => None
  | _ =>
      let total_duration := sum_durations entries in
      let total_original :=
        fold_left (fun acc e => acc + original_duration e) entries 0 in
      let billable_time := sum_durations (filter billable entries) in
      let projects :=
        fold_left (fun projects e => count_project (project_id e) (duration e) projects)
                  entries [] in
      let with_tickets :=
        len (filter (fun e => truthy_opt (Toggl.ticket_id e)) entries) in
      let without_tickets := len entries - with_tickets in
      Some (mkDetailedStats (len entries) total_duration total_original
              (total_original - total_duration)
              billable_time (total_duration - billable_time)
              with_tickets without_tickets projects)
  end.

(** The counts, and the durations, of a project table added up. *)
Definition counted (projects : list (option Z * ProjectTotals)) : Z :=
  fold_right (fun p n => count (snd p) + n) 0 projects.

Definition timed (projects : list (option Z * ProjectTotals)) : Z :=
  fold_right (fun p n => project_duration (snd p) + n) 0 projects.

End Analysis.

(* ================================================================= *)
(** * Properties *)

Unset Implicit Arguments.

(** ** Programs and their runs *)

Module ProgFacts.
Import GitLab.

Lemma Runs_bind : forall (A B : Type) (p : Prog A) (f : A -> Prog B) t1 a t2 b,
    Runs p t1 a -> Runs (f a) t2 b -> Runs (bind p f) (t1 ++ t2) b.
Proof.
  induction p as [x | c k IH]; simpl; intros f t1 a t2 b H1 H2.
  - destruct H1 as [-> ->]. exact H2.
  - destruct H1 as (r & t' & -> & H1).
    exists r, (t' ++ t2)%list. split; [reflexivity | eauto].
Qed.

Lemma Runs_bind_inv : forall (A B : Type) (p : Prog A) (f : A -> Prog B) t b,
    Runs (bind p f) t b ->
    exists t1 a t2, Runs p t1 a /\ Runs (f a) t2 b /\ t = (t1 ++ t2)%list.
Proof.
  induction p as [x | c k IH]; simpl; intros f t b H.
  - exists [], x, t. auto.
  - destruct H as (r & t' & -> & H).
    destruct (IH r f t' b H) as (t1 & a & t2 & H1 & H2 & ->).
    exists (Ev c r :: t1), a, t2. split; [|split]; auto.
    exists r, t1. auto.
Qed.

(** A run of a collaborator is a run. *)
Lemma exec_Runs : forall (A : Type) (h : Collaborator) (p : Prog A) w,
    Runs p (snd (exec h p w)) (fst (fst (exec h p w))).
Proof.
  induction p as [x | c k IH]; simpl; intros w.
  - auto.
  - destruct (answer h c w) as [r w1] eqn:E.
    specialize (IH r w1).
    destruct (exec h (k r) w1) as [[a w2] t]. simpl in *.
    exists r, t. auto.
Qed.

Lemma Calls_bind : forall (A B : Type) ok (p : Prog A) (f : A -> Prog B),
    Calls ok p -> (forall a, Calls ok (f a)) -> Calls ok (bind p f).
Proof.
  induction p as [x | c k IH]; simpl; intros f Hp Hf.
  - apply Hf.
  - destruct Hp as [Hc Hk]. split; auto.
Qed.

Lemma Calls_Runs : forall (A : Type) ok (p : Prog A) t a,
    Calls ok p -> Runs p t a -> Forall (fun ev => ok (called ev) = true) t.
Proof.
  induction p as [x | c k IH]; simpl; intros t a Hp Hr.
  - destruct Hr as [-> _]. constructor.
  - destruct Hp as [Hc Hk]. destruct Hr as (r & t' & -> & Hr).
    constructor; eauto.
Qed.

End ProgFacts.

(** ** Rounding *)

Module Rounding.
Import Toggl Scenario GitLab Sync.

Lemma round_div_cases : forall a b, 0 < b ->
    let q := a / b in let r := a mod b in
    a = b * q + r /\ 0 <= r < b /\
    ((2 * r < b /\ round_div a b = q)
     \/ (b < 2 * r /\ round_div a b = q + 1)
     \/ (2 * r = b /\ Z.even (round_div a b) = true
         /\ (round_div a b = q \/ round_div a b = q + 1))).
Proof.
  intros a b Hb q r.
  pose proof (Z.div_mod a b ltac:(lia)) as Hdm.
  pose proof (Z.mod_pos_bound a b Hb) as Hr.
  fold q r in Hdm, Hr.
  split; [exact Hdm | split; [exact Hr|]].
  unfold round_div. fold q r.
  destruct (2 * r <? b) eqn:E1; [left; split; [lia | reflexivity]|].
  destruct (b <? 2 * r) eqn:E2; [right; left; split; [lia | reflexivity]|].
  right; right. split; [lia|].
  destruct (Z.even q) eqn:E3.
  - auto.
  - split; [|auto]. rewrite Z.even_add, E3. reflexivity.
Qed.

Lemma round_div_nearest : forall a b m, 0 < b ->
    Z.abs (round_div a b * b - a) <= Z.abs (m * b - a).
Proof.
  intros a b m Hb.
  destruct (@round_div_cases a b Hb) as (Ha & Hr & Hc).
  set (q := a / b) in *. set (r := a mod b) in *.
  assert (Hm : m <= q \/ q + 1 <= m) by lia.
  destruct Hc as [[H1 ->] | [[H1 ->] | (H1 & _ & [-> | ->])]];
    destruct Hm as [Hm | Hm]; nia.
Qed.

Lemma round_div_tie_even : forall a b m, 0 < b ->
    m <> round_div a b ->
    Z.abs (m * b - a) = Z.abs (round_div a b * b - a) ->
    Z.even (round_div a b) = true.
Proof.
  intros a b m Hb Hne Heq.
  destruct (@round_div_cases a b Hb) as (Ha & Hr & Hc).
  set (q := a / b) in *. set (r := a mod b) in *.
  assert (Hm : m <= q - 1 \/ m = q \/ m = q + 1 \/ q + 2 <= m) by lia.
  destruct Hc as [[H1 E] | [[H1 E] | (H1 & Hev & _)]]; [| |exact Hev];
    rewrite E in *; exfalso;
    destruct Hm as [Hm | [Hm | [Hm | Hm]]]; nia.
Qed.

Lemma round_div_zero : forall a b, 0 < a -> 0 < b ->
    (round_div a b = 0 <-> 2 * a <= b).
Proof.
  intros a b Ha Hb.
  destruct (@round_div_cases a b Hb) as (Hd & Hr & Hc).
  set (q := a / b) in *. set (r := a mod b) in *.
  assert (0 <= q) by (apply Z.div_pos; lia).
  destruct Hc as [[H1 E] | [[H1 E] | (H1 & Hev & [E | E])]]; rewrite E in *.
  - split; intro; nia.
  - split; intro; nia.
  - split; intro; nia.
  - split; intro; [nia|].
    assert (Hq : q = 0) by nia. rewrite Hq in Hev. discriminate.
Qed.

Lemma round_time_unit : forall d g, 0 < d -> 0 < g ->
    round_time d g =
    if round_div d (g * 60) =? 0 then g * 60 else round_div d (g * 60) * (g * 60).
Proof.
  intros d g Hd Hg. unfold round_time.
  destruct (g <=? 0) eqn:E; [lia|].
  replace (0 <? d) with true by (symmetry; apply Z.ltb_lt; exact Hd).
  rewrite andb_true_r.
  destruct (round_div d (g * 60) =? 0) eqn:E0.
  - apply Z.eqb_eq in E0. rewrite E0. reflexivity.
  - apply Z.eqb_neq in E0.
    destruct (round_div d (g * 60) * (g * 60) =? 0) eqn:E1; [|reflexivity].
    apply Z.eqb_eq in E1. nia.
Qed.

Lemma round_div_nonneg : forall a b, 0 < a -> 0 < b -> 0 <= round_div a b.
Proof.
  intros a b Ha Hb.
  destruct (@round_div_cases a b Hb) as (_ & _ & Hc).
  assert (0 <= a / b) by (apply Z.div_pos; lia).
  destruct Hc as [[_ E] | [[_ E] | (_ & _ & [E | E])]]; lia.
Qed.

(** C5: for a positive duration and a granularity of 1, 5, 10, 15 or 30
    minutes, [round_time] returns a positive multiple of the unit
    [g * 60].  When the duration is at most half a unit, zero is a
    multiple nearest to it (the even one on the tie at half a unit) and
    the result is one unit; otherwise the result is a multiple nearest to the duration,
    the even one on a tie.  The result is never zero, and
    [round_time 1 15 = 900]. *)
Theorem C5_round_time_nearest_multiple : forall d g,
    0 < d -> In g [1; 5; 10; 15; 30] ->
    let u := g * 60 in
    let r := round_time d g in
    (exists k, 0 < k /\ r = k * u)
    /\ r <> 0
    /\ (2 * d <= u ->
        (forall m, Z.abs (0 * u - d) <= Z.abs (m * u - d)) /\ r = u)
    /\ (u < 2 * d ->
        (forall m, Z.abs (r - d) <= Z.abs (m * u - d))
        /\ (forall m, m * u <> r -> Z.abs (m * u - d) = Z.abs (r - d) ->
                      Z.even (r / u) = true))
    /\ round_time 1 15 = 900.
Proof.
  intros d g Hd Hg u r.
  assert (Hg0 : 0 < g) by (simpl in Hg; lia).
  assert (Hu : 0 < u) by (unfold u; lia).
  pose proof (round_time_unit d g Hd Hg0) as Hr. fold u r in Hr.
  pose proof (round_div_zero d u Hd Hu) as Hz.
  pose proof (round_div_nonneg d u Hd Hu) as Hn.
  destruct (round_div d u =? 0) eqn:E0.
  - apply Z.eqb_eq in E0.
    assert (Hhalf : 2 * d <= u) by (apply Hz; exact E0).
    split; [exists 1; lia|]. split; [lia|].
    split; [|split; [lia | reflexivity]].
    intros _. split; [|exact Hr].
    intros m. pose proof (round_div_nearest d u m Hu) as Hnear.
    rewrite E0 in Hnear. exact Hnear.
  - apply Z.eqb_neq in E0.
    assert (Hhalf : u < 2 * d) by (destruct (Z.le_gt_cases (2 * d) u); [tauto | lia]).
    split; [exists (round_div d u); lia|]. split; [nia|].
    split; [lia|]. split; [|reflexivity].
    intros _. rewrite Hr. split.
    + intros m. apply round_div_nearest. exact Hu.
    + intros m Hne Heq. rewrite Z.div_mul by lia.
      apply (@round_div_tie_even d u m Hu); [|exact Heq].
      intro Hm. apply Hne. rewrite Hm. reflexivity.
Qed.

Lemma C5_witness :
  let r := round_time 1 15 in
  (exists k, 0 < k /\ r = k * (15 * 60)) /\ r <> 0.
Proof.
  destruct (@C5_round_time_nearest_multiple 1 15) as (H1 & H2 & _).
  - lia.
  - simpl. tauto.
  - split; [exact H1 | exact H2].
Defined.

(** C6, refuted as stated: at a granularity of 15 minutes neither is 310
    seconds rounded to 300 nor 650 seconds to 600. *)
Lemma C6_counterexample :
  round_time 310 15 <> 300 /\ round_time 650 15 <> 600.
Proof. split; vm_compute; discriminate. Qed.

(** C6, amended: at a granularity of 15 minutes 310 seconds and 650
    seconds are both rounded to 900 seconds, the one multiple of 900
    that is nearest and not zero; in the end-to-end scenario the time
    logged to issue 42 is 900 seconds; 300 and 600 seconds are what a
    granularity of 5 minutes gives. *)
Theorem C6_rounding_at_15_minutes :
  round_time 310 15 = 900
  /\ round_time 650 15 = 900
  /\ map called (calls (replay live [fix_42; meeting] tracker_42))
     = [ FindIssueByTicketId "42";
         GetTimeTrackingEntries 42;
         AddTimeSpent 42 900 (Calendar.mkDatetime 2024 1 15 9 0 0)
                      (log_description live
                         (Toggl.mkEntry (IntId 1) "#42: fix" monday None 900 650
                                        None None true (Some "42") (Some "fix") [])) ]
  /\ round_time 310 5 = 300
  /\ round_time 650 5 = 600.
Proof. repeat split; vm_compute; reflexivity. Qed.

End Rounding.

(** ** The ticket parser *)

Module ParserFacts.
Import Text Re Parser.

Lemma truthy_true : forall s, truthy s = true <-> s <> "".
Proof.
  destruct s; simpl; split; intro H; congruence.
Qed.

Lemma str_or_nonempty : forall x y, y <> "" -> str_or x y <> "".
Proof.
  intros x y Hy. unfold str_or. destruct (truthy x) eqn:E; [|exact Hy].
  apply truthy_true. exact E.
Qed.

(** The loop returns at the first pattern that matches. *)
Lemma try_patterns_first : forall ps d i r cp,
    nth_error ps i = Some r ->
    re_match r (strip d) = Some cp ->
    (forall j r', (j < i)%nat -> nth_error ps j = Some r' ->
                  re_match r' (strip d) = None) ->
    try_patterns ps d = Some (matched d cp).
Proof.
  induction ps as [|p ps IH]; intros d i r cp Hi Hm Hbefore.
  - destruct i; discriminate.
  - destruct i as [|i]; simpl in *.
    + injection Hi as ->. rewrite Hm. reflexivity.
    + rewrite (Hbefore 0%nat p) by (simpl; auto; lia).
      apply (IH d i r cp Hi Hm).
      intros j r' Hj Hn. apply (Hbefore (S j) r'); [lia | exact Hn].
Qed.

Lemma try_patterns_none : forall ps d,
    (forall r, In r ps -> re_match r (strip d) = None) ->
    try_patterns ps d = None.
Proof.
  induction ps as [|p ps IH]; intros d H; simpl; [reflexivity|].
  rewrite (H p) by (left; reflexivity).
  apply IH. intros r Hr. apply H. right. exact Hr.
Qed.

Lemma try_patterns_matched : forall ps d info,
    try_patterns ps d = Some info -> exists cp, info = matched d cp.
Proof.
  induction ps as [|p ps IH]; intros d info H; simpl in H; [discriminate|].
  destruct (re_match p (strip d)) as [cp|].
  - injection H as <-. exists cp. reflexivity.
  - apply (IH d info H).
Qed.

Lemma extract_first : forall d i r cp,
    d <> "" ->
    nth_error patterns i = Some r ->
    re_match r (strip d) = Some cp ->
    (forall j r', (j < i)%nat -> nth_error patterns j = Some r' ->
                  re_match r' (strip d) = None) ->
    extract_ticket_info d = matched d cp.
Proof.
  intros d i r cp Hd Hi Hm Hb. unfold extract_ticket_info.
  apply truthy_true in Hd. rewrite Hd. cbn [negb].
  rewrite (try_patterns_first patterns d i r cp Hi Hm Hb). reflexivity.
Qed.

(** C4: the parser tries its rules in order on the trimmed description,
    without regard to case, and returns what the first matching rule
    gives: the five fixed inputs parse to the fixed pairs, a rule that
    matches while no earlier rule does decides the result, and rule 1
    decides it whenever it matches, whatever the later rules do. *)
Theorem C4_first_matching_rule_wins :
  extract_ticket_info "#123: fix bug" = mkTicketInfo (Some "123") (Some "fix bug")
  /\ extract_ticket_info "PROJ-456 dashboard"
     = mkTicketInfo (Some "PROJ-456") (Some "dashboard")
  /\ extract_ticket_info "Issue #789: docs" = mkTicketInfo (Some "789") (Some "docs")
  /\ extract_ticket_info "[TICKET-321] review"
     = mkTicketInfo (Some "TICKET-321") (Some "review")
  /\ extract_ticket_info "meeting" = mkTicketInfo None (Some "meeting")
  /\ extract_ticket_info "  issue #789:  docs "
     = mkTicketInfo (Some "789") (Some "docs")
  /\ extract_ticket_info "KAZOO#7 proj-1: x" = mkTicketInfo (Some "7") (Some "proj-1: x")
  /\ (forall d i r cp,
        d <> "" ->
        nth_error patterns i = Some r ->
        re_match r (strip d) = Some cp ->
        (forall j r', (j < i)%nat -> nth_error patterns j = Some r' ->
                      re_match r' (strip d) = None) ->
        extract_ticket_info d = matched d cp)
  /\ (forall d r1 cp,
        d <> "" ->
        nth_error patterns 0 = Some r1 ->
        re_match r1 (strip d) = Some cp ->
        extract_ticket_info d = matched d cp).
Proof.
  repeat split; try (vm_compute; reflexivity).
  - intros d i r cp Hd Hi Hm Hb. apply (extract_first d i r cp Hd Hi Hm Hb).
  - intros d r1 cp Hd Hi Hm. apply (extract_first d 0%nat r1 cp Hd Hi Hm).
    intros j r' Hj. lia.
Qed.

(** An input that rules 3, 7 and 8 all match is decided by rule 3. *)
Lemma C4_witness :
  extract_ticket_info "ABC-12: x" = mkTicketInfo (Some "ABC-12") (Some "x")
  /\ (exists cp, re_match (nth 6 patterns Eps) "ABC-12: x" = Some cp)
  /\ (exists cp, re_match (nth 7 patterns Eps) "ABC-12: x" = Some cp).
Proof.
  destruct C4_first_matching_rule_wins as (_ & _ & _ & _ & _ & _ & _ & H & _).
  split; [|split; vm_compute; eexists; reflexivity].
  assert (Hm : exists cp, re_match (nth 2 patterns Eps) (strip "ABC-12: x") = Some cp
                          /\ matched "ABC-12: x" cp
                             = mkTicketInfo (Some "ABC-12") (Some "x")).
  { vm_compute. eexists. split; reflexivity. }
  destruct Hm as (cp & Hm & Hres).
  rewrite (H "ABC-12: x" 2%nat (nth 2 patterns Eps) cp).
  - exact Hres.
  - discriminate.
  - reflexivity.
  - exact Hm.
  - intros j r' Hj Hn.
    destruct j as [|[|j]]; [| |lia]; simpl in Hn; injection Hn as <-;
      vm_compute; reflexivity.
Defined.

(** C7, refuted as stated: for the empty description the parser returns
    no ticket name at all. *)
Lemma C7_counterexample :
  ticket_name (extract_ticket_info "") = None
  /\ ~ (forall d, exists s,
           ticket_name (extract_ticket_info d) = Some s /\ s <> "").
Proof.
  split; [reflexivity|].
  intros H. destruct (H "") as (s & Hs & _). discriminate.
Qed.

(** C7, amended: for every description that is not empty the ticket name
    is a string that is not empty; it is the original description when
    no rule matches, and when the rule that matches captured an empty
    trailing text.  For the empty description the parser returns
    neither a ticket id nor a ticket name. *)
Theorem C7_ticket_name_of_nonempty_description : forall d,
    (d = "" -> extract_ticket_info d = mkTicketInfo None None)
    /\ (d <> "" ->
        (exists s, ticket_name (extract_ticket_info d) = Some s /\ s <> "")
        /\ ((forall r, In r patterns -> re_match r (strip d) = None) ->
            extract_ticket_info d = mkTicketInfo None (Some d))
        /\ (forall i r cp,
              nth_error patterns i = Some r ->
              re_match r (strip d) = Some cp ->
              (forall j r', (j < i)%nat -> nth_error patterns j = Some r' ->
                            re_match r' (strip d) = None) ->
              group 2 cp = Some "" ->
              ticket_name (extract_ticket_info d) = Some d)).
Proof.
  intros d. split.
  - intros ->. reflexivity.
  - intros Hd. split; [|split].
    + unfold extract_ticket_info.
      pose proof Hd as Ht. apply truthy_true in Ht. rewrite Ht. cbn [negb].
      destruct (try_patterns patterns d) as [info|] eqn:E.
      * destruct (try_patterns_matched _ _ _ E) as (cp & ->).
        simpl. eexists. split; [reflexivity|].
        apply str_or_nonempty. exact Hd.
      * simpl. exists d. auto.
    + intros Hnone. unfold extract_ticket_info.
      apply truthy_true in Hd. rewrite Hd. cbn [negb].
      rewrite (try_patterns_none patterns d Hnone). reflexivity.
    + intros i r cp Hi Hm Hb Hg.
      rewrite (extract_first d i r cp Hd Hi Hm Hb).
      unfold matched. rewrite Hg. simpl.
      unfold str_or. apply truthy_true in Hd. rewrite Hd. reflexivity.
Qed.

Lemma C7_witness :
  (exists s, ticket_name (extract_ticket_info "#123") = Some s /\ s <> "")
  /\ ticket_name (extract_ticket_info "#123") = Some "#123"
  /\ extract_ticket_info "lunch" = mkTicketInfo None (Some "lunch").
Proof.
  destruct (C7_ticket_name_of_nonempty_description "#123") as [_ H].
  destruct H as (H1 & _ & H3); [discriminate|].
  destruct (C7_ticket_name_of_nonempty_description "lunch") as [_ H'].
  destruct H' as (_ & H2 & _); [discriminate|].
  split; [exact H1 | split].
  - assert (Hm : exists cp, re_match (nth 1 patterns Eps) (strip "#123") = Some cp
                            /\ group 2 cp = Some "").
    { vm_compute. eexists. split; reflexivity. }
    destruct Hm as (cp & Hm & Hg).
    apply (H3 1%nat (nth 1 patterns Eps) cp); [reflexivity | exact Hm | | exact Hg].
    intros j r' Hj Hn.
    destruct j as [|j]; [|lia]. simpl in Hn. injection Hn as <-.
    vm_compute. reflexivity.
  - apply H2. intros r Hr.
    simpl in Hr.
    repeat (destruct Hr as [<- | Hr]; [vm_compute; reflexivity|]).
    destruct Hr.
Defined.

End ParserFacts.

(** ** The weekend filter *)

Module WeekendFacts.
Import Text Calendar Toggl Replay Scenario.

Lemma filter_loop_filter : forall f entries filtered,
    filter_loop f entries filtered = (filtered ++ filter (keeps f) entries)%list.
Proof.
  induction entries as [|e rest IH]; intros filtered; simpl.
  - rewrite app_nil_r. reflexivity.
  - destruct (keeps f e).
    + rewrite IH, <- app_assoc. reflexivity.
    + apply IH.
Qed.

Lemma filter_by_weekdays_filter : forall f entries,
    filter_by_weekdays f entries true = filter (keeps f) entries.
Proof.
  intros f entries. unfold filter_by_weekdays. simpl.
  apply filter_loop_filter.
Qed.

(** What the filter does with one entry, case by case. *)
Lemma keeps_cases : forall f e,
    (parse_start f (raw_start e) = None -> keeps f e = true)
    /\ (forall dt, parse_start f (raw_start e) = Some dt -> weekday dt < 5 ->
                   keeps f e = true)
    /\ (forall dt, parse_start f (raw_start e) = Some dt -> 5 <= weekday dt ->
                   keeps f e = match raw_description_key e with
                               | Some _ => false
                               | None => true
                               end).
Proof.
  intros f e. unfold keeps. repeat split.
  - intros ->. reflexivity.
  - intros dt -> Hw. apply Z.ltb_lt in Hw. rewrite Hw. reflexivity.
  - intros dt -> Hw. apply Z.ltb_ge in Hw. rewrite Hw. reflexivity.
Qed.

(** C9, where the code departs from it.  With [exclude_weekends] set, an
    entry of a Saturday that has no ['description'] key is kept by the
    filter and normalised, while the entry of the same Saturday that has
    a description is dropped: the message written for a dropped entry
    reads [entry['description']] inside the [try], the lookup raises,
    and the handler written for a start that does not parse appends the
    entry.  This holds for every such entry and every parser.  The rest
    is as the claim has it: a weekend entry that has a description is
    dropped, an entry whose start does not parse and an entry of a
    working day are kept, in the order of the input, and the normaliser
    works on what the filter kept; with [exclude_weekends] unset nothing
    is dropped. *)
Theorem C9_weekend_entry_without_description_is_kept :
  (parse_start iso_basic (raw_start weekend_untitled) = Some (mkDatetime 2024 1 20 9 0 0)
   /\ weekday (mkDatetime 2024 1 20 9 0 0) = 5
   /\ filter_by_weekdays iso_basic [fix_42; weekend_work; weekend_untitled; undated] true
      = [fix_42; weekend_untitled; undated]
   /\ map id (process_time_entries iso_basic
                [fix_42; weekend_work; weekend_untitled; undated] 300 15 true)
      = [IntId 1; IntId 8; IntId 5])
  /\ (forall f entries e dt,
         In e entries ->
         parse_start f (raw_start e) = Some dt ->
         weekday dt = 5 \/ weekday dt = 6 ->
         raw_description_key e = None ->
         In e (filter_by_weekdays f entries true))
  /\ (forall f entries e dt d,
         parse_start f (raw_start e) = Some dt ->
         weekday dt = 5 \/ weekday dt = 6 ->
         raw_description_key e = Some d ->
         ~ In e (filter_by_weekdays f entries true))
  /\ (forall f entries e,
         In e entries ->
         parse_start f (raw_start e) = None ->
         In e (filter_by_weekdays f entries true))
  /\ (forall f entries e dt,
         In e entries ->
         parse_start f (raw_start e) = Some dt ->
         weekday dt < 5 ->
         In e (filter_by_weekdays f entries true))
  /\ (forall f entries minimum_duration round_to,
         filter_by_weekdays f entries true = filter (keeps f) entries
         /\ process_time_entries f entries minimum_duration round_to true
            = process_loop minimum_duration round_to
                           (filter_by_weekdays f entries true) []
         /\ filter_by_weekdays f entries false = entries
         /\ process_time_entries f entries minimum_duration round_to false
            = process_loop minimum_duration round_to entries []).
Proof.
  split; [vm_compute; repeat split; reflexivity|].
  split; [|split; [|split; [|split]]].
  - intros f entries e dt Hin Hp Hw Hd. rewrite filter_by_weekdays_filter.
    apply filter_In. split; [exact Hin|].
    destruct (keeps_cases f e) as (_ & _ & Hk).
    rewrite (Hk dt Hp), Hd; [reflexivity | lia].
  - intros f entries e dt d Hp Hw Hd Hin. rewrite filter_by_weekdays_filter in Hin.
    apply filter_In in Hin. destruct Hin as [_ Hin].
    destruct (keeps_cases f e) as (_ & _ & Hk).
    rewrite (Hk dt Hp), Hd in Hin; [discriminate | lia].
  - intros f entries e Hin Hp. rewrite filter_by_weekdays_filter.
    apply filter_In. split; [exact Hin|].
    destruct (keeps_cases f e) as (Hk & _). exact (Hk Hp).
  - intros f entries e dt Hin Hp Hw. rewrite filter_by_weekdays_filter.
    apply filter_In. split; [exact Hin|].
    destruct (keeps_cases f e) as (_ & Hk & _). exact (Hk dt Hp Hw).
  - intros f entries minimum_duration round_to.
    split; [apply filter_by_weekdays_filter|].
    split; [|split]; reflexivity.
Qed.

End WeekendFacts.

(** ** Dry runs *)

Module DryRunFacts.
Import Text Calendar Toggl GitLab Sync Replay Scenario ProgFacts.
Import Notions.

Section DryRun.
Variable cfg : Config.
Variable f : string -> option datetime.
Hypothesis dry_run : DRY_RUN cfg = true.

Lemma sync_entry_reads : forall issue ids e a,
    Calls reads (sync_entry cfg f issue ids e a).
Proof.
  intros issue ids e [st total]. unfold sync_entry.
  rewrite dry_run. simpl.
  destruct (PREVENT_DUPLICATES cfg && mem (str_of_id (id e)) ids)%bool;
    [exact I|].
  destruct (f (replace_Z (start e))); exact I.
Qed.

Lemma sync_loop_reads : forall issue ids entries a,
    Calls reads (sync_loop cfg f issue ids entries a).
Proof.
  induction entries as [|e more IH]; intros a; simpl; [exact I|].
  apply Calls_bind; [apply sync_entry_reads | intros a'; apply IH].
Qed.

Lemma fetch_existing_reads : forall issue,
    Calls reads (fetch_existing cfg issue).
Proof.
  intros issue. unfold fetch_existing.
  destruct (PREVENT_DUPLICATES cfg); simpl; [|exact I].
  split; [reflexivity|]. intros [l|]; exact I.
Qed.

Lemma add_estimate_reads : forall issue total st,
    Calls reads (add_estimate cfg issue total st).
Proof.
  intros issue total st. unfold add_estimate. rewrite dry_run.
  rewrite andb_false_r. exact I.
Qed.

Lemma add_summary_reads : forall issue entries total st,
    Calls reads (add_summary cfg issue entries total st).
Proof.
  intros issue entries total st. unfold add_summary. rewrite dry_run.
  rewrite andb_false_r. exact I.
Qed.

Lemma sync_entries_to_issue_reads : forall issue entries st,
    Calls reads (sync_entries_to_issue cfg f issue entries st).
Proof.
  intros issue entries st. unfold sync_entries_to_issue.
  apply Calls_bind; [apply fetch_existing_reads | intros ids].
  apply Calls_bind; [apply sync_loop_reads | intros a].
  apply Calls_bind; [apply add_estimate_reads | intros st1].
  apply add_summary_reads.
Qed.

Lemma sync_or_skip_reads : forall issue entries st,
    Calls reads (sync_or_skip cfg f issue entries st).
Proof.
  intros [issue|] entries st; simpl;
    [apply sync_entries_to_issue_reads | exact I].
Qed.

Lemma create_or_skip_reads : forall tid name entries total st,
    Calls reads (create_or_skip cfg f tid name entries total st).
Proof.
  intros tid name entries total st. unfold create_or_skip.
  rewrite dry_run. simpl.
  destruct (should_create_issue cfg name); [|exact I].
  destruct (AUTO_CREATE_ISSUES cfg); exact I.
Qed.

Lemma sync_ticket_entries_reads : forall k entries st,
    Calls reads (sync_ticket_entries cfg f k entries st).
Proof.
  intros [tid name] entries st. unfold sync_ticket_entries.
  apply Calls_bind.
  - destruct (truthy_opt tid); simpl; [|exact I].
    split; [reflexivity | intros r; exact I].
  - intros [issue|].
    + apply sync_or_skip_reads.
    + destruct name as [name|]; [|apply sync_or_skip_reads].
      destruct (truthy name && truthy (strip name))%bool;
        [apply create_or_skip_reads | apply sync_or_skip_reads].
Qed.

Lemma sync_groups_reads : forall groups st,
    Calls reads (sync_groups cfg f groups st).
Proof.
  induction groups as [|[k entries] more IH]; intros st; simpl; [exact I|].
  apply Calls_bind; [apply sync_ticket_entries_reads | intros st'; apply IH].
Qed.

Lemma sync_time_entries_reads : forall time_entries st,
    Calls reads (sync_time_entries cfg f time_entries st).
Proof.
  intros time_entries st. unfold sync_time_entries.
  destruct time_entries as [|e more]; [exact I|].
  apply Calls_bind; [apply sync_groups_reads | intros st'; exact I].
Qed.

End DryRun.

(** C2: in a dry run, whatever the entries and whatever the collaborator
    answers, no call of the run is one of [CreateIssue], [AddTimeSpent],
    [SetTimeEstimate] and [AddNoteToIssue]. *)
Theorem C2_dry_run_makes_no_mutating_call : forall cfg f time_entries st t st',
    DRY_RUN cfg = true ->
    Runs (sync_time_entries cfg f time_entries st) t st' ->
    Forall (fun ev => mutating (called ev) = false) t.
Proof.
  intros cfg f time_entries st t st' Hdry Hrun.
  pose proof (Calls_Runs _ reads _ t st'
                (sync_time_entries_reads cfg f Hdry time_entries st) Hrun) as H.
  apply (Forall_impl _ (P := fun ev => reads (called ev) = true)); [|exact H].
  intros ev Hev. unfold reads in Hev. apply negb_true_iff. exact Hev.
Qed.

Lemma C2_witness :
  Forall (fun ev => mutating (called ev) = false)
         (calls (replay dry [fix_42; meeting; dashboard] tracker_42)).
Proof.
  apply (C2_dry_run_makes_no_mutating_call dry iso_basic
           [fix_42; meeting; dashboard] stats0 _
           (counters (replay dry [fix_42; meeting; dashboard] tracker_42))).
  - reflexivity.
  - exact (exec_Runs Stats gitlab
             (sync_time_entries dry iso_basic [fix_42; meeting; dashboard] stats0)
             tracker_42).
Defined.

(** In a dry run a group whose issue would be created is counted as
    created and its entries as skipped. *)
Lemma dry_run_skips_created_group : forall cfg f tid name entries total st,
    DRY_RUN cfg = true ->
    AUTO_CREATE_ISSUES cfg = true ->
    should_create_issue cfg name = true ->
    create_or_skip cfg f tid name entries total st
    = Ret (add_skipped (len entries) (add_created 1 st)).
Proof.
  intros cfg f tid name entries total st Hdry Hauto Hcreate.
  unfold create_or_skip. rewrite Hcreate, Hauto, Hdry. reflexivity.
Qed.

(** C3, at the failing input: one entry without a ticket id whose
    description qualifies for a new issue.  The live run, in which every
    call succeeds, creates the issue and logs the entry; the dry run
    counts the issue as created and the entry as skipped, not as
    synced. *)
Theorem C3_dry_run_counts_differ_on_created_issue :
  let live_run := replay live [dashboard] [] in
  let dry_run := replay dry [dashboard] [] in
  Forall (fun ev => match ev with
                    | Ev (CreateIssue _ _ _ _ _ _) r => r <> None
                    | Ev (AddTimeSpent _ _ _ _) r => r = Ok true
                    | _ => True
                    end) (calls live_run)
  /\ created_issues (counters live_run) = 1
  /\ synced_entries (counters live_run) = 1
  /\ skipped_entries (counters live_run) = 0
  /\ created_issues (counters dry_run) = 1
  /\ synced_entries (counters dry_run) = 0
  /\ skipped_entries (counters dry_run) = 1.
Proof.
  split.
  - vm_compute. repeat constructor. discriminate.
  - vm_compute. repeat split; reflexivity.
Qed.

End DryRunFacts.


(** ** The marker scan *)

Module MarkerFacts.
Import Text Re Calendar Toggl GitLab Sync Client Replay Scenario ProgFacts.
Import Notions.

(** Where a greedy repetition hands over to its continuation: after a
    prefix of characters that pass the test. *)
Lemma rep_some : forall (R : Type) p least rs count sn cp
                        (k : mstate -> option R) r,
    rep p least count sn rs cp k = Some r ->
    exists pre post,
      rs = (pre ++ post)%list
      /\ forallb p pre = true
      /\ (least <= count + List.length pre)%nat
      /\ k (MState (rev pre ++ sn) post cp) = Some r.
Proof.
  induction rs as [|c rs IH]; intros count sn cp k r H; simpl in H.
  - destruct (Nat.leb least count) eqn:E; [|discriminate].
    exists [], []. apply Nat.leb_le in E. simpl. repeat split; auto; lia.
  - assert (Hstop : (if Nat.leb least count then k (MState sn (c :: rs) cp) else None)
                    = Some r ->
                    exists pre post,
                      c :: rs = (pre ++ post)%list
                      /\ forallb p pre = true
                      /\ (least <= count + List.length pre)%nat
                      /\ k (MState (rev pre ++ sn) post cp) = Some r).
    { intros Hs. destruct (Nat.leb least count) eqn:E; [|discriminate].
      exists [], (c :: rs). apply Nat.leb_le in E. simpl. repeat split; auto; lia. }
    destruct (p c) eqn:Ec; [|apply Hstop; exact H].
    destruct (rep p least (S count) (c :: sn) rs cp k) as [r'|] eqn:Er;
      [|apply Hstop; exact H].
    injection H as <-.
    destruct (IH _ _ _ _ _ Er) as (pre & post & -> & Hp & Hl & Hk).
    exists (c :: pre), post. simpl. rewrite Ec, Hp.
    repeat split; auto; [lia|].
    rewrite <- app_assoc. simpl. exact Hk.
Qed.

(** A literal part leaves the groups as they are. *)
Lemma run_exact_caps : forall (R : Type) l st (k : mstate -> option R) r,
    run (exact_chars l) st k = Some r ->
    exists st', caps st' = caps st /\ k st' = Some r.
Proof.
  induction l as [|c l IH]; intros st k r H; simpl in H.
  - exists st. auto.
  - destruct (rest st) as [|x rs]; [discriminate|].
    destruct (Ascii.eqb c x); [|discriminate].
    destruct (IH _ _ _ H) as (st' & Hc & Hk).
    exists st'. split; [exact Hc | exact Hk].
Qed.

(** A match of the marker pattern captures a run of digits that is not
    empty, and nothing else. *)
Lemma marker_run_digits : forall sn rs cp,
    run marker (MState sn rs []) accept = Some cp ->
    exists pre, cp = [(1%nat, pre)] /\ forallb is_digit pre = true /\ pre <> [].
Proof.
  intros sn rs cp H. unfold marker, seq in H.
  change (run (exact "[TogglID:") (MState sn rs [])
              (fun st1 => run (Group 1 (plus is_digit)) st1
                 (fun st2 => run (Cat (exact "]") Eps) st2 accept)) = Some cp) in H.
  apply run_exact_caps in H. destruct H as (st1 & Hc1 & H).
  simpl in Hc1.
  change (rep is_digit 1 0 (seen st1) (rest st1) (caps st1)
              (fun st' =>
                 (fun st2 => run (exact "]") st2 (fun st3 => accept st3))
                   (MState (seen st') (rest st')
                      ((1%nat, firstn (List.length (seen st') - List.length (seen st1))
                                      (rest st1)) :: caps st'))) = Some cp) in H.
  apply rep_some in H. destruct H as (pre & post & Hrs & Hp & Hl & H).
  apply run_exact_caps in H. destruct H as (st3 & Hc3 & H).
  unfold accept in H. injection H as <-. rewrite Hc3. simpl.
  exists pre. rewrite Hc1. split; [|split].
  - rewrite Hrs, length_app, length_rev.
    replace (List.length pre + List.length (seen st1) - List.length (seen st1))%nat
      with (List.length pre) by lia.
    rewrite firstn_app, firstn_all, Nat.sub_diag. simpl. rewrite app_nil_r.
    reflexivity.
  - exact Hp.
  - destruct pre; [simpl in Hl; lia | discriminate].
Qed.

Lemma search_from_eq : forall r sn rs,
    search_from r sn rs =
    match run r (MState sn rs []) accept with
    | Some cp => Some cp
    | None =>
        match rs with
        | [] => None
        | c :: rs' => search_from r (c :: sn) rs'
        end
    end.
Proof. intros r sn [|c rs]; reflexivity. Qed.

Lemma search_from_digits : forall rs sn cp,
    search_from marker sn rs = Some cp ->
    exists pre, cp = [(1%nat, pre)] /\ forallb is_digit pre = true /\ pre <> [].
Proof.
  induction rs as [|c rs IH]; intros sn cp H; rewrite search_from_eq in H.
  - destruct (run marker (MState sn [] []) accept) as [cp'|] eqn:E; [|discriminate].
    injection H as <-. apply (marker_run_digits _ _ _ E).
  - destruct (run marker (MState sn (c :: rs) []) accept) as [cp'|] eqn:E.
    + injection H as <-. apply (marker_run_digits _ _ _ E).
    + apply (IH _ _ H).
Qed.

Lemma chars_text : forall l, chars (text l) = l.
Proof. intros l. apply list_ascii_of_string_of_list_ascii. Qed.

(** The marker scan recovers numeric ids only. *)
Lemma marker_id_numeric : forall summary i,
    marker_id summary = Some i -> numeric i.
Proof.
  intros summary i H. unfold marker_id, re_search in H.
  destruct (search_from marker [] (chars summary)) as [cp|] eqn:E; [|discriminate].
  destruct (search_from_digits _ _ _ E) as (pre & -> & Hp & Hne).
  simpl in H. injection H as <-. split.
  - rewrite chars_text. exact Hp.
  - destruct pre; [contradiction | discriminate].
Qed.

Lemma scan_markers_numeric : forall l ids,
    Forall numeric ids -> Forall numeric (scan_markers l ids).
Proof.
  induction l as [|x l IH]; intros ids H; simpl; [exact H|].
  destruct (marker_id (summary x)) as [i|] eqn:E; [|apply IH; exact H].
  apply IH. apply Forall_app. split; [exact H|].
  constructor; [apply (marker_id_numeric _ _ E) | constructor].
Qed.

Lemma mem_In : forall x l, mem x l = true <-> In x l.
Proof.
  intros x l. unfold mem. rewrite existsb_exists. split.
  - intros (y & Hy & He). apply String.eqb_eq in He. subst. exact Hy.
  - intros H. exists x. split; [exact H | apply String.eqb_refl].
Qed.

(** The entries [get_time_tracking_entries] returns carry numeric ids. *)
Lemma from_notes_numeric : forall notes formatted,
    Forall (fun x => numeric (toggl_id x)) formatted ->
    Forall (fun x => numeric (toggl_id x)) (from_notes notes formatted).
Proof.
  induction notes as [|body notes IH]; intros formatted H; simpl; [exact H|].
  destruct (is_tracking_note body); [|apply IH; exact H].
  destruct (marker_id body) as [i|] eqn:E; [|apply IH; exact H].
  apply IH. apply Forall_app. split; [exact H|].
  constructor; [apply (marker_id_numeric _ _ E) | constructor].
Qed.

Lemma from_events_numeric : forall events formatted,
    Forall (fun x => numeric (toggl_id x)) formatted ->
    Forall (fun x => numeric (toggl_id x)) (from_events events formatted).
Proof.
  induction events as [|s events IH]; intros formatted H; simpl; [exact H|].
  destruct (marker_id s) as [i|] eqn:E; [|apply IH; exact H].
  destruct (existsb _ formatted); [apply IH; exact H|].
  apply IH. apply Forall_app. split; [exact H|].
  constructor; [apply (marker_id_numeric _ _ E) | constructor].
Qed.

Lemma unique_numeric : forall formatted kept,
    Forall (fun x => numeric (toggl_id x)) formatted ->
    Forall (fun x => numeric (toggl_id x)) kept ->
    Forall (fun x => numeric (toggl_id x)) (unique formatted kept).
Proof.
  induction formatted as [|x formatted IH]; intros kept H Hk; simpl; [exact Hk|].
  inversion H as [|? ? Hx Hrest]; subst.
  destruct (truthy (toggl_id x) && _)%bool; [|apply IH; assumption].
  apply IH; [assumption|]. apply Forall_app. split; [exact Hk|].
  constructor; [exact Hx | constructor].
Qed.

Lemma get_time_tracking_entries_numeric : forall notes events,
    Forall (fun x => numeric (toggl_id x)) (get_time_tracking_entries notes events).
Proof.
  intros notes events. unfold get_time_tracking_entries.
  apply unique_numeric; [|constructor].
  assert (H1 : Forall (fun x => numeric (toggl_id x))
                      match notes with Ok l => from_notes l [] | Raised => [] end).
  { destruct notes as [l|]; [apply from_notes_numeric|]; constructor. }
  destruct events as [[status l]|]; [|exact H1].
  destruct (status =? 200); [apply from_events_numeric|]; exact H1.
Qed.

Lemma numeric_digits_only : forall s, numeric s -> digits_only s.
Proof.
  intros s [H Hne]. split; [|exact Hne]. unfold has_ascii_non_digit.
  induction (chars s) as [|c l IH]; simpl in *; [reflexivity|].
  apply andb_true_iff in H. destruct H as [Hc Hl].
  unfold ascii_non_digit at 1. rewrite Hc, andb_false_r. simpl. apply IH. exact Hl.
Qed.

Lemma scan_markers_digits_only : forall l,
    Forall digits_only (scan_markers l []).
Proof.
  intros l. apply (Forall_impl _ numeric_digits_only).
  apply scan_markers_numeric. constructor.
Qed.

Lemma get_time_tracking_entries_digits_only : forall notes events,
    Forall (fun x => digits_only (toggl_id x)) (get_time_tracking_entries notes events).
Proof.
  intros notes events.
  apply (Forall_impl _ (fun x => numeric_digits_only (toggl_id x))).
  apply get_time_tracking_entries_numeric.
Qed.

(** An id with a character of ASCII that is no digit is in no set of
    captured ids. *)
Lemma ascii_non_digit_never_member : forall s ids,
    has_ascii_non_digit s = true -> Forall digits_only ids -> mem s ids = false.
Proof.
  intros s ids Hs Hids. destruct (mem s ids) eqn:E; [|reflexivity].
  apply mem_In in E. rewrite Forall_forall in Hids.
  destruct (Hids s E) as [H _]. rewrite H in Hs. discriminate.
Qed.

(** C10: the marker scan captures digits only, in the reconciler and in
    [get_time_tracking_entries] alike: every id it recovers is a text
    without a character of ASCII other than [0] to [9].  So an entry
    whose id, as a string, holds such a character is never found among
    the ids recovered from an issue, whatever the issue holds; with a
    start that parses, a live run submits the entry again and skips
    nothing, and a dry run counts it as synced.  The set of recovered
    ids is any list of captured texts, which covers the digits outside
    ASCII that [\d] takes as well. *)
Theorem C10_non_numeric_id_is_logged_again :
  forall cfg f issue existing_entries e st total,
    has_ascii_non_digit (str_of_id (id e)) = true ->
    Forall digits_only (scan_markers existing_entries [])
    /\ (forall notes events,
          Forall (fun x => digits_only (toggl_id x))
                 (get_time_tracking_entries notes events))
    /\ (forall existing_ids,
          Forall digits_only existing_ids ->
          mem (str_of_id (id e)) existing_ids = false)
    /\ mem (str_of_id (id e)) (scan_markers existing_entries []) = false
    /\ (forall existing_ids dt t a,
          Forall digits_only existing_ids ->
          f (replace_Z (start e)) = Some dt ->
          DRY_RUN cfg = false ->
          Runs (sync_entry cfg f issue existing_ids e (st, total)) t a ->
          (exists r,
              t = [Ev (AddTimeSpent (iid issue) (duration e) dt (log_description cfg e)) r])
          /\ skipped_entries (fst a) = skipped_entries st)
    /\ (forall existing_ids dt,
          Forall digits_only existing_ids ->
          f (replace_Z (start e)) = Some dt ->
          DRY_RUN cfg = true ->
          sync_entry cfg f issue existing_ids e (st, total)
          = Ret (add_synced 1 st, total + duration e)).
Proof.
  intros cfg f issue existing_entries e st total Hid.
  split; [apply scan_markers_digits_only|].
  split; [apply get_time_tracking_entries_digits_only|].
  split; [intros ids Hids; apply ascii_non_digit_never_member; assumption|].
  split; [apply ascii_non_digit_never_member;
          [exact Hid | apply scan_markers_digits_only]|].
  split.
  - intros ids dt t a Hids Hdt Hlive Hrun.
    pose proof (ascii_non_digit_never_member _ ids Hid Hids) as Hmem.
    unfold sync_entry in Hrun.
    rewrite Hmem, andb_false_r, Hdt, Hlive in Hrun. simpl in Hrun.
    destruct Hrun as (r & t' & -> & Hrun).
    destruct r as [[|]|]; simpl in Hrun; destruct Hrun as [-> <-];
      (split; [eexists; reflexivity | reflexivity]).
  - intros ids dt Hids Hdt Hdry.
    pose proof (ascii_non_digit_never_member _ ids Hid Hids) as Hmem.
    unfold sync_entry.
    rewrite Hmem, andb_false_r, Hdt, Hdry. reflexivity.
Qed.

Lemma C10_witness :
  mem "abc" (scan_markers [mkTracked "Toggl: #42: fix [Billable] [TogglID:abc]" ""] [])
  = false
  /\ (exists r,
        snd (exec gitlab
               (sync_entry live iso_basic issue_42
                  (scan_markers
                     [mkTracked "Toggl: #42: fix [Billable] [TogglID:abc]" ""] [])
                  lettered_entry (stats0, 0))
               tracker_42)
        = [Ev (AddTimeSpent 42 900 (mkDatetime 2024 1 15 9 0 0)
                            (log_description live lettered_entry)) r]).
Proof.
  destruct (C10_non_numeric_id_is_logged_again live iso_basic issue_42
              [mkTracked "Toggl: #42: fix [Billable] [TogglID:abc]" ""]
              lettered_entry stats0 0) as (Hscan & _ & _ & Hmem & Hlive & _).
  - reflexivity.
  - split; [exact Hmem|].
    refine (proj1 (Hlive _ (mkDatetime 2024 1 15 9 0 0) _ _ Hscan _ _
                         (exec_Runs _ gitlab _ tracker_42))).
    + reflexivity.
    + reflexivity.
Defined.

(** The same on the tracker in memory: the entry [lettered] is logged to
    issue 42 by a first run and carries its marker there, and a second
    run on the tracker the first run left logs it again. *)
Example lettered_is_logged_twice :
  let first := replay live [lettered] tracker_42 in
  let second := replay live [lettered] (after first) in
  synced_entries (counters first) = 1
  /\ map t_events (after first) = [["Toggl: #42: fix [Billable] [TogglID:abc]"]]
  /\ synced_entries (counters second) = 1
  /\ skipped_entries (counters second) = 0.
Proof. vm_compute. repeat split; reflexivity. Qed.

End MarkerFacts.

(** ** Partial failure *)

Module FailureFacts.
Import Text Re Calendar Toggl GitLab Sync Client Replay Scenario ProgFacts.
Import Notions.

Section Live.
Variable cfg : Config.
Variable f : string -> option datetime.
Hypothesis live_run : DRY_RUN cfg = false.

Lemma Runs_sync_loop_app : forall issue ids pre l a t a',
    Runs (sync_loop cfg f issue ids (pre ++ l) a) t a' ->
    exists t1 a1 t2,
      Runs (sync_loop cfg f issue ids pre a) t1 a1
      /\ Runs (sync_loop cfg f issue ids l a1) t2 a'
      /\ t = (t1 ++ t2)%list.
Proof.
  induction pre as [|x pre IH]; intros l a t a' H; simpl in *.
  - exists [], a, t. auto.
  - apply Runs_bind_inv in H. destruct H as (tx & ax & t' & Hx & H & ->).
    destruct (IH _ _ _ _ H) as (t1 & a1 & t2 & H1 & H2 & ->).
    exists (tx ++ t1)%list, a1, t2. split; [|split].
    + apply (Runs_bind _ _ _ _ _ ax); assumption.
    + exact H2.
    + apply app_assoc.
Qed.

(** Every entry of the group that is no duplicate and has a start that
    parses is submitted, whatever the answers to the other submissions. *)
Lemma sync_entry_calls : forall issue ids e a t a',
    Runs (sync_entry cfg f issue ids e a) t a' ->
    map called t = submission cfg f issue ids e.
Proof.
  intros issue ids e [st total] t a' H. unfold sync_entry, submission in *.
  destruct (PREVENT_DUPLICATES cfg && mem (str_of_id (id e)) ids)%bool.
  - destruct H as [-> _]. reflexivity.
  - destruct (f (replace_Z (start e))) as [dt|].
    + rewrite live_run in H. simpl in H.
      destruct H as (r & t' & -> & H).
      destruct r as [[|]|]; destruct H as [-> _]; reflexivity.
    + destruct H as [-> _]. reflexivity.
Qed.

Lemma sync_loop_calls : forall issue ids entries a t a',
    Runs (sync_loop cfg f issue ids entries a) t a' ->
    map called t = submissions cfg f issue ids entries.
Proof.
  induction entries as [|e more IH]; intros a t a' H; simpl in *.
  - destruct H as [-> _]. reflexivity.
  - apply Runs_bind_inv in H. destruct H as (t1 & a1 & t2 & H1 & H2 & ->).
    rewrite map_app, (sync_entry_calls _ _ _ _ _ _ H1), (IH _ _ _ H2).
    reflexivity.
Qed.

End Live.

(** C8: in a live run over the entries of a group, a submission that
    answers [False] or raises adds one to the error counter and changes
    no other counter, and the entries after it are processed from there:
    each of them that is no duplicate and has a start that parses is
    submitted.  The groups after a group are processed whatever happened
    in it. *)
Theorem C8_failed_submission_does_not_stop_the_group :
  forall cfg f issue ids pre e post dt a t a',
    DRY_RUN cfg = false ->
    (PREVENT_DUPLICATES cfg && mem (str_of_id (id e)) ids)%bool = false ->
    f (replace_Z (start e)) = Some dt ->
    Runs (sync_loop cfg f issue ids (pre ++ e :: post) a) t a' ->
    (exists t1 a1 r t3,
        t = (t1 ++ Ev (AddTimeSpent (iid issue) (duration e) dt (log_description cfg e)) r
                :: t3)%list
        /\ Runs (sync_loop cfg f issue ids pre a) t1 a1
        /\ map called t3 = submissions cfg f issue ids post
        /\ (r <> Ok true ->
            exists st2,
              Runs (sync_loop cfg f issue ids post (st2, snd a1)) t3 a'
              /\ errors st2 = errors (fst a1) + 1
              /\ synced_entries st2 = synced_entries (fst a1)
              /\ skipped_entries st2 = skipped_entries (fst a1)
              /\ processed_entries st2 = processed_entries (fst a1)
              /\ created_issues st2 = created_issues (fst a1)))
    /\ (forall k entries more st tg st',
          Runs (sync_groups cfg f ((k, entries) :: more) st) tg st' ->
          exists t1 st1 t2,
            Runs (sync_ticket_entries cfg f k entries st) t1 st1
            /\ Runs (sync_groups cfg f more st1) t2 st'
            /\ tg = (t1 ++ t2)%list).
Proof.
  intros cfg f issue ids pre e post dt a t a' Hlive Hdup Hdt Hrun. split.
  - apply Runs_sync_loop_app in Hrun.
    destruct Hrun as (t1 & a1 & t2 & H1 & H2 & ->).
    simpl in H2. apply Runs_bind_inv in H2.
    destruct H2 as (te & ae & t3 & He & H3 & ->).
    destruct a1 as [st1 total1].
    unfold sync_entry in He. rewrite Hdup, Hdt, Hlive in He. simpl in He.
    destruct He as (r & te' & -> & He).
    assert (Hte : te' = [])
      by (destruct r as [[|]|]; destruct He as [-> _]; reflexivity).
    subst te'.
    exists t1, (st1, total1), r, t3. split; [reflexivity|]. split; [exact H1|].
    split; [apply (sync_loop_calls cfg f Hlive _ _ _ _ _ _ H3)|].
    intros Hr. exists (add_errors 1 st1).
    destruct r as [[|]|]; [congruence| |]; destruct He as [_ <-];
      simpl; repeat split; try reflexivity; exact H3.
  - intros k entries more st tg st' Hg. simpl in Hg.
    apply Runs_bind_inv in Hg. exact Hg.
Qed.

Lemma C8_witness :
  exists t1 a1 r t3,
    [Ev (AddTimeSpent 42 900 (mkDatetime 2024 1 15 9 0 0)
                      (log_description live lettered_entry)) (Ok false);
     Ev (AddTimeSpent 42 900 (mkDatetime 2024 1 15 9 0 0)
                      (log_description live fix_entry)) (Ok true)]
    = (t1 ++ Ev (AddTimeSpent 42 900 (mkDatetime 2024 1 15 9 0 0)
                              (log_description live lettered_entry)) r :: t3)%list
    /\ Runs (sync_loop live iso_basic issue_42 [] [] (stats0, 0)) t1 a1
    /\ map called t3 = submissions live iso_basic issue_42 [] [fix_entry].
Proof.
  destruct (C8_failed_submission_does_not_stop_the_group
              live iso_basic issue_42 [] [] lettered_entry [fix_entry]
              (mkDatetime 2024 1 15 9 0 0) (stats0, 0)
              [Ev (AddTimeSpent 42 900 (mkDatetime 2024 1 15 9 0 0)
                                (log_description live lettered_entry)) (Ok false);
               Ev (AddTimeSpent 42 900 (mkDatetime 2024 1 15 9 0 0)
                                (log_description live fix_entry)) (Ok true)]
              (add_synced 1 (add_errors 1 stats0), 900))
    as [(t1 & a1 & r & t3 & Ht & H1 & Hc & _) _].
  - reflexivity.
  - reflexivity.
  - reflexivity.
  - simpl. eexists. eexists. split; [reflexivity|].
    eexists. eexists. split; [reflexivity|]. split; reflexivity.
  - exists t1, a1, r, t3. split; [exact Ht | split; [exact H1 | exact Hc]].
Defined.

End FailureFacts.

(** ** Repeated runs *)

Module RepeatFacts.
Import Text Re Calendar Toggl GitLab Sync Client Replay Scenario ProgFacts.
Import Notions.
Import MarkerFacts.

Lemma len_cons : forall (e : Entry) l, len (e :: l) = len l + 1.
Proof. intros e l. unfold len. simpl List.length. lia. Qed.

Lemma len_app_one : forall (e : Entry) l, len (l ++ [e]) = len l + 1.
Proof. intros e l. unfold len. rewrite length_app. simpl. lia. Qed.

Lemma opt_eqb_eq : forall a b, opt_eqb a b = true -> a = b.
Proof.
  intros [x|] [y|] H; simpl in H; try discriminate; [|reflexivity].
  apply String.eqb_eq in H. subst. reflexivity.
Qed.

Lemma key_eqb_eq : forall a b : key, key_eqb a b = true -> a = b.
Proof.
  intros [a1 a2] [b1 b2] H. unfold key_eqb in H. simpl in H.
  apply andb_true_iff in H. destruct H as [H1 H2].
  apply opt_eqb_eq in H1. apply opt_eqb_eq in H2. subst. reflexivity.
Qed.

Section Grouping.
Variable Q : Entry -> Prop.

Lemma group_add_grouped : forall e groups,
    Q e -> grouped Q groups -> grouped Q (group_add (entry_key e) e groups).
Proof.
  intros e groups He. induction groups as [|[k es] more IH]; intros H; simpl.
  - repeat constructor. exact He.
  - inversion H as [|? ? Hk Hmore]; subst.
    destruct (key_eqb k (entry_key e)) eqn:E.
    + constructor; [|exact Hmore]. simpl in *.
      apply Forall_app. split; [exact Hk|].
      constructor; [|constructor]. split; [|exact He].
      apply key_eqb_eq in E. symmetry. exact E.
    + constructor; [exact Hk | apply IH; exact Hmore].
Qed.

Lemma group_add_count : forall k e groups,
    group_count (group_add k e groups) = group_count groups + 1.
Proof.
  intros k e. induction groups as [|[k' es] more IH]; simpl.
  - rewrite len_cons. unfold len. simpl. lia.
  - destruct (key_eqb k' k); simpl.
    + rewrite len_app_one. lia.
    + rewrite IH. lia.
Qed.

Lemma fold_group_add : forall entries groups,
    (forall e, In e entries -> Q e) ->
    grouped Q groups ->
    let result :=
      fold_left (fun grouped e => group_add (Toggl.ticket_id e, Toggl.ticket_name e) e grouped)
                entries groups in
    grouped Q result /\ group_count result = group_count groups + len entries.
Proof.
  induction entries as [|e more IH]; intros groups HQ Hg; simpl.
  - split; [exact Hg | unfold len; simpl; lia].
  - destruct (IH (group_add (entry_key e) e groups)) as [H1 H2].
    + intros x Hx. apply HQ. right. exact Hx.
    + apply group_add_grouped; [apply HQ; left; reflexivity | exact Hg].
    + split; [exact H1|].
      unfold entry_key in H2. rewrite H2, group_add_count, len_cons. lia.
Qed.

Lemma group_entries_grouped : forall entries,
    (forall e, In e entries -> Q e) ->
    grouped Q (group_entries_by_ticket entries)
    /\ group_count (group_entries_by_ticket entries) = len entries.
Proof.
  intros entries HQ.
  destruct (fold_group_add entries [] HQ (Forall_nil _)) as [H1 H2].
  split; [exact H1 | exact H2].
Qed.

End Grouping.

Lemma all_skipped_trans : forall n m st st1 st2,
    all_skipped n st st1 -> all_skipped m st1 st2 -> all_skipped (n + m) st st2.
Proof. unfold all_skipped. intros. lia. Qed.

Section SecondRun.
Variable cfg : Config.
Variable f : string -> option datetime.
Variable issue_of : string -> option Issue.
Variable ids_on : Z -> list string.
Hypothesis prevent : PREVENT_DUPLICATES cfg = true.

Lemma sync_loop_all_duplicates : forall issue ids entries st total,
    (forall e, In e entries -> mem (str_of_id (id e)) ids = true) ->
    exists st',
      sync_loop cfg f issue ids entries (st, total) = Ret (st', total)
      /\ only_skipped (len entries) st st'.
Proof.
  induction entries as [|e more IH]; intros st total H.
  - exists st. split; [reflexivity|]. unfold only_skipped, len. simpl. lia.
  - assert (He : sync_entry cfg f issue ids e (st, total)
                 = Ret (add_skipped 1 st, total)).
    { unfold sync_entry. rewrite prevent, (H e (or_introl eq_refl)). reflexivity. }
    destruct (IH (add_skipped 1 st) total) as (st' & Hl & Hs).
    { intros x Hx. apply H. right. exact Hx. }
    exists st'. split.
    + cbn [sync_loop]. rewrite He. cbn [bind]. exact Hl.
    + rewrite len_cons. unfold only_skipped in *. simpl in *. lia.
Qed.

Lemma sync_entries_to_issue_all_duplicates : forall issue entries st t st',
    (forall e, In e entries -> In (str_of_id (id e)) (ids_on (iid issue))) ->
    Runs (sync_entries_to_issue cfg f issue entries st) t st' ->
    Forall (answers_as issue_of ids_on) t ->
    only_skipped (len entries) st st'
    /\ Forall (fun ev => is_add_time_spent (called ev) = false) t.
Proof.
  intros issue entries st t st' Hids Hrun Hans.
  unfold sync_entries_to_issue, fetch_existing in Hrun. rewrite prevent in Hrun.
  cbn [bind Runs] in Hrun.
  destruct Hrun as (r & t' & -> & Hrun).
  inversion Hans as [|? ? Hr Hans']; subst. simpl in Hr.
  destruct Hr as (l & -> & Hcover).
  cbn [bind] in Hrun.
  destruct (sync_loop_all_duplicates issue (scan_markers l []) entries st 0)
    as (st1 & Hloop & Hskip).
  { intros e He. apply Hcover. apply Hids. exact He. }
  rewrite Hloop in Hrun. cbn [bind fst snd] in Hrun.
  unfold add_estimate in Hrun.
  replace (0 <? 0) with false in Hrun by reflexivity.
  rewrite andb_false_r in Hrun. cbn [andb bind] in Hrun.
  unfold add_summary in Hrun.
  destruct ((1 <? len entries) && negb (DRY_RUN cfg))%bool.
  - cbn [Runs] in Hrun. destruct Hrun as (r2 & t2 & -> & [-> <-]).
    split; [exact Hskip|]. repeat constructor.
  - destruct Hrun as [-> <-]. split; [exact Hskip|]. repeat constructor.
Qed.

Lemma sync_ticket_entries_all_duplicates : forall k entries st t st',
    Forall (fun e => entry_key e = k /\ already_logged issue_of ids_on e) entries ->
    entries <> [] ->
    Runs (sync_ticket_entries cfg f k entries st) t st' ->
    Forall (answers_as issue_of ids_on) t ->
    all_skipped (len entries) st st'
    /\ Forall (fun ev => is_add_time_spent (called ev) = false) t.
Proof.
  intros [tid name] entries st t st' Hg Hne Hrun Hans.
  destruct entries as [|e0 more]; [contradiction|].
  pose proof Hg as Hg0. rewrite Forall_forall in Hg0.
  destruct (Hg0 e0 (or_introl eq_refl)) as [Hk0 (tid0 & issue & Ht0 & Hne0 & Hi0 & _)].
  unfold entry_key in Hk0. injection Hk0 as Hk1 Hk2.
  rewrite Ht0 in Hk1. subst tid.
  unfold sync_ticket_entries in Hrun.
  assert (Htr : truthy_opt (Some tid0) = true).
  { simpl. apply ParserFacts.truthy_true. exact Hne0. }
  rewrite Htr in Hrun. cbn [bind Runs] in Hrun.
  destruct Hrun as (r & t' & -> & Hrun).
  inversion Hans as [|? ? Hr Hans']; subst. simpl in Hr.
  rewrite Hi0 in Hr. subst r. cbn [sync_or_skip] in Hrun.
  destruct (sync_entries_to_issue_all_duplicates issue (e0 :: more)
              (add_processed (len (e0 :: more)) st) t' st')
    as [Hs Hc]; [| exact Hrun | exact Hans' |].
  - intros e He. destruct (Hg0 e He) as [Hk (tid' & issue' & Ht' & _ & Hi' & Hin)].
    unfold entry_key in Hk. injection Hk as Hk _.
    rewrite Ht' in Hk. injection Hk as ->.
    rewrite Hi0 in Hi'. injection Hi' as <-. exact Hin.
  - split; [|constructor; [reflexivity | exact Hc]].
    unfold all_skipped, only_skipped in *. simpl in *. lia.
Qed.

Lemma sync_groups_all_duplicates : forall groups st t st',
    grouped (already_logged issue_of ids_on) groups ->
    Forall (fun g => snd g <> []) groups ->
    Runs (sync_groups cfg f groups st) t st' ->
    Forall (answers_as issue_of ids_on) t ->
    all_skipped (group_count groups) st st'
    /\ Forall (fun ev => is_add_time_spent (called ev) = false) t.
Proof.
  induction groups as [|[k entries] more IH]; intros st t st' Hg Hne Hrun Hans.
  - destruct Hrun as [-> <-]. split; [|constructor].
    unfold all_skipped. simpl. lia.
  - cbn [sync_groups] in Hrun. apply Runs_bind_inv in Hrun.
    destruct Hrun as (t1 & st1 & t2 & H1 & H2 & ->).
    apply Forall_app in Hans. destruct Hans as [Ha1 Ha2].
    inversion Hg as [|? ? Hk Hmore]; subst.
    inversion Hne as [|? ? Hn Hnmore]; subst.
    destruct (sync_ticket_entries_all_duplicates k entries st t1 st1 Hk Hn H1 Ha1)
      as [Hs1 Hc1].
    destruct (IH st1 t2 st' Hmore Hnmore H2 Ha2) as [Hs2 Hc2].
    split; [|apply Forall_app; split; assumption].
    apply (all_skipped_trans _ _ _ _ _ Hs1 Hs2).
Qed.

End SecondRun.

Lemma group_add_nonempty : forall k e groups,
    Forall (fun g : key * list Entry => snd g <> []) groups ->
    Forall (fun g : key * list Entry => snd g <> []) (group_add k e groups).
Proof.
  intros k e. induction groups as [|[k' es] more IH]; intros H; simpl.
  - repeat constructor. discriminate.
  - inversion H as [|? ? Hk Hmore]; subst.
    destruct (key_eqb k' k).
    + constructor; [|exact Hmore]. simpl. destruct es; discriminate.
    + constructor; [exact Hk | apply IH; exact Hmore].
Qed.

Lemma group_entries_nonempty : forall entries,
    Forall (fun g : key * list Entry => snd g <> []) (group_entries_by_ticket entries).
Proof.
  intros entries. unfold group_entries_by_ticket.
  assert (H : forall groups,
             Forall (fun g : key * list Entry => snd g <> []) groups ->
             Forall (fun g : key * list Entry => snd g <> [])
                    (fold_left (fun grouped e =>
                                  group_add (Toggl.ticket_id e, Toggl.ticket_name e) e grouped)
                               entries groups)).
  { induction entries as [|e more IH]; intros groups Hg; simpl; [exact Hg|].
    apply IH. apply group_add_nonempty. exact Hg. }
  apply H. constructor.
Qed.

(** With duplicate prevention enabled, on a run in which every processed
    entry has a ticket id that the issue tracker resolves to an issue,
    and the ids the marker scan recovers from that issue include the id
    of the entry, nothing is submitted and no entry is counted as
    synced; every processed entry is counted as skipped. *)
Lemma run_over_recovered_entries_logs_nothing :
  forall cfg f issue_of ids_on time_entries t st',
    PREVENT_DUPLICATES cfg = true ->
    (forall e,
        In e (process_time_entries f time_entries (MINIMUM_DURATION cfg)
                (ROUND_TIME_TO_MINUTES cfg) (EXCLUDE_WEEKENDS cfg)) ->
        already_logged issue_of ids_on e) ->
    Runs (sync_time_entries cfg f time_entries stats0) t st' ->
    Forall (answers_as issue_of ids_on) t ->
    synced_entries st' = 0
    /\ skipped_entries st'
       = len (process_time_entries f time_entries (MINIMUM_DURATION cfg)
                (ROUND_TIME_TO_MINUTES cfg) (EXCLUDE_WEEKENDS cfg))
    /\ processed_entries st' = skipped_entries st'
    /\ errors st' = 0
    /\ created_issues st' = 0
    /\ Forall (fun ev => is_add_time_spent (called ev) = false) t.
Proof.
  intros cfg f issue_of ids_on time_entries t st' Hprevent Hlogged Hrun Hans.
  unfold sync_time_entries in Hrun.
  destruct time_entries as [|e0 more].
  - destruct Hrun as [-> <-].
    assert (Hnil : process_time_entries f [] (MINIMUM_DURATION cfg)
                     (ROUND_TIME_TO_MINUTES cfg) (EXCLUDE_WEEKENDS cfg) = []).
    { unfold process_time_entries. destruct (EXCLUDE_WEEKENDS cfg); reflexivity. }
    rewrite Hnil. repeat split; try reflexivity. constructor.
  - set (processed := process_time_entries f (e0 :: more) (MINIMUM_DURATION cfg)
                        (ROUND_TIME_TO_MINUTES cfg) (EXCLUDE_WEEKENDS cfg)) in *.
    apply Runs_bind_inv in Hrun.
    destruct Hrun as (t1 & st1 & t2 & H1 & H2 & ->).
    destruct H2 as [-> <-]. rewrite app_nil_r in *.
    destruct (group_entries_grouped (already_logged issue_of ids_on) processed Hlogged)
      as [Hg Hcount].
    destruct (sync_groups_all_duplicates cfg f issue_of ids_on Hprevent
                (group_entries_by_ticket processed) stats0 t1 st1
                Hg (group_entries_nonempty processed) H1 Hans) as [Hs Hc].
    rewrite Hcount in Hs. unfold all_skipped in Hs. simpl in *.
    repeat split; try lia. exact Hc.
Qed.

(** A group without a ticket id is never looked up: with a name that
    passes [_should_create_issue], a live run with [AUTO_CREATE_ISSUES]
    begins the group with [create_issue], whatever the issue tracker
    holds. *)
Lemma ticketless_group_creates_first : forall cfg f name entries st t st',
    (truthy name && truthy (strip name))%bool = true ->
    should_create_issue cfg name = true ->
    AUTO_CREATE_ISSUES cfg = true ->
    DRY_RUN cfg = false ->
    Runs (sync_ticket_entries cfg f (None, Some name) entries st) t st' ->
    exists description estimate r t',
      t = Ev (CreateIssue name description (ISSUE_LABELS cfg)
                (GITLAB_DEFAULT_ASSIGNEE cfg) (GITLAB_DEFAULT_MILESTONE cfg) estimate) r
          :: t'.
Proof.
  intros cfg f name entries st t st' Hname Hshould Hauto Hlive H.
  unfold sync_ticket_entries in H. cbn [truthy_opt bind] in H.
  rewrite Hname in H. unfold create_or_skip in H.
  rewrite Hshould, Hauto, Hlive in H. cbn [negb Runs] in H.
  destruct H as (r & t' & -> & _). do 4 eexists. reflexivity.
Qed.

(** C1, where the code departs from it.  Duplicate prevention is on in
    the default settings, and an entry without a ticket id is logged
    twice all the same.  The first run creates an issue named after the
    entry and logs the time there, with the marker of the entry; the
    second run, on the tracker the first run left, looks nothing up,
    creates a second issue of the same name and logs the time again:
    one more entry synced, none skipped.  The lookup that reaches the
    marker is made for a ticket id only: the entries with ticket id 42
    are logged once by the first run and all skipped by the second.
    Whatever the tracker holds, a live run with [AUTO_CREATE_ISSUES]
    begins a group without a ticket id with [create_issue]. *)
Theorem C1_ticketless_entry_is_logged_again :
  PREVENT_DUPLICATES live = true
  /\ (let first := replay live [dashboard] [] in
      let second := replay live [dashboard] (after first) in
      synced_entries (counters first) = 1
      /\ created_issues (counters first) = 1
      /\ map t_title (after first) = ["Implement dashboard feature"]
      /\ map t_events (after first)
         = [["Toggl: Implement dashboard feature [Billable] [TogglID:3]"]]
      /\ synced_entries (counters second) = 1
      /\ created_issues (counters second) = 1
      /\ skipped_entries (counters second) = 0
      /\ map t_title (after second)
         = ["Implement dashboard feature"; "Implement dashboard feature"]
      /\ map t_events (after second)
         = [["Toggl: Implement dashboard feature [Billable] [TogglID:3]"];
            ["Toggl: Implement dashboard feature [Billable] [TogglID:3]"]])
  /\ (let first := replay live [fix_42; fix_again] tracker_42 in
      let second := replay live [fix_42; fix_again] (after first) in
      synced_entries (counters first) = 2
      /\ synced_entries (counters second) = 0
      /\ skipped_entries (counters second) = 2
      /\ created_issues (counters second) = 0)
  /\ (forall f name entries st t st',
         (truthy name && truthy (strip name))%bool = true ->
         should_create_issue live name = true ->
         Runs (sync_ticket_entries live f (None, Some name) entries st) t st' ->
         exists description estimate r t',
           t = Ev (CreateIssue name description (ISSUE_LABELS live)
                     (GITLAB_DEFAULT_ASSIGNEE live) (GITLAB_DEFAULT_MILESTONE live)
                     estimate) r
               :: t').
Proof.
  split; [reflexivity|].
  split; [vm_compute; repeat split; reflexivity|].
  split; [vm_compute; repeat split; reflexivity|].
  intros f name entries st t st' Hname Hshould H.
  apply (ticketless_group_creates_first live f name entries st t st' Hname Hshould);
    [reflexivity | reflexivity | exact H].
Qed.

End RepeatFacts.

(** ** The marker is recovered from what was logged *)

Module RoundTripFacts.
Import Text Re Calendar Toggl GitLab Sync Client Notions RoundTripNotions.
Import MarkerFacts.

Lemma chars_app : forall a b, chars (a ++ b) = (chars a ++ chars b)%list.
Proof.
  induction a as [|c a IH]; intros b; simpl; [reflexivity|].
  unfold chars in *. simpl. rewrite IH. reflexivity.
Qed.

Lemma str_app_assoc : forall a b c : string, (a ++ b) ++ c = a ++ (b ++ c).
Proof.
  induction a as [|x a IH]; intros b c; simpl; [reflexivity|].
  rewrite IH. reflexivity.
Qed.

Lemma text_chars : forall s, text (chars s) = s.
Proof. intros s. apply string_of_list_ascii_of_string. Qed.

Lemma bracket_free_app : forall a b,
    bracket_free a -> bracket_free b -> bracket_free (a ++ b).
Proof.
  intros a b Ha Hb. unfold bracket_free in *. rewrite chars_app.
  apply Forall_app. split; assumption.
Qed.

Lemma string_of_uint_digits : forall d,
    forallb is_digit (chars (NilEmpty.string_of_uint d)) = true.
Proof. induction d; simpl; auto. Qed.

Lemma digits_bracket_free : forall l,
    forallb is_digit l = true -> Forall (fun c => c <> "["%char) l.
Proof.
  induction l as [|c l IH]; intros H; simpl in H; constructor.
  - apply andb_true_iff in H. destruct H as [Hc _].
    intros ->. vm_compute in Hc. discriminate.
  - apply IH. apply andb_true_iff in H. tauto.
Qed.

Lemma nilzero_digits : forall d,
    forallb is_digit (chars (NilZero.string_of_uint d)) = true
    /\ NilZero.string_of_uint d <> "".
Proof.
  intros d. unfold NilZero.string_of_uint.
  destruct d; try (split; [apply (string_of_uint_digits (_ d)) | discriminate]).
  split; [reflexivity | discriminate].
Qed.

(** [str(n)] of a number that is not negative is a string of digits. *)
Lemma str_of_Z_numeric : forall n, 0 <= n -> numeric (str_of_Z n).
Proof.
  intros n Hn. unfold numeric, str_of_Z.
  destruct n as [|p|p]; [| |lia].
  - exact (nilzero_digits Decimal.zero).
  - exact (nilzero_digits (Pos.to_uint p)).
Qed.

Lemma str_of_Z_bracket_free : forall n, bracket_free (str_of_Z n).
Proof.
  intros n. unfold bracket_free, str_of_Z.
  destruct n as [|p|p].
  - apply digits_bracket_free. exact (proj1 (nilzero_digits Decimal.zero)).
  - apply digits_bracket_free. exact (proj1 (nilzero_digits (Pos.to_uint p))).
  - change (Forall (fun c => c <> "["%char)
                   ("-"%char :: chars (NilZero.string_of_uint (Pos.to_uint p)))).
    constructor; [discriminate|].
    apply digits_bracket_free. exact (proj1 (nilzero_digits (Pos.to_uint p))).
Qed.

Ltac bf :=
  repeat first
    [ apply bracket_free_app
    | apply str_of_Z_bracket_free
    | assumption
    | (unfold bracket_free; simpl; repeat constructor; discriminate) ].

Lemma format_duration_bracket_free : forall s, bracket_free (format_duration s).
Proof.
  intros s. unfold format_duration.
  destruct (0 <? s / 3600); [destruct (0 <? s mod 3600 / 60)|]; bf.
Qed.




Lemma join_bracket_free : forall sep parts,
    bracket_free sep -> Forall bracket_free parts -> bracket_free (join sep parts).
Proof.
  intros sep parts Hsep. induction parts as [|p parts IH]; intros H; simpl.
  - unfold bracket_free. constructor.
  - inversion H as [|? ? Hp Hrest]; subst.
    destruct parts as [|q parts]; [exact Hp|].
    apply bracket_free_app; [exact Hp|].
    apply bracket_free_app; [exact Hsep | apply IH; exact Hrest].
Qed.

(** *** Stepping over text *)

Lemma exact_head : forall (R : Type) x xs sn c l cp (k : mstate -> option R),
    run (exact_chars (x :: xs)) (MState sn (c :: l) cp) k
    = if Ascii.eqb x c then run (exact_chars xs) (MState (c :: sn) l cp) k else None.
Proof. reflexivity. Qed.

Lemma marker_run : forall st,
    run marker st accept
    = run (exact_chars ("["%char :: chars "TogglID:")) st marker_tail.
Proof. reflexivity. Qed.

Lemma marker_fails_off_bracket : forall sn c l,
    c <> "["%char -> run marker (MState sn (c :: l) []) accept = None.
Proof.
  intros sn c l Hc. rewrite marker_run, exact_head.
  destruct (Ascii.eqb "[" c) eqn:E; [|reflexivity].
  apply Ascii.eqb_eq in E. congruence.
Qed.

Lemma marker_fails_off_T : forall sn c l,
    c <> "T"%char -> run marker (MState sn ("["%char :: c :: l) []) accept = None.
Proof.
  intros sn c l Hc. rewrite marker_run, exact_head.
  change (chars "TogglID:") with ("T"%char :: chars "ogglID:").
  rewrite Ascii.eqb_refl, exact_head.
  destruct (Ascii.eqb "T" c) eqn:E; [|reflexivity].
  apply Ascii.eqb_eq in E. congruence.
Qed.

Lemma stepped_over_nil : stepped_over [].
Proof. intros sn rest. reflexivity. Qed.

Lemma stepped_over_app : forall a b,
    stepped_over a -> stepped_over b -> stepped_over (a ++ b).
Proof.
  intros a b Ha Hb sn rest.
  rewrite <- app_assoc, Ha, Hb, rev_app_distr, <- app_assoc. reflexivity.
Qed.

Lemma stepped_over_bracket_free : forall l,
    Forall (fun c => c <> "["%char) l -> stepped_over l.
Proof.
  induction l as [|c l IH]; intros H; [apply stepped_over_nil|].
  inversion H as [|? ? Hc Hl]; subst.
  intros sn rest. change ((c :: l) ++ rest)%list with (c :: (l ++ rest))%list.
  rewrite search_from_eq, (marker_fails_off_bracket sn c _ Hc).
  rewrite (IH Hl). simpl. rewrite <- app_assoc. reflexivity.
Qed.

Lemma stepped_over_text : forall s, bracket_free s -> stepped_over (chars s).
Proof. intros s H. apply stepped_over_bracket_free. exact H. Qed.

(** An opening bracket that a letter other than the marker's follows. *)
Lemma stepped_over_other_bracket : forall c l,
    c <> "T"%char -> Forall (fun x => x <> "["%char) (c :: l) ->
    stepped_over ("["%char :: c :: l).
Proof.
  intros c l Hc Hl sn rest.
  change (("["%char :: c :: l) ++ rest)%list with ("["%char :: ((c :: l) ++ rest))%list.
  rewrite search_from_eq.
  change ((c :: l) ++ rest)%list with (c :: (l ++ rest))%list.
  rewrite (marker_fails_off_T sn c _ Hc).
  change (c :: (l ++ rest))%list with ((c :: l) ++ rest)%list.
  rewrite (stepped_over_bracket_free (c :: l) Hl).
  simpl. rewrite <- !app_assoc. reflexivity.
Qed.

(** The opening bracket of the tags part. *)
Lemma stepped_over_tags_bracket : forall l,
    Forall (fun x => x <> "["%char) l ->
    stepped_over (chars "[Tags: " ++ l).
Proof.
  intros l Hl sn rest.
  change ((chars "[Tags: " ++ l) ++ rest)%list
    with ("["%char :: (chars "Tags: " ++ l) ++ rest)%list.
  rewrite search_from_eq.
  assert (Hnone : run marker
                    (MState sn ("["%char :: (chars "Tags: " ++ l) ++ rest) []) accept
                  = None) by reflexivity.
  rewrite Hnone.
  rewrite (stepped_over_bracket_free (chars "Tags: " ++ l)).
  - simpl. rewrite <- !app_assoc. reflexivity.
  - apply Forall_app. split; [|exact Hl].
    simpl. repeat constructor; discriminate.
Qed.

(** *** The match at the marker *)

Lemma run_exact_chars_app : forall (R : Type) l sn r cp (k : mstate -> option R),
    run (exact_chars l) (MState sn (l ++ r) cp) k = k (MState (rev l ++ sn) r cp).
Proof.
  induction l as [|c l IH]; intros sn r cp k; simpl; [reflexivity|].
  rewrite Ascii.eqb_refl, IH, <- app_assoc. reflexivity.
Qed.

Lemma rep_greedy : forall (R : Type) p least ds count sn post cp
                          (k : mstate -> option R) r,
    forallb p ds = true ->
    match post with c :: _ => p c = false | [] => True end ->
    (least <= count + List.length ds)%nat ->
    k (MState (rev ds ++ sn) post cp) = Some r ->
    rep p least count sn (ds ++ post) cp k = Some r.
Proof.
  induction ds as [|d ds IH]; intros count sn post cp k r Hp Hpost Hl Hk; simpl in *.
  - assert (E : Nat.leb least count = true) by (apply Nat.leb_le; lia).
    destruct post as [|c post]; simpl; rewrite E; [exact Hk|].
    rewrite Hpost. exact Hk.
  - apply andb_true_iff in Hp. destruct Hp as [Hd Hp]. rewrite Hd.
    rewrite (IH (S count) (d :: sn) post cp k r Hp Hpost); [reflexivity | lia |].
    rewrite <- app_assoc in Hk. exact Hk.
Qed.

Lemma marker_matches : forall sn ds more,
    forallb is_digit ds = true -> ds <> [] ->
    run marker (MState sn (chars "[TogglID:" ++ ds ++ "]"%char :: more) []) accept
    = Some [(1%nat, ds)].
Proof.
  intros sn ds more Hd Hne. rewrite marker_run.
  change ("["%char :: chars "TogglID:") with (chars "[TogglID:").
  rewrite run_exact_chars_app.
  set (sn1 := (rev (chars "[TogglID:") ++ sn)%list).
  unfold marker_tail.
  change (rep is_digit 1 0 sn1 (ds ++ "]"%char :: more) []
              (fun st' =>
                 run (Cat (exact "]") Eps)
                   (MState (seen st') (Re.rest st')
                      ((1%nat, firstn (List.length (seen st') - List.length sn1)
                                      (ds ++ "]"%char :: more)) :: caps st'))
                   accept)
          = Some [(1%nat, ds)]).
  apply rep_greedy.
  - exact Hd.
  - reflexivity.
  - destruct ds; [contradiction | simpl; lia].
  - cbn [seen Re.rest caps]. rewrite length_app, length_rev.
    replace (List.length ds + List.length sn1 - List.length sn1)%nat
      with (List.length ds) by lia.
    rewrite firstn_app, firstn_all, Nat.sub_diag. cbn [firstn]. rewrite app_nil_r.
    reflexivity.
Qed.

Lemma search_finds_marker : forall pre ds more,
    stepped_over pre ->
    forallb is_digit ds = true -> ds <> [] ->
    search_from marker [] (pre ++ chars "[TogglID:" ++ ds ++ "]"%char :: more)
    = Some [(1%nat, ds)].
Proof.
  intros pre ds more Hpre Hd Hne.
  rewrite Hpre, search_from_eq, (marker_matches _ ds more Hd Hne). reflexivity.
Qed.

(** *** The logged text *)

Lemma chars_join_snoc : forall parts m,
    chars (join " " (parts ++ [m])) = (spaced parts ++ chars m)%list.
Proof.
  induction parts as [|p parts IH]; intros m; [reflexivity|].
  assert (E : join " " ((p :: parts) ++ [m]) = p ++ " " ++ join " " (parts ++ [m])).
  { destruct parts; reflexivity. }
  rewrite E, !chars_app, IH. unfold spaced. simpl.
  rewrite <- !app_assoc. reflexivity.
Qed.

Lemma stepped_over_spaced : forall parts,
    Forall (fun p => stepped_over (chars p)) parts -> stepped_over (spaced parts).
Proof.
  induction parts as [|p parts IH]; intros H; [apply stepped_over_nil|].
  inversion H as [|? ? Hp Hrest]; subst.
  unfold spaced. simpl. rewrite <- app_assoc.
  apply stepped_over_app; [exact Hp|].
  apply (stepped_over_app [" "%char]); [|apply IH; exact Hrest].
  apply stepped_over_bracket_free. repeat constructor. discriminate.
Qed.

(** The parts of the logged text that come before the marker. *)
Lemma log_description_parts : forall cfg e,
    PREVENT_DUPLICATES cfg = true ->
    exists parts,
      chars (log_description cfg e)
      = (spaced parts ++ chars "[TogglID:" ++ chars (str_of_id (id e)) ++ ["]"%char])%list
      /\ (bracket_free (description e) -> Forall bracket_free (tags e) ->
          Forall (fun p => stepped_over (chars p)) parts).
Proof.
  intros cfg e Hprevent. unfold log_description. rewrite Hprevent.
  set (T := match tags e with
            | [] => []
            | _ :: _ => ["[Tags: " ++ join ", " (tags e) ++ "]"]
            end).
  set (B := if billable e then ["[Billable]"] else []).
  set (R := if original_duration e =? duration e then []
            else ["[Rounded: " ++ format_duration (original_duration e) ++ " "
                  ++ arrow ++ " " ++ format_duration (duration e) ++ "]"]).
  exists (List.app ["Toggl: " ++ description e] (List.app T (List.app B R))). split.
  - replace (List.app ["Toggl: " ++ description e]
               (List.app T (List.app B
                  (List.app R ["[TogglID:" ++ str_of_id (id e) ++ "]"]))))
      with (List.app (List.app ["Toggl: " ++ description e] (List.app T (List.app B R)))
                     ["[TogglID:" ++ str_of_id (id e) ++ "]"])
      by (rewrite <- !app_assoc; reflexivity).
    rewrite chars_join_snoc, !chars_app. reflexivity.
  - intros Hd Ht.
    apply Forall_app. split; [|apply Forall_app; split; [|apply Forall_app; split]].
    + constructor; [|constructor]. apply stepped_over_text.
      apply bracket_free_app; [|exact Hd].
      unfold bracket_free. simpl. repeat constructor; discriminate.
    + unfold T. destruct (tags e) as [|t ts] eqn:Et; constructor; [|constructor].
      rewrite chars_app. apply stepped_over_tags_bracket.
      apply (bracket_free_app (join ", " (t :: ts)) "]").
      * apply join_bracket_free; [|exact Ht].
        unfold bracket_free. simpl. repeat constructor; discriminate.
      * unfold bracket_free. simpl. repeat constructor; discriminate.
    + unfold B. destruct (billable e); constructor; [|constructor].
      apply (stepped_over_other_bracket "B" (chars "illable]")); [discriminate|].
      simpl. repeat constructor; discriminate.
    + unfold R. destruct (original_duration e =? duration e); constructor; [|constructor].
      rewrite chars_app.
      apply (stepped_over_other_bracket "R"
               (chars "ounded: " ++
                chars (format_duration (original_duration e) ++ " " ++ arrow ++ " "
                       ++ format_duration (duration e) ++ "]"))); [discriminate|].
      constructor; [discriminate|]. apply Forall_app. split.
      * simpl. repeat constructor; discriminate.
      * repeat first
          [ apply format_duration_bracket_free
          | apply bracket_free_app
          | (unfold bracket_free; simpl; repeat constructor; discriminate) ].
Qed.

(** The scan of any text without a bracket followed by the logged text
    recovers the id of the entry. *)
Lemma marker_id_after : forall cfg e a,
    PREVENT_DUPLICATES cfg = true ->
    numeric (str_of_id (id e)) ->
    bracket_free (description e) ->
    Forall bracket_free (tags e) ->
    bracket_free a ->
    marker_id (a ++ log_description cfg e) = Some (str_of_id (id e)).
Proof.
  intros cfg e a Hprevent [Hdigits Hne] Hd Ht Ha.
  destruct (log_description_parts cfg e Hprevent) as (parts & Hchars & Hparts).
  unfold marker_id, re_search. rewrite chars_app, Hchars, app_assoc.
  rewrite (search_finds_marker (chars a ++ spaced parts) (chars (str_of_id (id e))) []).
  - unfold group. simpl. rewrite text_chars. reflexivity.
  - apply stepped_over_app; [apply stepped_over_text; exact Ha|].
    apply stepped_over_spaced. apply Hparts; assumption.
  - exact Hdigits.
  - intros E. apply Hne. rewrite <- (text_chars (str_of_id (id e))), E. reflexivity.
Qed.

Lemma scan_markers_keeps : forall l ids i,
    In i ids -> In i (scan_markers l ids).
Proof.
  induction l as [|x l IH]; intros ids i H; simpl; [exact H|].
  destruct (marker_id (summary x)); apply IH; [|exact H].
  apply in_or_app. left. exact H.
Qed.

Lemma scan_markers_finds : forall l ids x i,
    In x l -> marker_id (summary x) = Some i -> In i (scan_markers l ids).
Proof.
  induction l as [|y l IH]; intros ids x i Hin Hm; [contradiction|].
  simpl. destruct Hin as [-> | Hin].
  - rewrite Hm. apply scan_markers_keeps. apply in_or_app. right. left. reflexivity.
  - destruct (marker_id (summary y)); apply (IH _ x i Hin Hm).
Qed.

(** With duplicate prevention on, the logged text ends in the marker of
    the entry. *)
Lemma log_description_ends_in_marker : forall cfg e,
    PREVENT_DUPLICATES cfg = true ->
    exists head,
      log_description cfg e = head ++ "[TogglID:" ++ str_of_id (id e) ++ "]".
Proof.
  intros cfg e Hprevent.
  destruct (log_description_parts cfg e Hprevent) as (parts & Hchars & _).
  exists (text (spaced parts)).
  rewrite <- (text_chars (log_description cfg e)), Hchars.
  rewrite <- (text_chars (text (spaced parts) ++ "[TogglID:" ++ str_of_id (id e) ++ "]")).
  rewrite !chars_app, chars_text. reflexivity.
Qed.

(** X1: with duplicate prevention on, the text logged for an entry whose
    id is numeric and whose description and tags hold no opening square
    bracket ends in the marker [[TogglID:<id>]] of the entry and yields,
    under the marker scan, the id of the entry; so once that text is
    among the entries of the issue, the entry is skipped as a duplicate
    and nothing is submitted for it. *)
Theorem X1_logged_marker_is_recovered :
  forall cfg f issue e existing st total,
    PREVENT_DUPLICATES cfg = true ->
    numeric (str_of_id (id e)) ->
    bracket_free (description e) ->
    Forall bracket_free (tags e) ->
    (exists head,
        log_description cfg e = head ++ "[TogglID:" ++ str_of_id (id e) ++ "]")
    /\ marker_id (log_description cfg e) = Some (str_of_id (id e))
    /\ ((exists x, In x existing /\ summary x = log_description cfg e) ->
        sync_entry cfg f issue (scan_markers existing []) e (st, total)
        = Ret (add_skipped 1 st, total)).
Proof.
  intros cfg f issue e existing st total Hprevent Hid Hd Ht.
  assert (Hm : marker_id (log_description cfg e) = Some (str_of_id (id e))).
  { apply (marker_id_after cfg e "" Hprevent Hid Hd Ht). constructor. }
  split; [apply log_description_ends_in_marker; exact Hprevent|].
  split; [exact Hm|].
  intros (x & Hx & Hs). unfold sync_entry. rewrite Hprevent.
  assert (Hmem : mem (str_of_id (id e)) (scan_markers existing []) = true).
  { apply mem_In. apply (scan_markers_finds existing [] x); [exact Hx|].
    rewrite Hs. exact Hm. }
  rewrite Hmem. reflexivity.
Qed.

Lemma X1_witness :
  (exists head,
      log_description Scenario.live Scenario.fix_entry = head ++ "[TogglID:1]")
  /\ marker_id (log_description Scenario.live Scenario.fix_entry) = Some "1".
Proof.
  destruct (X1_logged_marker_is_recovered Scenario.live Replay.iso_basic
              Scenario.issue_42 Scenario.fix_entry [] stats0 0)
    as (Hend & Hm & _).
  - reflexivity.
  - split; [reflexivity | discriminate].
  - unfold bracket_free. simpl. repeat constructor; discriminate.
  - constructor.
  - split; [exact Hend | exact Hm].
Defined.

(** *** Through the client *)

Lemma starts_with_app : forall p r, starts_with p (p ++ r) = true.
Proof.
  induction p as [|c p IH]; intros r; simpl; [reflexivity|].
  rewrite Ascii.eqb_refl, IH. reflexivity.
Qed.

Lemma contains_chars_eq : forall p l,
    contains_chars p l
    = (starts_with p l
       || match l with [] => false | _ :: t => contains_chars p t end)%bool.
Proof. intros p [|c l]; reflexivity. Qed.

Lemma contains_chars_app : forall p a b, contains_chars p (a ++ p ++ b) = true.
Proof.
  intros p a b. induction a as [|c a IH].
  - change ([] ++ p ++ b)%list with (p ++ b)%list.
    rewrite contains_chars_eq, starts_with_app. reflexivity.
  - change ((c :: a) ++ p ++ b)%list with (c :: (a ++ p ++ b))%list.
    rewrite contains_chars_eq, IH. apply orb_true_r.
Qed.

Lemma contains_app : forall p a b, contains p (a ++ p ++ b) = true.
Proof.
  intros p a b. unfold contains. rewrite !chars_app. apply contains_chars_app.
Qed.

















End RoundTripFacts.

(** ** What the counters count *)

Module AccountingFacts.
Import Text Re Calendar Toggl GitLab Sync Client Notions AccountingNotions ProgFacts.
Import RepeatFacts.

Lemma tally_app : forall p t1 t2, tally p (t1 ++ t2) = tally p t1 + tally p t2.
Proof.
  intros p t1 t2. unfold tally. rewrite filter_app, length_app. lia.
Qed.

Lemma tally_cons : forall p ev t,
    tally p (ev :: t) = (if p ev then 1 else 0) + tally p t.
Proof.
  intros p ev t. unfold tally. cbn [filter]. destruct (p ev); cbn [List.length]; lia.
Qed.

Lemma tally_nonneg : forall p t, 0 <= tally p t.
Proof. intros p t. unfold tally. lia. Qed.

Lemma fair_refl : forall cfg st, fair cfg 0 [] st st.
Proof.
  intros cfg st. unfold fair, tally. simpl. repeat split; lia.
Qed.

Lemma fair_trans : forall cfg n1 n2 t1 t2 st st1 st2,
    fair cfg n1 t1 st st1 -> fair cfg n2 t2 st1 st2 ->
    fair cfg (n1 + n2) (t1 ++ t2) st st2.
Proof.
  intros cfg n1 n2 t1 t2 st st1 st2 (P1 & L1 & E1 & T1 & D1) (P2 & L2 & E2 & T2 & D2).
  unfold fair. rewrite !tally_app.
  pose proof (tally_nonneg create_failed t1).
  pose proof (tally_nonneg create_failed t2).
  split; [lia|]. split; [lia|]. split; [|split; [lia|]].
  - intros Hz. rewrite E2, E1; lia.
  - intros Hlive. specialize (D1 Hlive). specialize (D2 Hlive). lia.
Qed.

Section Accounting.
Variable cfg : Config.
Variable f : string -> option datetime.

Lemma sync_entry_fair : forall issue ids e st total t st' total',
    Runs (sync_entry cfg f issue ids e (st, total)) t (st', total') ->
    fair cfg 1 t st st'.
Proof.
  intros issue ids e st total t st' total' H. unfold sync_entry in H.
  destruct (PREVENT_DUPLICATES cfg && mem (str_of_id (id e)) ids)%bool.
  { cbv beta iota zeta delta [Runs] in H.
    destruct H as [-> E]. injection E as <- _.
    unfold fair, settled, tally. simpl. repeat split; lia. }
  destruct (f (replace_Z (start e))) as [dt|].
  2:{ cbv beta iota zeta delta [Runs] in H.
      destruct H as [-> E]. injection E as <- _.
      unfold fair, settled, tally. simpl. repeat split; lia. }
  destruct (DRY_RUN cfg) eqn:Edry; cbv beta iota zeta delta [Runs negb] in H.
  { destruct H as [-> E]. injection E as <- _.
    unfold fair, settled, tally. simpl. repeat split; try lia; congruence. }
  destruct H as (r & t' & -> & H).
  destruct r as [[|]|]; cbv beta iota zeta delta [Runs] in H;
    destruct H as [-> E]; injection E as <- _;
    unfold fair, settled, tally; simpl; repeat split; lia.
Qed.

Lemma sync_loop_fair : forall issue ids entries st total t st' total',
    Runs (sync_loop cfg f issue ids entries (st, total)) t (st', total') ->
    fair cfg (len entries) t st st'.
Proof.
  induction entries as [|e more IH]; intros st total t st' total' H.
  - destruct H as [-> E]. injection E as <- _. apply fair_refl.
  - cbn [sync_loop] in H. apply Runs_bind_inv in H.
    destruct H as (t1 & [st1 total1] & t2 & H1 & H2 & ->).
    replace (len (e :: more)) with (1 + len more)
      by (unfold len; simpl List.length; lia).
    apply (fair_trans cfg 1 (len more) t1 t2 st st1 st').
    + apply (sync_entry_fair _ _ _ _ _ _ _ _ H1).
    + apply (IH _ _ _ _ _ H2).
Qed.

Lemma add_estimate_fair : forall issue total st t st',
    Runs (add_estimate cfg issue total st) t st' -> fair cfg 0 t st st'.
Proof.
  intros issue total st t st' H. unfold add_estimate in H.
  destruct (ADD_TIME_ESTIMATES cfg && (0 <? total) && negb (DRY_RUN cfg))%bool.
  2:{ destruct H as [-> <-]. apply fair_refl. }
  simpl in H. destruct H as (r & t' & -> & H).
  destruct r as [current|].
  2:{ destruct H as [-> <-]. unfold fair, settled, tally. simpl. repeat split; lia. }
  destruct (match current with None => true | Some x => x =? 0 end).
  2:{ destruct H as [-> <-]. unfold fair, settled, tally. simpl. repeat split; lia. }
  simpl in H. destruct H as (r2 & t2 & -> & H).
  destruct r2 as [[|]|]; destruct H as [-> <-];
    unfold fair, settled, tally; simpl; repeat split; lia.
Qed.

Lemma add_summary_fair : forall issue entries total st t st',
    Runs (add_summary cfg issue entries total st) t st' -> fair cfg 0 t st st'.
Proof.
  intros issue entries total st t st' H. unfold add_summary in H.
  destruct ((1 <? len entries) && negb (DRY_RUN cfg))%bool.
  - simpl in H. destruct H as (r & t' & -> & [-> <-]).
    unfold fair, settled, tally. simpl. repeat split; lia.
  - destruct H as [-> <-]. apply fair_refl.
Qed.

Lemma fetch_existing_quiet : forall issue t ids,
    Runs (fetch_existing cfg issue) t ids ->
    forall st, fair cfg 0 t st st.
Proof.
  intros issue t ids H st. unfold fetch_existing in H.
  destruct (PREVENT_DUPLICATES cfg).
  - simpl in H. destruct H as (r & t' & -> & H).
    destruct r as [l|]; destruct H as [-> _];
      unfold fair, settled, tally; simpl; repeat split; lia.
  - destruct H as [-> _]. apply fair_refl.
Qed.

Lemma sync_entries_to_issue_fair : forall issue entries st t st',
    Runs (sync_entries_to_issue cfg f issue entries st) t st' ->
    fair cfg (len entries) t st st'.
Proof.
  intros issue entries st t st' H. unfold sync_entries_to_issue in H.
  apply Runs_bind_inv in H. destruct H as (t0 & ids & t1 & H0 & H & ->).
  apply Runs_bind_inv in H. destruct H as (t2 & [st2 total2] & t3 & H2 & H & ->).
  apply Runs_bind_inv in H. destruct H as (t4 & st4 & t5 & H4 & H5 & ->).
  cbn [fst snd] in *.
  replace (len entries) with (0 + (len entries + (0 + 0))) by lia.
  apply (fair_trans cfg _ _ _ _ st st st'); [apply (fetch_existing_quiet _ _ _ H0)|].
  apply (fair_trans cfg _ _ _ _ st st2 st'); [apply (sync_loop_fair _ _ _ _ _ _ _ _ H2)|].
  apply (fair_trans cfg _ _ _ _ st2 st4 st');
    [apply (add_estimate_fair _ _ _ _ _ H4) | apply (add_summary_fair _ _ _ _ _ _ H5)].
Qed.

Lemma sync_or_skip_fair : forall issue entries st t st',
    Runs (sync_or_skip cfg f issue entries st) t st' ->
    fair cfg (len entries) t st st'.
Proof.
  intros [issue|] entries st t st' H; simpl in H.
  - apply (sync_entries_to_issue_fair _ _ _ _ _ H).
  - destruct H as [-> <-]. unfold fair, settled, tally. simpl. repeat split; lia.
Qed.

Lemma fair_created : forall n t st st',
    fair cfg n t (add_created 1 st) st' -> DRY_RUN cfg = true -> fair cfg n t st st'.
Proof.
  intros n t st st' (P & L & E & T & D) Hdry. unfold fair, settled in *. simpl in *.
  split; [lia|]. split; [lia|]. split; [exact E|]. split; [lia|].
  intros Hlive; rewrite Hdry in Hlive; discriminate.
Qed.

Lemma create_or_skip_fair : forall tid name entries total st t st',
    entries <> [] ->
    Runs (create_or_skip cfg f tid name entries total st) t st' ->
    fair cfg (len entries) t st st'.
Proof.
  intros tid name entries total st t st' Hne H. unfold create_or_skip in H.
  assert (Hlen : 1 <= len entries).
  { destruct entries; [contradiction|]. unfold len. simpl List.length. lia. }
  destruct (should_create_issue cfg name); [|apply (sync_or_skip_fair _ _ _ _ _ H)].
  destruct (AUTO_CREATE_ISSUES cfg).
  2:{ destruct H as [-> <-]. unfold fair, settled, tally. simpl. repeat split; lia. }
  destruct (DRY_RUN cfg) eqn:Edry; cbn [negb] in H.
  { apply fair_created; [|exact Edry]. apply (sync_or_skip_fair _ _ _ _ _ H). }
  cbn [Runs] in H. destruct H as (r & t' & -> & H).
  destruct r as [issue|].
  - apply sync_or_skip_fair in H. destruct H as (P & L & E & T & D).
    unfold fair. rewrite !tally_cons.
    cbn [create_failed accepted rejected created_ok estimated].
    destruct (ADD_TIME_ESTIMATES cfg); [destruct (scale_estimate cfg total =? 0)|];
      unfold settled in *; cbn -[Z.add tally] in *;
      (split; [lia|]; split; [lia|]; split; [|split; [lia|]];
       [intros Hz; rewrite E; lia | intros Hlive; specialize (D Hlive); lia]).
  - destruct H as [-> <-]. unfold fair, settled, tally. simpl.
    repeat split; lia.
Qed.

(** A group: its entries are counted as processed, and accounted for. *)
Lemma sync_ticket_entries_fair : forall k entries st t st',
    entries <> [] ->
    Runs (sync_ticket_entries cfg f k entries st) t st' ->
    fair cfg (len entries) t (add_processed (len entries) st) st'.
Proof.
  intros [tid name] entries st t st' Hne H. unfold sync_ticket_entries in H.
  apply Runs_bind_inv in H. destruct H as (t1 & found & t2 & H1 & H2 & ->).
  assert (Hfind : forall s, fair cfg 0 t1 s s).
  { intros s. destruct (truthy_opt tid).
    - simpl in H1. destruct H1 as (r & t' & -> & [-> _]).
      unfold fair, settled, tally. simpl. repeat split; lia.
    - destruct H1 as [-> _]. apply fair_refl. }
  replace (len entries) with (0 + len entries) by lia.
  apply (fair_trans cfg _ _ _ _ _ _ _ (Hfind _)).
  destruct found as [issue|].
  - apply (sync_or_skip_fair _ _ _ _ _ H2).
  - destruct name as [name|]; [|apply (sync_or_skip_fair _ _ _ _ _ H2)].
    destruct (truthy name && truthy (strip name))%bool.
    + apply (create_or_skip_fair _ _ _ _ _ _ _ Hne H2).
    + apply (sync_or_skip_fair _ _ _ _ _ H2).
Qed.

Lemma sync_groups_fair : forall groups st t st',
    Forall (fun g : key * list Entry => snd g <> []) groups ->
    Runs (sync_groups cfg f groups st) t st' ->
    fair cfg (group_count groups) t (add_processed (group_count groups) st) st'.
Proof.
  induction groups as [|[k entries] more IH]; intros st t st' Hne H.
  - destruct H as [-> <-]. unfold fair, settled, tally. simpl. repeat split; lia.
  - cbn [sync_groups] in H. apply Runs_bind_inv in H.
    destruct H as (t1 & st1 & t2 & H1 & H2 & ->).
    inversion Hne as [|? ? Hn Hmore]; subst. simpl in Hn.
    pose proof (sync_ticket_entries_fair k entries st t1 st1 Hn H1) as F1.
    pose proof (IH st1 t2 st' Hmore H2) as F2.
    change (group_count ((k, entries) :: more)) with (len entries + group_count more).
    destruct F1 as (P1 & L1 & E1 & T1 & D1). destruct F2 as (P2 & L2 & E2 & T2 & D2).
    unfold fair, settled in *. simpl in *. rewrite !tally_app.
    pose proof (tally_nonneg create_failed t1).
    pose proof (tally_nonneg create_failed t2).
    split; [lia|]. split; [lia|]. split; [|split; [lia|]].
    + intros Hz. rewrite E2, E1; lia.
    + intros Hlive. specialize (D1 Hlive). specialize (D2 Hlive). lia.
Qed.

Lemma sync_time_entries_fair : forall raw st t st',
    Runs (sync_time_entries cfg f raw st) t st' ->
    let n := len (process_time_entries f raw (MINIMUM_DURATION cfg)
                    (ROUND_TIME_TO_MINUTES cfg) (EXCLUDE_WEEKENDS cfg)) in
    processed_entries st' = processed_entries st + n
    /\ fair cfg n t (add_processed n st) st'.
Proof.
  intros raw st t st' H. unfold sync_time_entries in H.
  destruct raw as [|r0 raw'].
  { destruct H as [-> <-]. unfold process_time_entries.
    destruct (EXCLUDE_WEEKENDS cfg); cbn; unfold fair, settled, tally; cbn;
      repeat split; lia. }
  set (processed := process_time_entries f (r0 :: raw') (MINIMUM_DURATION cfg)
                      (ROUND_TIME_TO_MINUTES cfg) (EXCLUDE_WEEKENDS cfg)) in *.
  apply Runs_bind_inv in H. destruct H as (t1 & st1 & t2 & H1 & [-> <-] & ->).
  rewrite app_nil_r.
  pose proof (sync_groups_fair (group_entries_by_ticket processed) st t1 st1
                (group_entries_nonempty processed) H1) as F.
  destruct (group_entries_grouped (fun _ => True) processed) as [_ Hc];
    [intros; exact I|].
  rewrite Hc in F. cbv zeta.
  destruct F as (P & L & E & T & D).
  unfold fair, settled in *. cbn -[Z.add tally] in *.
  split; [lia|]. split; [lia|]. split; [lia|]. split; [|split; [lia|]].
  - intros Hx. rewrite E; [lia | exact Hx].
  - intros Hx. specialize (D Hx). lia.
Qed.

End Accounting.

(** X3.  Every run counts each processed entry once in
    [processed_entries]; [synced_entries + skipped_entries + errors]
    grows by at most that number, and by exactly that number when no
    issue creation failed during the run. *)
Theorem X3_counters_account_for_processed_entries :
  forall cfg f raw st t st',
    Runs (sync_time_entries cfg f raw st) t st' ->
    let n := len (process_time_entries f raw (MINIMUM_DURATION cfg)
                    (ROUND_TIME_TO_MINUTES cfg) (EXCLUDE_WEEKENDS cfg)) in
    processed_entries st' = processed_entries st + n
    /\ settled st' <= settled st + n
    /\ (tally create_failed t = 0 -> settled st' = settled st + n).
Proof.
  intros cfg f raw st t st' H.
  destruct (sync_time_entries_fair cfg f raw st t st' H) as (P & _ & L & E & _).
  unfold settled in *. cbn -[Z.add tally] in *.
  split; [exact P|]. split; [exact L | exact E].
Qed.

(** With issue creation out of order, the two entries of a group
    without an issue leave one error, and nothing else, in the
    counters. *)
Lemma X3_witness :
  let r := exec gitlab_without_creation
             (sync_time_entries Scenario.live Replay.iso_basic
                [Scenario.dashboard; dashboard_again] stats0) [] in
  processed_entries (fst (fst r)) = 2 /\ settled (fst (fst r)) = 1.
Proof.
  destruct (X3_counters_account_for_processed_entries
              Scenario.live Replay.iso_basic
              [Scenario.dashboard; dashboard_again] stats0
              (snd (exec gitlab_without_creation
                      (sync_time_entries Scenario.live Replay.iso_basic
                         [Scenario.dashboard; dashboard_again] stats0) []))
              (fst (fst (exec gitlab_without_creation
                      (sync_time_entries Scenario.live Replay.iso_basic
                         [Scenario.dashboard; dashboard_again] stats0) []))))
    as (P & _ & _).
  - exact (exec_Runs Stats gitlab_without_creation
             (sync_time_entries Scenario.live Replay.iso_basic
                [Scenario.dashboard; dashboard_again] stats0) []).
  - split; [rewrite P; vm_compute; reflexivity | vm_compute; reflexivity].
Defined.

(** X4.  What the counters of a run count.  [time_estimates_added]
    grows by the number of estimates the tracker confirmed plus the
    number of issues created with an estimate.  In a live run
    [synced_entries] grows by the number of submissions answered
    [True], [created_issues] by the number of issues the tracker
    returned, and [errors] by at least the number of refused
    submissions and failed creations. *)
Theorem X4_live_counters_count_the_answers :
  forall cfg f raw st t st',
    Runs (sync_time_entries cfg f raw st) t st' ->
    time_estimates_added st' = time_estimates_added st + tally estimated t
    /\ (DRY_RUN cfg = false ->
        synced_entries st' = synced_entries st + tally accepted t
        /\ created_issues st' = created_issues st + tally created_ok t
        /\ errors st + tally rejected t + tally create_failed t <= errors st').
Proof.
  intros cfg f raw st t st' H.
  destruct (sync_time_entries_fair cfg f raw st t st' H) as (_ & _ & _ & _ & T & D).
  cbn -[Z.add tally] in *. split; [exact T | exact D].
Qed.

Lemma X4_witness :
  let r := Scenario.replay Scenario.live
             [Scenario.fix_42; Scenario.dashboard; Scenario.undated]
             Scenario.tracker_42 in
  synced_entries (Scenario.counters r) = 2
  /\ created_issues (Scenario.counters r) = 1
  /\ 0 <= errors (Scenario.counters r).
Proof.
  destruct (X4_live_counters_count_the_answers
              Scenario.live Replay.iso_basic
              [Scenario.fix_42; Scenario.dashboard; Scenario.undated] stats0
              (Scenario.calls (Scenario.replay Scenario.live
                 [Scenario.fix_42; Scenario.dashboard; Scenario.undated]
                 Scenario.tracker_42))
              (Scenario.counters (Scenario.replay Scenario.live
                 [Scenario.fix_42; Scenario.dashboard; Scenario.undated]
                 Scenario.tracker_42)))
    as (_ & D).
  - exact (exec_Runs Stats Replay.gitlab
             (sync_time_entries Scenario.live Replay.iso_basic
                [Scenario.fix_42; Scenario.dashboard; Scenario.undated] stats0)
             Scenario.tracker_42).
  - destruct (D eq_refl) as (S & C & E).
    split; [rewrite S; vm_compute; reflexivity|].
    split; [rewrite C; vm_compute; reflexivity|].
    etransitivity; [|exact E]. vm_compute. discriminate.
Defined.

End AccountingFacts.

(** ** What the normaliser hands to the reconciler *)

Module ProcessingFacts.
Import Text Re Calendar Toggl GitLab Sync Notions ProgFacts Rounding WeekendFacts.

Lemma round_time_positive_multiple : forall d r,
    0 < d -> 0 < r -> exists k, 0 < k /\ round_time d r = k * (r * 60).
Proof.
  intros d r Hd Hr. rewrite (round_time_unit d r Hd Hr).
  pose proof (round_div_nonneg d (r * 60) Hd ltac:(lia)) as Hn.
  destruct (round_div d (r * 60) =? 0) eqn:E.
  - exists 1. split; lia.
  - apply Z.eqb_neq in E. exists (round_div d (r * 60)). split; lia.
Qed.

Lemma round_time_positive : forall d r, 0 < d -> 0 < round_time d r.
Proof.
  intros d r Hd. destruct (Z_lt_le_dec 0 r) as [Hr | Hr].
  - destruct (round_time_positive_multiple d r Hd Hr) as (k & Hk & ->). nia.
  - unfold round_time. replace (r <=? 0) with true by (symmetry; apply Z.leb_le; lia).
    exact Hd.
Qed.

Lemma process_loop_In : forall m r entries processed e,
    In e (process_loop m r entries processed) ->
    In e processed
    \/ exists x, In x entries /\ process_entry m r x = Some e.
Proof.
  induction entries as [|x rest IH]; intros processed e H; simpl in H.
  - left. exact H.
  - destruct (process_entry m r x) as [pe|] eqn:E.
    + destruct (IH _ _ H) as [Hin | (y & Hy & Hp)].
      * apply in_app_or in Hin. destruct Hin as [Hin | [<- | []]].
        -- left. exact Hin.
        -- right. exists x. split; [left; reflexivity | exact E].
      * right. exists y. split; [right; exact Hy | exact Hp].
    + destruct (IH _ _ H) as [Hin | (y & Hy & Hp)].
      * left. exact Hin.
      * right. exists y. split; [right; exact Hy | exact Hp].
Qed.

Lemma process_time_entries_In : forall f raw m r w e,
    In e (process_time_entries f raw m r w) ->
    exists x, In x raw /\ process_entry m r x = Some e
              /\ (w = true -> keeps f x = true).
Proof.
  intros f raw m r w e H. unfold process_time_entries in H.
  apply process_loop_In in H. destruct H as [[] | (x & Hx & Hp)].
  exists x. destruct w.
  - rewrite filter_by_weekdays_filter in Hx. apply filter_In in Hx.
    destruct Hx as [Hx Hk]. split; [exact Hx | split; [exact Hp | intros _; exact Hk]].
  - split; [exact Hx | split; [exact Hp | discriminate]].
Qed.

Lemma processed_duration : forall f raw m r w e,
    In e (process_time_entries f raw m r w) ->
    0 < duration e
    /\ (0 < r -> exists k, 0 < k /\ duration e = k * (r * 60)).
Proof.
  intros f raw m r w e H.
  destruct (process_time_entries_In f raw m r w e H) as (x & _ & Hp & _).
  unfold process_entry in Hp.
  destruct (raw_duration x <=? 0) eqn:E0; [discriminate|].
  destruct (raw_duration x <? m); [discriminate|].
  destruct (raw_start x); [|discriminate].
  injection Hp as <-. cbn [duration]. apply Z.leb_gt in E0.
  split; [apply round_time_positive; exact E0|].
  intros Hr. apply round_time_positive_multiple; assumption.
Qed.

(** X5.  Every entry the normaliser returns comes from a raw entry of
    the input that has a start, a positive duration and at least the
    minimum duration; it keeps the id, the description, the start, the
    tags and the billable flag of that entry, its [original_duration]
    is the raw duration, and its [duration] is positive.  With a
    positive granularity the duration is a positive multiple of the
    unit.  With the weekend filter on, the raw entry passed it. *)
Theorem X5_processed_entries_have_positive_rounded_durations :
  forall f raw m r w e,
    In e (process_time_entries f raw m r w) ->
    exists x,
      In x raw
      /\ raw_start x = Some (start e)
      /\ id e = raw_id x
      /\ description e = raw_description x
      /\ tags e = raw_tags x
      /\ billable e = raw_billable x
      /\ original_duration e = raw_duration x
      /\ 0 < original_duration e
      /\ m <= original_duration e
      /\ 0 < duration e
      /\ (0 < r -> exists k, 0 < k /\ duration e = k * (r * 60))
      /\ (w = true -> keeps f x = true).
Proof.
  intros f raw m r w e H.
  destruct (process_time_entries_In f raw m r w e H) as (x & Hx & Hp & Hw).
  exists x. unfold process_entry in Hp.
  destruct (raw_duration x <=? 0) eqn:E0; [discriminate|].
  destruct (raw_duration x <? m) eqn:E1; [discriminate|].
  destruct (raw_start x) as [st|] eqn:Es; [|discriminate].
  injection Hp as <-. cbn [start id description tags billable original_duration duration].
  apply Z.leb_gt in E0. apply Z.ltb_ge in E1.
  repeat (split; [solve [reflexivity | assumption | lia]|]).
  split; [apply round_time_positive; exact E0|].
  split; [|exact Hw].
  intros Hr. apply round_time_positive_multiple; assumption.
Qed.

Lemma X5_witness :
  exists k, 0 < k /\ duration Scenario.fix_entry = k * (15 * 60).
Proof.
  destruct (X5_processed_entries_have_positive_rounded_durations
              Replay.iso_basic [Scenario.fix_42; Scenario.meeting] 300 15 false
              Scenario.fix_entry)
    as (x & _ & _ & _ & _ & _ & _ & _ & _ & _ & _ & Hk & _).
  - left. reflexivity.
  - apply Hk. reflexivity.
Defined.

(** *** Rounding is monotone and stable *)

Lemma round_div_monotone : forall a1 a2 b,
    0 < b -> a1 <= a2 -> round_div a1 b <= round_div a2 b.
Proof.
  intros a1 a2 b Hb Hle.
  destruct (@round_div_cases a1 b Hb) as (H1 & R1 & C1).
  destruct (@round_div_cases a2 b Hb) as (H2 & R2 & C2).
  set (q1 := a1 / b) in *. set (r1 := a1 mod b) in *.
  set (q2 := a2 / b) in *. set (r2 := a2 mod b) in *.
  assert (Hq : q1 <= q2) by (apply Z.div_le_mono; lia).
  assert (Hcase : q1 = q2 \/ q1 + 1 <= q2) by lia.
  destruct Hcase as [Heq | Hlt].
  - assert (Hr : r1 <= r2) by nia.
    destruct C1 as [[A1 E1] | [[A1 E1] | (A1 & V1 & [E1 | E1])]];
      destruct C2 as [[A2 E2] | [[A2 E2] | (A2 & V2 & [E2 | E2])]];
      rewrite ?E1, ?E2; try lia.
    rewrite E1 in V1. rewrite E2 in V2. rewrite Heq in V1.
    rewrite Z.even_add in V1. rewrite V2 in V1. discriminate.
  - destruct C1 as [[A1 E1] | [[A1 E1] | (A1 & V1 & [E1 | E1])]];
      destruct C2 as [[A2 E2] | [[A2 E2] | (A2 & V2 & [E2 | E2])]];
      rewrite ?E1, ?E2; lia.
Qed.

Lemma round_div_multiple : forall k b, 0 < b -> round_div (k * b) b = k.
Proof.
  intros k b Hb. unfold round_div.
  rewrite Z.div_mul by lia. rewrite Z.mod_mul by lia.
  replace (2 * 0 <? b) with true by (symmetry; apply Z.ltb_lt; lia).
  reflexivity.
Qed.

Lemma round_div_nonpos : forall d b, 0 < b -> d <= 0 -> round_div d b <= 0.
Proof.
  intros d b Hb Hd.
  pose proof (round_div_monotone d 0 b Hb Hd) as H0.
  pose proof (round_div_multiple 0 b Hb) as Hz. rewrite Z.mul_0_l in Hz.
  rewrite Hz in H0. exact H0.
Qed.

(** X6.  A longer entry is never logged with less time: [round_time]
    is monotone in the duration, whatever the granularity. *)
Theorem X6_round_time_is_monotone : forall d1 d2 r,
    d1 <= d2 -> round_time d1 r <= round_time d2 r.
Proof.
  intros d1 d2 r Hle. unfold round_time.
  destruct (r <=? 0) eqn:Er; [exact Hle|].
  apply Z.leb_gt in Er.
  pose proof (round_div_monotone d1 d2 (r * 60) ltac:(lia) Hle) as Hm.
  assert (Hneg : forall d, d <= 0 -> round_div d (r * 60) <= 0).
  { intros d Hd. apply round_div_nonpos; lia. }
  assert (Hpos : forall d, 0 < d -> 0 <= round_div d (r * 60)).
  { intros d Hd. apply round_div_nonneg; lia. }
  set (u := r * 60) in *. assert (Hu : 0 < u) by (unfold u; lia).
  set (A1 := round_div d1 u) in *. set (A2 := round_div d2 u) in *.
  assert (Hmul : A1 * u <= A2 * u) by (apply Z.mul_le_mono_nonneg_r; lia).
  assert (Z1 : A1 * u = 0 <-> A1 = 0) by (split; intros; nia).
  assert (Z2 : A2 * u = 0 <-> A2 = 0) by (split; intros; nia).
  assert (S1 : 1 <= A1 -> u <= A1 * u) by (intros; nia).
  assert (S2 : 1 <= A2 -> u <= A2 * u) by (intros; nia).
  assert (N1 : A1 <= 0 -> A1 * u <= 0) by (intros; nia).
  assert (N2 : 0 <= A2 -> 0 <= A2 * u) by (intros; nia).
  assert (G1 : d1 <= 0 -> A1 <= 0) by (intros; apply Hneg; lia).
  assert (G2 : d2 <= 0 -> A2 <= 0) by (intros; apply Hneg; lia).
  assert (G3 : 0 < d1 -> 0 <= A1) by (intros; apply Hpos; lia).
  assert (G4 : 0 < d2 -> 0 <= A2) by (intros; apply Hpos; lia).
  destruct (Z.eqb_spec (A1 * u) 0); destruct (Z.ltb_spec 0 d1);
    destruct (Z.eqb_spec (A2 * u) 0); destruct (Z.ltb_spec 0 d2); cbn [andb]; lia.
Qed.

Lemma X6_witness : round_time 650 15 <= round_time 1400 15.
Proof. apply (X6_round_time_is_monotone 650 1400 15). lia. Defined.

(** X7.  Rounding a rounded duration changes nothing. *)
Theorem X7_round_time_is_idempotent : forall d r,
    round_time (round_time d r) r = round_time d r.
Proof.
  intros d r.
  destruct (r <=? 0) eqn:Er.
  { unfold round_time. rewrite Er. reflexivity. }
  apply Z.leb_gt in Er.
  assert (Hk : forall k, (0 < k \/ (k <= 0 /\ d <= 0)) ->
                         round_time (k * (r * 60)) r = k * (r * 60)).
  { intros k Hcase. unfold round_time.
    replace (r <=? 0) with false by (symmetry; apply Z.leb_gt; lia).
    rewrite round_div_multiple by lia.
    destruct (Z.eqb_spec (k * (r * 60)) 0); [|reflexivity].
    destruct (Z.ltb_spec 0 (k * (r * 60))); [lia | cbn [andb]; reflexivity]. }
  assert (Hform : exists k, (0 < k \/ (k <= 0 /\ d <= 0))
                            /\ round_time d r = k * (r * 60)).
  { unfold round_time.
    replace (r <=? 0) with false by (symmetry; apply Z.leb_gt; lia).
    destruct (Z.eqb_spec (round_div d (r * 60) * (r * 60)) 0) as [E0 | E0];
      destruct (Z.ltb_spec 0 d) as [Ed | Ed]; cbn [andb].
    - exists 1. split; lia.
    - exists 0. split; lia.
    - exists (round_div d (r * 60)). split; [left | reflexivity].
      pose proof (round_div_nonneg d (r * 60) Ed ltac:(lia)). nia.
    - exists (round_div d (r * 60)). split; [right | reflexivity].
      pose proof (round_div_nonpos d (r * 60) ltac:(lia) Ed). lia. }
  destruct Hform as (k & Hcase & ->). apply Hk. exact Hcase.
Qed.

(** *** The time totals *)

Lemma sum_from : forall l a,
    fold_left (fun acc e => acc + duration e) l a = a + sum_durations l.
Proof.
  unfold sum_durations. induction l as [|e l IH]; intros a; simpl.
  - lia.
  - rewrite IH. rewrite (IH (duration e)). lia.
Qed.

Lemma sum_durations_cons : forall e l,
    sum_durations (e :: l) = duration e + sum_durations l.
Proof.
  intros e l. unfold sum_durations at 1. simpl. rewrite sum_from. lia.
Qed.

Lemma sum_where_le : forall (p q : Entry -> bool) l,
    (forall e, In e l -> 0 <= duration e) ->
    (forall e, p e = true -> q e = true) ->
    0 <= sum_where p l <= sum_where q l.
Proof.
  intros p q l Hpos Hpq. unfold sum_where.
  induction l as [|e l IH]; [unfold sum_durations; simpl; lia|].
  assert (He : 0 <= duration e) by (apply Hpos; left; reflexivity).
  assert (IH' : 0 <= sum_durations (filter p l) <= sum_durations (filter q l)).
  { apply IH. intros x Hx. apply Hpos. right. exact Hx. }
  cbn [filter]. destruct (p e) eqn:Ep.
  - rewrite (Hpq e Ep). rewrite !sum_durations_cons. lia.
  - destruct (q e); rewrite ?sum_durations_cons; lia.
Qed.

Lemma sum_where_all : forall (p : Entry -> bool) l,
    (forall e, In e l -> p e = true) -> sum_where p l = sum_durations l.
Proof.
  intros p l H. unfold sum_where.
  induction l as [|e l IH]; [reflexivity|].
  cbn [filter]. rewrite (H e (or_introl eq_refl)).
  rewrite !sum_durations_cons, IH; [reflexivity|].
  intros x Hx. apply H. right. exact Hx.
Qed.

(** X8.  After a run over a non-empty list of raw entries the time
    totals are computed from the processed entries alone, whatever the
    tracker answered: [billable_time_synced] lies between zero and
    [total_time_synced], which is at most the time of all processed
    entries.  When the billable filter is off and the minimum duration
    does not exceed the rounding unit, [total_time_synced] is the time
    of all processed entries. *)
Theorem X8_time_totals_come_from_the_processed_entries :
  forall cfg f raw st t st',
    raw <> [] ->
    Runs (sync_time_entries cfg f raw st) t st' ->
    let processed := process_time_entries f raw (MINIMUM_DURATION cfg)
                       (ROUND_TIME_TO_MINUTES cfg) (EXCLUDE_WEEKENDS cfg) in
    0 <= billable_time_synced st' <= total_time_synced st'
    /\ total_time_synced st' <= sum_durations processed
    /\ (SYNC_ONLY_BILLABLE cfg = false ->
        0 < ROUND_TIME_TO_MINUTES cfg ->
        MINIMUM_DURATION cfg <= ROUND_TIME_TO_MINUTES cfg * 60 ->
        total_time_synced st' = sum_durations processed).
Proof.
  intros cfg f raw st t st' Hne H processed. unfold sync_time_entries in H.
  destruct raw as [|r0 raw']; [contradiction|].
  fold processed in H.
  apply Runs_bind_inv in H. destruct H as (t1 & st1 & t2 & _ & [_ <-] & _).
  cbn [billable_time_synced total_time_synced set_totals].
  assert (Hpos : forall e, In e processed -> 0 <= duration e).
  { intros e He.
    destruct (processed_duration f (r0 :: raw') _ _ _ e He) as [Hd _]. lia. }
  split; [|split].
  - apply sum_where_le; [exact Hpos|].
    intros e He. apply andb_true_iff in He. tauto.
  - rewrite <- (sum_where_all (fun _ => true) processed) by reflexivity.
    apply sum_where_le; [exact Hpos | reflexivity].
  - intros Hb Hr Hm. apply sum_where_all. intros e He.
    destruct (processed_duration f (r0 :: raw') _ _ _ e He) as [_ Hk]. destruct (Hk Hr) as (k & Hk0 & Hd).
    unfold should_sync_entry. rewrite Hb. cbn [andb].
    destruct (Z.ltb_spec (duration e) (MINIMUM_DURATION cfg)); [nia | reflexivity].
Qed.

(** An entry that is skipped for want of an issue still counts in
    [total_time_synced]. *)
Lemma X8_witness :
  let r := Scenario.replay Scenario.live [Scenario.fix_42] [] in
  synced_entries (Scenario.counters r) = 0
  /\ total_time_synced (Scenario.counters r) = 900.
Proof.
  destruct (X8_time_totals_come_from_the_processed_entries
              Scenario.live Replay.iso_basic [Scenario.fix_42] stats0
              (Scenario.calls (Scenario.replay Scenario.live [Scenario.fix_42] []))
              (Scenario.counters (Scenario.replay Scenario.live [Scenario.fix_42] [])))
    as (_ & _ & H).
  - discriminate.
  - exact (exec_Runs Stats Replay.gitlab
             (sync_time_entries Scenario.live Replay.iso_basic
                [Scenario.fix_42] stats0) []).
  - split; [vm_compute; reflexivity|].
    rewrite H; [vm_compute; reflexivity | reflexivity | reflexivity
                | vm_compute; discriminate].
Defined.

End ProcessingFacts.

(** ** Grouping *)

Module GroupingFacts.
Import Text Toggl Sync Notions GroupingNotions RepeatFacts.

Lemma opt_eqb_refl : forall a, opt_eqb a a = true.
Proof. intros [x|]; simpl; [apply String.eqb_refl | reflexivity]. Qed.

Lemma key_eqb_refl : forall k : key, key_eqb k k = true.
Proof.
  intros [a b]. unfold key_eqb. simpl. rewrite !opt_eqb_refl. reflexivity.
Qed.

Lemma key_eqb_neq : forall a b : key, key_eqb a b = false -> a <> b.
Proof.
  intros a b H Heq. subst. rewrite key_eqb_refl in H. discriminate.
Qed.

Lemma has_key_In : forall (k : key) keys,
    existsb (fun k' => key_eqb k' k) keys = true <-> In k keys.
Proof.
  intros k keys. rewrite existsb_exists. split.
  - intros (x & Hx & E). apply key_eqb_eq in E. subst. exact Hx.
  - intros H. exists k. split; [exact H | apply key_eqb_refl].
Qed.

Lemma group_add_keys : forall k e groups,
    map fst (group_add k e groups)
    = if existsb (fun k' => key_eqb k' k) (map fst groups)
      then map fst groups
      else (map fst groups ++ [k])%list.
Proof.
  intros k e. induction groups as [|[k' es] more IH]; [reflexivity|].
  cbn [group_add map fst existsb].
  destruct (key_eqb k' k); cbn [orb map fst]; [reflexivity|].
  rewrite IH. destruct (existsb _ (map fst more)); reflexivity.
Qed.

Lemma with_key_snoc : forall k done e,
    with_key k (done ++ [e])
    = (with_key k done ++ (if key_eqb (entry_key e) k then [e] else []))%list.
Proof.
  intros k done e. unfold with_key. rewrite filter_app. reflexivity.
Qed.

Lemma with_key_absent : forall k done,
    (forall x, In x done -> entry_key x <> k) -> with_key k done = [].
Proof.
  intros k done H. unfold with_key. induction done as [|x done IH]; [reflexivity|].
  cbn [filter]. destruct (key_eqb (entry_key x) k) eqn:E.
  - apply key_eqb_eq in E. exfalso. apply (H x); [left; reflexivity | exact E].
  - apply IH. intros y Hy. apply H. right. exact Hy.
Qed.

(** One [append] keeps every group equal to the entries of its key. *)
Lemma group_add_with_key : forall done e groups,
    NoDup (map fst groups) ->
    Forall (fun g => snd g = with_key (fst g) done) groups ->
    (forall x, In x done -> entry_key x = entry_key e ->
               In (entry_key e) (map fst groups)) ->
    Forall (fun g => snd g = with_key (fst g) (done ++ [e]))
           (group_add (entry_key e) e groups).
Proof.
  intros done e. induction groups as [|[k' es] more IH]; intros Hnd Hg Hcov.
  - cbn [group_add]. constructor; [|constructor]. cbn [fst snd].
    rewrite with_key_snoc, key_eqb_refl.
    rewrite with_key_absent; [reflexivity|].
    intros x Hx Hk. exact (Hcov x Hx Hk).
  - cbn [group_add]. inversion Hg as [|? ? Hes Hmore]; subst.
    inversion Hnd as [|? ? Hnotin Hnd']; subst. cbn [fst snd] in *.
    destruct (key_eqb k' (entry_key e)) eqn:E.
    + apply key_eqb_eq in E. subst k'.
      constructor.
      * cbn [fst snd]. rewrite with_key_snoc, key_eqb_refl, Hes. reflexivity.
      * rewrite Forall_forall in Hmore |- *. intros g Hgin.
        rewrite with_key_snoc.
        destruct (key_eqb (entry_key e) (fst g)) eqn:E2.
        -- apply key_eqb_eq in E2. exfalso. apply Hnotin.
           rewrite E2. apply in_map. exact Hgin.
        -- rewrite app_nil_r. apply Hmore. exact Hgin.
    + constructor.
      * cbn [fst snd]. rewrite with_key_snoc.
        destruct (key_eqb (entry_key e) k') eqn:E2.
        -- apply key_eqb_eq in E2. rewrite <- E2, key_eqb_refl in E. discriminate.
        -- rewrite app_nil_r. exact Hes.
      * apply IH; [exact Hnd' | exact Hmore|].
        intros x Hx Hk. destruct (Hcov x Hx Hk) as [Heq | Hin]; [|exact Hin].
        exfalso. cbn [fst] in Heq. rewrite Heq, key_eqb_refl in E. discriminate.
Qed.

Lemma group_add_nodup : forall k e groups,
    NoDup (map fst groups) -> NoDup (map fst (group_add k e groups)).
Proof.
  intros k e groups H. rewrite group_add_keys.
  destruct (existsb (fun k' => key_eqb k' k) (map fst groups)) eqn:E; [exact H|].
  apply NoDup_app; [exact H | repeat constructor; intros [] |].
  intros x Hx [<- | []].
  apply has_key_In in Hx. rewrite Hx in E. discriminate.
Qed.

Lemma group_add_covers : forall k e groups k0,
    k0 = k \/ In k0 (map fst groups) -> In k0 (map fst (group_add k e groups)).
Proof.
  intros k e groups k0 H. rewrite group_add_keys.
  destruct (existsb (fun k' => key_eqb k' k) (map fst groups)) eqn:E.
  - destruct H as [-> | H]; [apply has_key_In; exact E | exact H].
  - apply in_or_app. destruct H as [-> | H]; [right; left; reflexivity | left; exact H].
Qed.

Lemma first_occurrences_snoc : forall ks (k : key) seen,
    first_occurrences (ks ++ [k]) seen
    = if existsb (fun k' => key_eqb k' k) (first_occurrences ks seen)
      then first_occurrences ks seen
      else (first_occurrences ks seen ++ [k])%list.
Proof.
  induction ks as [|k0 ks IH]; intros k seen; cbn [first_occurrences app].
  - destruct (existsb (fun k' => key_eqb k' k) seen); reflexivity.
  - destruct (existsb (fun k' => key_eqb k' k0) seen); apply IH.
Qed.

(** The loop of [_group_entries_by_ticket], from any state it can be
    in. *)
Lemma grouping_loop : forall entries done groups,
    NoDup (map fst groups) ->
    Forall (fun g => snd g = with_key (fst g) done) groups ->
    (forall x, In x done -> In (entry_key x) (map fst groups)) ->
    map fst groups = first_occurrences (map entry_key done) [] ->
    let result :=
      fold_left (fun grouped e => group_add (Toggl.ticket_id e, Toggl.ticket_name e) e grouped)
                entries groups in
    NoDup (map fst result)
    /\ Forall (fun g => snd g = with_key (fst g) (done ++ entries)) result
    /\ (forall x, In x (done ++ entries) -> In (entry_key x) (map fst result))
    /\ map fst result = first_occurrences (map entry_key (done ++ entries)) [].
Proof.
  induction entries as [|e more IH]; intros done groups Hnd Hg Hcov Hord.
  - cbn. rewrite app_nil_r. auto.
  - cbn [fold_left]. cbv zeta.
    replace (done ++ e :: more)%list with ((done ++ [e]) ++ more)%list
      by (rewrite <- app_assoc; reflexivity).
    apply IH.
    + apply group_add_nodup. exact Hnd.
    + apply (group_add_with_key done e groups Hnd Hg).
      intros x Hx Hk. rewrite <- Hk. apply Hcov. exact Hx.
    + intros x Hx. apply (group_add_covers (entry_key e) e groups).
      apply in_app_or in Hx. destruct Hx as [Hx | [<- | []]].
      * right. apply Hcov. exact Hx.
      * left. reflexivity.
    + change (Toggl.ticket_id e, Toggl.ticket_name e) with (entry_key e).
      rewrite group_add_keys, map_app. cbn [map].
      rewrite Hord. symmetry. apply first_occurrences_snoc.
Qed.

(** X9.  [_group_entries_by_ticket] partitions the entries by their
    key: the keys of the groups are distinct and come in the order of
    their first occurrence among the entries, every entry's key is
    among them, and each group holds exactly the entries of its key, in
    the order of the input; no group is empty. *)
Theorem X9_grouping_partitions_the_entries : forall entries,
    let groups := group_entries_by_ticket entries in
    NoDup (map fst groups)
    /\ map fst groups = first_occurrences (map entry_key entries) []
    /\ Forall (fun g => snd g = with_key (fst g) entries /\ snd g <> []) groups
    /\ (forall e, In e entries -> In (entry_key e) (map fst groups)).
Proof.
  intros entries groups.
  destruct (grouping_loop entries [] [] (NoDup_nil _) (Forall_nil _)) as (H1 & H2 & H3 & H4).
  - intros x [].
  - reflexivity.
  - cbn [app] in *. fold (group_entries_by_ticket entries) in *. fold groups in H1, H2, H3, H4.
    split; [exact H1|]. split; [exact H4|]. split; [|exact H3].
    pose proof (group_entries_nonempty entries) as Hne. fold groups in Hne.
    rewrite Forall_forall in *. intros g Hg. split; [apply H2 | apply Hne]; exact Hg.
Qed.

End GroupingFacts.

(** ** The settings gate the calls *)

Module GateFacts.
Import Text Calendar Toggl GitLab Sync Notions Settings GateNotions ProgFacts.

Section Gate.
Variable cfg : Config.
Variable f : string -> option datetime.

Lemma sync_entry_licensed : forall issue ids e a,
    Calls (licensed cfg) (sync_entry cfg f issue ids e a).
Proof.
  intros issue ids e [st total]. unfold sync_entry.
  destruct (PREVENT_DUPLICATES cfg && mem (str_of_id (id e)) ids)%bool;
    [exact I|].
  destruct (f (replace_Z (start e))); [|exact I].
  destruct (DRY_RUN cfg) eqn:E; cbn [negb Calls licensed]; [exact I|].
  rewrite E. split; [reflexivity|]. intros [[|]|]; exact I.
Qed.

Lemma sync_loop_licensed : forall issue ids entries a,
    Calls (licensed cfg) (sync_loop cfg f issue ids entries a).
Proof.
  induction entries as [|e more IH]; intros a; simpl; [exact I|].
  apply Calls_bind; [apply sync_entry_licensed | intros a'; apply IH].
Qed.

Lemma fetch_existing_licensed : forall issue,
    Calls (licensed cfg) (fetch_existing cfg issue).
Proof.
  intros issue. unfold fetch_existing.
  destruct (PREVENT_DUPLICATES cfg) eqn:E; cbn [Calls licensed]; [|exact I].
  split; [exact E|]. intros [l|]; exact I.
Qed.

Lemma add_estimate_licensed : forall issue total st,
    Calls (licensed cfg) (add_estimate cfg issue total st).
Proof.
  intros issue total st. unfold add_estimate.
  destruct (ADD_TIME_ESTIMATES cfg) eqn:Ea; [|exact I].
  destruct (0 <? total); [|exact I].
  destruct (DRY_RUN cfg) eqn:Ed; cbn [andb negb Calls licensed]; [exact I|].
  rewrite Ea, Ed. split; [reflexivity|].
  intros [current|]; [|exact I].
  destruct (match current with None => true | Some x => x =? 0 end); [|exact I].
  cbn [Calls licensed]. rewrite Ea, Ed. split; [reflexivity|].
  intros [[|]|]; exact I.
Qed.

Lemma add_summary_licensed : forall issue entries total st,
    Calls (licensed cfg) (add_summary cfg issue entries total st).
Proof.
  intros issue entries total st. unfold add_summary.
  destruct (1 <? len entries); [|exact I].
  destruct (DRY_RUN cfg) eqn:Ed; cbn [andb negb Calls licensed]; [exact I|].
  rewrite Ed. split; [reflexivity | intros r; exact I].
Qed.

Lemma sync_entries_to_issue_licensed : forall issue entries st,
    Calls (licensed cfg) (sync_entries_to_issue cfg f issue entries st).
Proof.
  intros issue entries st. unfold sync_entries_to_issue.
  apply Calls_bind; [apply fetch_existing_licensed | intros ids].
  apply Calls_bind; [apply sync_loop_licensed | intros a].
  apply Calls_bind; [apply add_estimate_licensed | intros st1].
  apply add_summary_licensed.
Qed.

Lemma sync_or_skip_licensed : forall issue entries st,
    Calls (licensed cfg) (sync_or_skip cfg f issue entries st).
Proof.
  intros [issue|] entries st; simpl;
    [apply sync_entries_to_issue_licensed | exact I].
Qed.

Lemma create_or_skip_licensed : forall tid name entries total st,
    truthy (strip name) = true ->
    Calls (licensed cfg) (create_or_skip cfg f tid name entries total st).
Proof.
  intros tid name entries total st Hname. unfold create_or_skip.
  destruct (should_create_issue cfg name) eqn:Es; [|apply sync_or_skip_licensed].
  destruct (AUTO_CREATE_ISSUES cfg) eqn:Ea; [|exact I].
  destruct (DRY_RUN cfg) eqn:Ed; cbn [negb]; [apply sync_or_skip_licensed|].
  cbn [Calls licensed]. rewrite Ed, Ea, Es, Hname. cbn [negb andb].
  split.
  - destruct (ADD_TIME_ESTIMATES cfg); reflexivity.
  - intros [issue|]; [apply sync_or_skip_licensed | exact I].
Qed.

Lemma sync_ticket_entries_licensed : forall k entries st,
    Calls (licensed cfg) (sync_ticket_entries cfg f k entries st).
Proof.
  intros [tid name] entries st. unfold sync_ticket_entries.
  apply Calls_bind.
  - destruct (truthy_opt tid) eqn:E; cbn [Calls licensed]; [|exact I].
    split; [|intros r; exact I].
    destruct tid as [x|]; [exact E | discriminate].
  - intros [issue|].
    + apply sync_or_skip_licensed.
    + destruct name as [name|]; [|apply sync_or_skip_licensed].
      destruct (truthy name && truthy (strip name))%bool eqn:E;
        [|apply sync_or_skip_licensed].
      apply andb_true_iff in E. apply create_or_skip_licensed. tauto.
Qed.

Lemma sync_groups_licensed : forall groups st,
    Calls (licensed cfg) (sync_groups cfg f groups st).
Proof.
  induction groups as [|[k entries] more IH]; intros st; simpl; [exact I|].
  apply Calls_bind; [apply sync_ticket_entries_licensed | intros st'; apply IH].
Qed.

Lemma sync_time_entries_licensed : forall time_entries st,
    Calls (licensed cfg) (sync_time_entries cfg f time_entries st).
Proof.
  intros time_entries st. unfold sync_time_entries.
  destruct time_entries as [|e more]; [exact I|].
  apply Calls_bind; [apply sync_groups_licensed | intros st'; exact I].
Qed.

End Gate.

(** X10.  Every call of a run is licensed by the settings, whatever
    the entries and whatever the tracker answers: an issue is looked up
    only by a ticket id that is not empty; an issue is created only in
    a live run with [AUTO_CREATE_ISSUES] set, under a title that is not
    blank and passes [_should_create_issue], and with an estimate
    exactly when [ADD_TIME_ESTIMATES] is set; the time entries of an
    issue are fetched only with [PREVENT_DUPLICATES] set; the estimate
    of an issue is read and set only in a live run with
    [ADD_TIME_ESTIMATES] set; time is logged and notes are added only in
    a live run. *)
Theorem X10_every_call_is_licensed_by_the_settings :
  forall cfg f time_entries st t st',
    Runs (sync_time_entries cfg f time_entries st) t st' ->
    Forall (fun ev => licensed cfg (called ev) = true) t.
Proof.
  intros cfg f time_entries st t st' Hrun.
  exact (Calls_Runs _ (licensed cfg) _ t st'
           (sync_time_entries_licensed cfg f time_entries st) Hrun).
Qed.

Lemma X10_witness :
  Forall (fun ev => licensed Scenario.live (called ev) = true)
         (Scenario.calls
            (Scenario.replay Scenario.live
               [Scenario.fix_42; Scenario.meeting; Scenario.dashboard]
               Scenario.tracker_42)).
Proof.
  apply (X10_every_call_is_licensed_by_the_settings
           Scenario.live Replay.iso_basic
           [Scenario.fix_42; Scenario.meeting; Scenario.dashboard] stats0 _
           (Scenario.counters
              (Scenario.replay Scenario.live
                 [Scenario.fix_42; Scenario.meeting; Scenario.dashboard]
                 Scenario.tracker_42))).
  exact (exec_Runs Stats Replay.gitlab
           (sync_time_entries Scenario.live Replay.iso_basic
              [Scenario.fix_42; Scenario.meeting; Scenario.dashboard] stats0)
           Scenario.tracker_42).
Defined.

(** *** An empty skip term *)

Lemma contains_empty : forall s, contains "" s = true.
Proof. intros s. unfold contains. destruct (chars s); reflexivity. Qed.

Lemma no_generic_term_empty : forall terms name,
    In "" terms -> no_generic_term terms name = false.
Proof.
  induction terms as [|term more IH]; intros name H; [destruct H|].
  cbn [no_generic_term]. destruct H as [-> | H].
  - change (lower "") with "". rewrite contains_empty. reflexivity.
  - destruct (contains (lower term) (lower name)); [reflexivity | apply IH; exact H].
Qed.

Lemma should_create_issue_empty_term : forall cfg name,
    In "" (SKIP_GENERIC_TERMS cfg) -> should_create_issue cfg name = false.
Proof.
  intros cfg name H. unfold should_create_issue.
  destruct (_ <? _); [reflexivity | apply no_generic_term_empty; exact H].
Qed.

Lemma split_chars_trailing_comma : forall l current,
    In "" (split_chars (l ++ [","%char]) current).
Proof.
  induction l as [|c l IH]; intros current.
  - cbn. right. left. reflexivity.
  - cbn [app split_chars]. destruct (Ascii.eqb c ","%char).
    + right. apply IH.
    + apply IH.
Qed.

Lemma chars_append : forall a b, chars (a ++ b) = (chars a ++ chars b)%list.
Proof.
  induction a as [|c a IH]; intros b; [reflexivity|].
  cbn. unfold chars in IH. rewrite IH. reflexivity.
Qed.

Lemma skip_terms_hold_empty : forall env,
    env = "" \/ (exists p, env = p ++ ",") ->
    In "" (skip_generic_terms (Some env)).
Proof.
  intros env [-> | (p & ->)]; unfold skip_generic_terms, split_commas.
  - left. reflexivity.
  - rewrite chars_append. apply split_chars_trailing_comma.
Qed.

(** X11.  When [SKIP_GENERIC_TERMS] is read from an environment value
    that is empty or ends in a comma, the term list holds the empty
    string, which every ticket name contains: [_should_create_issue]
    answers [False] for every name and no run creates an issue. *)
Theorem X11_empty_skip_term_blocks_issue_creation :
  forall cfg f env time_entries st t st',
    SKIP_GENERIC_TERMS cfg = skip_generic_terms (Some env) ->
    env = "" \/ (exists p, env = p ++ ",") ->
    Runs (sync_time_entries cfg f time_entries st) t st' ->
    (forall name, should_create_issue cfg name = false)
    /\ Forall (fun ev => is_create_issue (called ev) = false) t.
Proof.
  intros cfg f env time_entries st t st' Hterms Henv Hrun.
  assert (Hin : In "" (SKIP_GENERIC_TERMS cfg)).
  { rewrite Hterms. apply skip_terms_hold_empty. exact Henv. }
  split; [intros name; apply should_create_issue_empty_term; exact Hin|].
  pose proof (Calls_Runs _ (licensed cfg) _ t st'
                (sync_time_entries_licensed cfg f time_entries st) Hrun) as H.
  apply (Forall_impl _ (P := fun ev => licensed cfg (called ev) = true)); [|exact H].
  intros [c r] Hev. cbn [called] in *.
  destruct c as [? | tl ? ? ? ? est | ? | ? ? ? ? | ? | ? ? | ? ?]; try reflexivity.
  cbn [licensed] in Hev.
  rewrite (should_create_issue_empty_term cfg tl Hin) in Hev.
  rewrite andb_false_r in Hev. discriminate.
Qed.

Lemma X11_witness :
  Forall (fun ev => is_create_issue (called ev) = false)
         (Scenario.calls
            (Scenario.replay live_without_terms [Scenario.dashboard]
               Scenario.tracker_42)).
Proof.
  apply (X11_empty_skip_term_blocks_issue_creation
           live_without_terms Replay.iso_basic "" [Scenario.dashboard] stats0
           (Scenario.calls
              (Scenario.replay live_without_terms [Scenario.dashboard]
                 Scenario.tracker_42))
           (Scenario.counters
              (Scenario.replay live_without_terms [Scenario.dashboard]
                 Scenario.tracker_42))).
  - reflexivity.
  - left. reflexivity.
  - exact (exec_Runs Stats Replay.gitlab
             (sync_time_entries live_without_terms Replay.iso_basic
                [Scenario.dashboard] stats0)
             Scenario.tracker_42).
Defined.

End GateFacts.

(** ** Estimates and summary notes *)

Module EstimateFacts.
Import Text Calendar Toggl GitLab Sync Notions EstimateNotions ProgFacts.

Lemma careful_nil : careful [].
Proof. intros prev. reflexivity. Qed.

Lemma careful_cons : forall ev t,
    is_set_time_estimate (called ev) = false -> careful t -> careful (ev :: t).
Proof.
  intros ev t Hev Ht prev. cbn [never_overwrites]. rewrite Ht, andb_true_r.
  unfold guarded. destruct (called ev); try reflexivity. discriminate.
Qed.

Lemma never_overwrites_app : forall t1 t2 prev,
    never_overwrites prev t1 = true -> careful t2 ->
    never_overwrites prev (t1 ++ t2) = true.
Proof.
  induction t1 as [|ev t1 IH]; intros t2 prev H1 H2; [apply H2|].
  cbn [app never_overwrites] in *. apply andb_true_iff in H1.
  destruct H1 as [Hg H1]. rewrite Hg. cbn [andb]. apply IH; assumption.
Qed.

Lemma careful_app : forall t1 t2, careful t1 -> careful t2 -> careful (t1 ++ t2).
Proof.
  intros t1 t2 H1 H2 prev. apply never_overwrites_app; [apply H1 | exact H2].
Qed.

Lemma careful_quiet : forall t,
    Forall (fun ev => is_set_time_estimate (called ev) = false) t -> careful t.
Proof.
  induction t as [|ev t IH]; intros H; [apply careful_nil|].
  inversion H; subst. apply careful_cons; auto.
Qed.

Section Estimates.
Variable cfg : Config.
Variable f : string -> option datetime.

Lemma sync_entry_quiet : forall issue ids e a,
    Calls (fun c => negb (is_set_time_estimate c)) (sync_entry cfg f issue ids e a).
Proof.
  intros issue ids e [st total]. unfold sync_entry.
  destruct (PREVENT_DUPLICATES cfg && mem (str_of_id (id e)) ids)%bool; [exact I|].
  destruct (f (replace_Z (start e))); [|exact I].
  destruct (negb (DRY_RUN cfg)); [|exact I].
  split; [reflexivity|]. intros [[|]|]; exact I.
Qed.

Lemma sync_loop_quiet : forall issue ids entries a,
    Calls (fun c => negb (is_set_time_estimate c)) (sync_loop cfg f issue ids entries a).
Proof.
  induction entries as [|e more IH]; intros a; simpl; [exact I|].
  apply Calls_bind; [apply sync_entry_quiet | intros a'; apply IH].
Qed.

Lemma quiet_careful : forall (A : Type) (p : Prog A) t a,
    Calls (fun c => negb (is_set_time_estimate c)) p -> Runs p t a -> careful t.
Proof.
  intros A p t a Hc Hr. apply careful_quiet.
  pose proof (Calls_Runs A _ p t a Hc Hr) as H.
  apply (Forall_impl _ (P := fun ev => negb (is_set_time_estimate (called ev)) = true));
    [|exact H].
  intros ev Hev. apply negb_true_iff. exact Hev.
Qed.

Lemma fetch_existing_quiet_calls : forall issue,
    Calls (fun c => negb (is_set_time_estimate c)) (fetch_existing cfg issue).
Proof.
  intros issue. unfold fetch_existing.
  destruct (PREVENT_DUPLICATES cfg); [|exact I].
  split; [reflexivity|]. intros [l|]; exact I.
Qed.

Lemma add_summary_quiet : forall issue entries total st,
    Calls (fun c => negb (is_set_time_estimate c)) (add_summary cfg issue entries total st).
Proof.
  intros issue entries total st. unfold add_summary.
  destruct ((1 <? len entries) && negb (DRY_RUN cfg))%bool; [|exact I].
  split; [reflexivity | intros r; exact I].
Qed.

Lemma add_estimate_careful : forall issue total st t st',
    Runs (add_estimate cfg issue total st) t st' -> careful t.
Proof.
  intros issue total st t st' H. unfold add_estimate in H.
  destruct (ADD_TIME_ESTIMATES cfg && (0 <? total) && negb (DRY_RUN cfg))%bool.
  2:{ destruct H as [-> _]. apply careful_nil. }
  cbn [Runs] in H. destruct H as (r & t' & -> & H).
  destruct r as [current|].
  2:{ destruct H as [-> _]. apply careful_cons; [reflexivity | apply careful_nil]. }
  destruct (match current with None => true | Some x => x =? 0 end) eqn:E.
  2:{ destruct H as [-> _]. apply careful_cons; [reflexivity | apply careful_nil]. }
  cbn [Runs] in H. destruct H as (r2 & t2 & -> & H).
  assert (Ht2 : t2 = []) by (destruct r2 as [[|]|]; destruct H as [-> _]; reflexivity).
  subst t2. intros prev. cbn [never_overwrites guarded called found_no_estimate].
  unfold unset. rewrite E, Z.eqb_refl. reflexivity.
Qed.

Lemma sync_entries_to_issue_careful : forall issue entries st t st',
    Runs (sync_entries_to_issue cfg f issue entries st) t st' -> careful t.
Proof.
  intros issue entries st t st' H. unfold sync_entries_to_issue in H.
  apply Runs_bind_inv in H. destruct H as (t0 & ids & t1 & H0 & H & ->).
  apply Runs_bind_inv in H. destruct H as (t2 & a & t3 & H2 & H & ->).
  apply Runs_bind_inv in H. destruct H as (t4 & st4 & t5 & H4 & H5 & ->).
  apply careful_app; [exact (quiet_careful _ _ _ _ (fetch_existing_quiet_calls issue) H0)|].
  apply careful_app; [exact (quiet_careful _ _ _ _ (sync_loop_quiet _ _ _ _) H2)|].
  apply careful_app; [exact (add_estimate_careful _ _ _ _ _ H4)|].
  exact (quiet_careful _ _ _ _ (add_summary_quiet _ _ _ _) H5).
Qed.

Lemma sync_or_skip_careful : forall issue entries st t st',
    Runs (sync_or_skip cfg f issue entries st) t st' -> careful t.
Proof.
  intros [issue|] entries st t st' H; cbn [sync_or_skip] in H.
  - exact (sync_entries_to_issue_careful _ _ _ _ _ H).
  - destruct H as [-> _]. apply careful_nil.
Qed.

Lemma create_or_skip_careful : forall tid name entries total st t st',
    Runs (create_or_skip cfg f tid name entries total st) t st' -> careful t.
Proof.
  intros tid name entries total st t st' H. unfold create_or_skip in H.
  destruct (should_create_issue cfg name); [|exact (sync_or_skip_careful _ _ _ _ _ H)].
  destruct (AUTO_CREATE_ISSUES cfg).
  2:{ destruct H as [-> _]. apply careful_nil. }
  destruct (negb (DRY_RUN cfg)); [|exact (sync_or_skip_careful _ _ _ _ _ H)].
  cbn [Runs] in H. destruct H as (r & t' & -> & H).
  apply careful_cons; [reflexivity|].
  destruct r as [issue|].
  - exact (sync_or_skip_careful _ _ _ _ _ H).
  - destruct H as [-> _]. apply careful_nil.
Qed.

Lemma sync_ticket_entries_careful : forall k entries st t st',
    Runs (sync_ticket_entries cfg f k entries st) t st' -> careful t.
Proof.
  intros [tid name] entries st t st' H. unfold sync_ticket_entries in H.
  apply Runs_bind_inv in H. destruct H as (t1 & found & t2 & H1 & H2 & ->).
  apply careful_app.
  - destruct (truthy_opt tid).
    + cbn [Runs] in H1. destruct H1 as (r & t' & -> & [-> _]).
      apply careful_cons; [reflexivity | apply careful_nil].
    + destruct H1 as [-> _]. apply careful_nil.
  - destruct found as [issue|].
    + exact (sync_or_skip_careful _ _ _ _ _ H2).
    + destruct name as [name|]; [|exact (sync_or_skip_careful _ _ _ _ _ H2)].
      destruct (truthy name && truthy (strip name))%bool.
      * exact (create_or_skip_careful _ _ _ _ _ _ _ H2).
      * exact (sync_or_skip_careful _ _ _ _ _ H2).
Qed.

Lemma sync_groups_careful : forall groups st t st',
    Runs (sync_groups cfg f groups st) t st' -> careful t.
Proof.
  induction groups as [|[k entries] more IH]; intros st t st' H.
  - destruct H as [-> _]. apply careful_nil.
  - cbn [sync_groups] in H. apply Runs_bind_inv in H.
    destruct H as (t1 & st1 & t2 & H1 & H2 & ->).
    apply careful_app; [exact (sync_ticket_entries_careful _ _ _ _ _ H1)|].
    exact (IH _ _ _ H2).
Qed.

End Estimates.

(** X12.  A run never sets an estimate over one it found: in the calls
    of a run, whatever the entries and whatever the tracker answers,
    every [set_time_estimate] comes right after a
    [get_issue_time_stats] for the same issue that returned no
    estimate, or the estimate zero. *)
Theorem X12_estimate_is_set_only_after_none_was_found :
  forall cfg f time_entries st t st',
    Runs (sync_time_entries cfg f time_entries st) t st' ->
    never_overwrites None t = true.
Proof.
  intros cfg f time_entries st t st' H. unfold sync_time_entries in H.
  destruct time_entries as [|e more].
  { destruct H as [-> _]. reflexivity. }
  apply Runs_bind_inv in H. destruct H as (t1 & st1 & t2 & H1 & [-> _] & ->).
  rewrite app_nil_r. exact (sync_groups_careful cfg f _ _ _ _ H1 None).
Qed.

Lemma X12_witness :
  never_overwrites None
    (Scenario.calls
       (Scenario.replay estimating [Scenario.fix_42; Scenario.fix_again]
          Scenario.tracker_42)) = true.
Proof.
  apply (X12_estimate_is_set_only_after_none_was_found
           estimating Replay.iso_basic [Scenario.fix_42; Scenario.fix_again] stats0
           (Scenario.calls
              (Scenario.replay estimating [Scenario.fix_42; Scenario.fix_again]
                 Scenario.tracker_42))
           (Scenario.counters
              (Scenario.replay estimating [Scenario.fix_42; Scenario.fix_again]
                 Scenario.tracker_42))).
  exact (exec_Runs Stats Replay.gitlab
           (sync_time_entries estimating Replay.iso_basic
              [Scenario.fix_42; Scenario.fix_again] stats0)
           Scenario.tracker_42).
Defined.

(** *** What the estimate and the summary note report *)

Lemma logged_app : forall t1 t2, logged (t1 ++ t2) = logged t1 + logged t2.
Proof.
  induction t1 as [|ev t1 IH]; intros t2; cbn [app logged fold_right].
  - reflexivity.
  - fold (logged (t1 ++ t2)). fold (logged t1). rewrite IH. lia.
Qed.

Section Reports.
Variable cfg : Config.
Variable f : string -> option datetime.
Variable issue : Issue.

Lemma sync_entry_logs : forall ids e st total t st' total',
    Runs (sync_entry cfg f issue ids e (st, total)) t (st', total') ->
    (forall n x, Forall (about_issue cfg issue n x) t)
    /\ (DRY_RUN cfg = false -> total' = total + logged t)
    /\ (DRY_RUN cfg = true -> t = []).
Proof.
  intros ids e st total t st' total' H. unfold sync_entry in H.
  destruct (PREVENT_DUPLICATES cfg && mem (str_of_id (id e)) ids)%bool.
  { destruct H as [-> E]. injection E as _ <-.
    split; [constructor | split; [intros _; cbn; lia | reflexivity]]. }
  destruct (f (replace_Z (start e))) as [dt|].
  2:{ destruct H as [-> E]. injection E as _ <-.
      split; [constructor | split; [intros _; cbn; lia | reflexivity]]. }
  destruct (DRY_RUN cfg); cbn [negb] in H.
  { destruct H as [-> E].
    split; [constructor | split; [discriminate | reflexivity]]. }
  cbn [Runs] in H. destruct H as (r & t' & -> & H).
  assert (Ht : t' = []
               /\ total' = total + accepted_time
                                     (Ev (AddTimeSpent (iid issue) (duration e) dt
                                            (log_description cfg e)) r)).
  { destruct r as [[|]|]; destruct H as [-> E]; injection E as _ <-;
      cbn [accepted_time]; split; (reflexivity || lia). }
  destruct Ht as [-> ->].
  split; [|split; [intros _; cbn [logged fold_right]; lia | discriminate]].
  intros n x. constructor; [|constructor]. reflexivity.
Qed.

Lemma sync_loop_logs : forall ids entries st total t st' total',
    Runs (sync_loop cfg f issue ids entries (st, total)) t (st', total') ->
    (forall n x, Forall (about_issue cfg issue n x) t)
    /\ (DRY_RUN cfg = false -> total' = total + logged t)
    /\ (DRY_RUN cfg = true -> t = []).
Proof.
  induction entries as [|e more IH]; intros st total t st' total' H.
  - destruct H as [-> E]. injection E as _ <-.
    split; [constructor | split; [intros _; cbn; lia | reflexivity]].
  - cbn [sync_loop] in H. apply Runs_bind_inv in H.
    destruct H as (t1 & [st1 total1] & t2 & H1 & H2 & ->).
    destruct (sync_entry_logs _ _ _ _ _ _ _ H1) as (A1 & L1 & D1).
    destruct (IH _ _ _ _ _ H2) as (A2 & L2 & D2).
    split; [|split].
    + intros n x. apply Forall_app. split; [apply A1 | apply A2].
    + intros Hl. rewrite logged_app, (L2 Hl), (L1 Hl). lia.
    + intros Hd. rewrite (D1 Hd), (D2 Hd). reflexivity.
Qed.

Lemma fetch_existing_logs : forall t ids,
    Runs (fetch_existing cfg issue) t ids ->
    (forall n x, Forall (about_issue cfg issue n x) t) /\ logged t = 0.
Proof.
  intros t ids H. unfold fetch_existing in H.
  destruct (PREVENT_DUPLICATES cfg).
  - cbn [Runs] in H. destruct H as (r & t' & -> & H).
    assert (Ht : t' = []) by (destruct r; destruct H as [-> _]; reflexivity).
    subst t'. split; [|reflexivity].
    intros n x. constructor; [reflexivity | constructor].
  - destruct H as [-> _]. split; [constructor | reflexivity].
Qed.

Lemma add_estimate_logs : forall total st t st',
    Runs (add_estimate cfg issue total st) t st' ->
    (forall n, Forall (about_issue cfg issue n total) t)
    /\ logged t = 0
    /\ (DRY_RUN cfg = true -> t = []).
Proof.
  intros total st t st' H. unfold add_estimate in H.
  destruct (ADD_TIME_ESTIMATES cfg && (0 <? total))%bool; cbn [andb] in H.
  2:{ destruct H as [-> _]. split; [constructor | split; reflexivity]. }
  destruct (DRY_RUN cfg); cbn [negb] in H.
  { destruct H as [-> _]. split; [constructor | split; reflexivity]. }
  cbn [Runs] in H. destruct H as (r & t' & -> & H).
  destruct r as [current|].
  2:{ destruct H as [-> _].
      split; [|split; [reflexivity | discriminate]].
      intros n. constructor; [reflexivity | constructor]. }
  destruct (match current with None => true | Some x => x =? 0 end).
  2:{ destruct H as [-> _].
      split; [|split; [reflexivity | discriminate]].
      intros n. constructor; [reflexivity | constructor]. }
  cbn [Runs] in H. destruct H as (r2 & t2 & -> & H).
  assert (Ht2 : t2 = []) by (destruct r2 as [[|]|]; destruct H as [-> _]; reflexivity).
  subst t2. split; [|split; [reflexivity | discriminate]].
  intros n. constructor; [reflexivity|].
  constructor; [split; reflexivity | constructor].
Qed.

Lemma add_summary_logs : forall entries total st t st',
    Runs (add_summary cfg issue entries total st) t st' ->
    Forall (about_issue cfg issue (len entries) total) t
    /\ logged t = 0
    /\ (DRY_RUN cfg = true -> t = []).
Proof.
  intros entries total st t st' H. unfold add_summary in H.
  destruct (1 <? len entries); cbn [andb] in H.
  2:{ destruct H as [-> _]. split; [constructor | split; reflexivity]. }
  destruct (DRY_RUN cfg); cbn [negb] in H.
  { destruct H as [-> _]. split; [constructor | split; reflexivity]. }
  cbn [Runs] in H. destruct H as (r & t' & -> & [-> _]).
  split; [|split; [reflexivity | discriminate]].
  constructor; [split; reflexivity | constructor].
Qed.

End Reports.

(** What [_sync_entries_to_issue] calls, and with what time. *)
Lemma sync_entries_to_issue_about :
  forall cfg f issue entries st t st',
    Runs (sync_entries_to_issue cfg f issue entries st) t st' ->
    Forall (about_issue cfg issue (len entries) (logged t)) t.
Proof.
  intros cfg f issue entries st t st' H. unfold sync_entries_to_issue in H.
  apply Runs_bind_inv in H. destruct H as (t0 & ids & t1 & H0 & H & ->).
  apply Runs_bind_inv in H. destruct H as (t2 & [st2 total2] & t3 & H2 & H & ->).
  apply Runs_bind_inv in H. destruct H as (t4 & st4 & t5 & H4 & H5 & ->).
  cbn [fst snd] in *.
  destruct (fetch_existing_logs cfg issue _ _ H0) as (A0 & L0).
  destruct (sync_loop_logs cfg f issue _ _ _ _ _ _ _ H2) as (A2 & L2 & D2).
  destruct (add_estimate_logs cfg issue _ _ _ _ H4) as (A4 & L4 & D4).
  destruct (add_summary_logs cfg issue _ _ _ _ _ H5) as (A5 & L5 & D5).
  rewrite !logged_app, L0, L4, L5.
  apply Forall_app. split; [apply A0|].
  apply Forall_app. split; [apply A2|].
  destruct (DRY_RUN cfg) eqn:Ed.
  - rewrite (D4 eq_refl), (D5 eq_refl). constructor.
  - rewrite (L2 eq_refl) in A4, A5.
    replace (0 + (logged t2 + (0 + 0))) with (0 + logged t2) by lia.
    apply Forall_app. split; [apply A4 | exact A5].
Qed.

(** X13.  The calls [_sync_entries_to_issue] makes for a group all go
    to the issue of the group.  The estimate it sets is computed from
    the time the tracker accepted in this very run, not from the time
    of the entries of the group; the summary note it adds counts all
    entries of the group, duplicates and failures included, and reports
    the accepted time. *)
Theorem X13_estimate_and_summary_report_the_accepted_time :
  forall cfg f issue entries st t st',
    Runs (sync_entries_to_issue cfg f issue entries st) t st' ->
    Forall (about_issue cfg issue (len entries) (logged t)) t.
Proof.
  intros cfg f issue entries st t st' H.
  exact (sync_entries_to_issue_about cfg f issue entries st t st' H).
Qed.

Lemma X13_witness :
  let r := exec Replay.gitlab
             (sync_entries_to_issue estimating Replay.iso_basic Scenario.issue_42
                [Scenario.fix_entry; Scenario.lettered_entry] stats0)
             Scenario.tracker_42 in
  Forall (about_issue estimating Scenario.issue_42 2 1800) (snd r).
Proof.
  exact (X13_estimate_and_summary_report_the_accepted_time
           estimating Replay.iso_basic Scenario.issue_42
           [Scenario.fix_entry; Scenario.lettered_entry] stats0 _ _
           (exec_Runs Stats Replay.gitlab
              (sync_entries_to_issue estimating Replay.iso_basic Scenario.issue_42
                 [Scenario.fix_entry; Scenario.lettered_entry] stats0)
              Scenario.tracker_42)).
Defined.

End EstimateFacts.

(** ** The entries the client returns for the duplicate check *)

Module TrackedFacts.
Import Text Re Calendar Toggl GitLab Sync Client Notions RoundTripNotions.
Import MarkerFacts RoundTripFacts.







End TrackedFacts.

(** ** What the matcher captures *)

Module MatcherFacts.
Import Text Re Parser Notions MatcherNotions ParserFacts RoundTripFacts.

(** A successful greedy repetition stopped after some characters, at
    least [least] counted in all. *)
Lemma rep_sound : forall (R : Type) p least rs count sn cp (k : mstate -> option R) x,
    rep p least count sn rs cp k = Some x ->
    exists consumed rs',
      rs = (consumed ++ rs')%list
      /\ k (MState (rev consumed ++ sn) rs' cp) = Some x
      /\ (least <= count + List.length consumed)%nat.
Proof.
  intros R p least. induction rs as [|c rs IH]; intros count sn cp k x H.
  - cbn [rep] in H. destruct (Nat.leb least count) eqn:E; [|discriminate].
    apply Nat.leb_le in E. exists [], []. cbn. split; [reflexivity|]. split; [exact H | lia].
  - cbn [rep] in H.
    assert (Hstop : (if Nat.leb least count then k (MState sn (c :: rs) cp) else None) = Some x ->
                    exists consumed rs',
                      (c :: rs) = (consumed ++ rs')%list
                      /\ k (MState (rev consumed ++ sn) rs' cp) = Some x
                      /\ (least <= count + List.length consumed)%nat).
    { intros Hs. destruct (Nat.leb least count) eqn:E; [|discriminate].
      apply Nat.leb_le in E. exists [], (c :: rs). cbn.
      split; [reflexivity|]. split; [exact Hs | lia]. }
    destruct (p c); [|apply Hstop; exact H].
    destruct (rep p least (S count) (c :: sn) rs cp k) as [y|] eqn:E.
    + injection H as ->.
      destruct (IH _ _ _ _ _ E) as (consumed & rs' & -> & Hk & Hl).
      exists (c :: consumed), rs'. cbn [app rev List.length].
      split; [reflexivity|]. split; [|lia].
      rewrite <- app_assoc. exact Hk.
    + apply Hstop. exact H.
Qed.

Ltac same_state st H :=
  exists st, []; cbn [app rev List.length min_len];
  split; [exact H|]; split; [reflexivity|]; split; [reflexivity|];
  split; [lia|]; intros input _ Hp; exact Hp.

(** A successful match went on from a later position of the same
    input. *)
Lemma run_sound : forall (R : Type) r st (k : mstate -> option R) x,
    run r st k = Some x ->
    exists st' consumed,
      k st' = Some x
      /\ rest st = (consumed ++ rest st')%list
      /\ seen st' = (rev consumed ++ seen st)%list
      /\ (min_len r <= List.length consumed)%nat
      /\ (forall input, first_group_nonempty r = true ->
                        position_in input st -> position_in input st').
Proof.
  intros R. induction r as [ | p | r1 IH1 r2 IH2 | least p | r' IH | i r' IH | ];
    intros st k x H; cbn [run] in H.
  - same_state st H.
  - destruct st as [sn rs cp]. cbn [rest seen caps] in *.
    destruct rs as [|c rs']; [discriminate|].
    destruct (p c); [|discriminate].
    exists (MState (c :: sn) rs' cp), [c]. cbn [rest seen caps min_len List.length app rev].
    split; [exact H|]. split; [reflexivity|]. split; [reflexivity|]. split; [lia|].
    intros input _ [Hin Hc]. split; [|exact Hc].
    cbn [seen rest rev] in *. rewrite <- app_assoc. exact Hin.
  - destruct (IH1 _ _ _ H) as (st1 & c1 & H1 & R1 & S1 & L1 & P1).
    destruct (IH2 _ _ _ H1) as (st2 & c2 & H2 & R2 & S2 & L2 & P2).
    exists st2, (c1 ++ c2)%list. cbn [min_len first_group_nonempty].
    split; [exact H2|].
    split; [rewrite R1, R2, <- app_assoc; reflexivity|].
    split; [rewrite S2, S1, rev_app_distr, <- app_assoc; reflexivity|].
    split; [rewrite length_app; lia|].
    intros input Hg Hp. apply andb_true_iff in Hg. destruct Hg as [G1 G2].
    apply P2; [exact G2|]. apply P1; [exact G1 | exact Hp].
  - destruct (rep_sound _ _ _ _ _ _ _ _ _ H) as (consumed & rs' & Hr & Hk & Hl).
    exists (MState (rev consumed ++ seen st) rs' (caps st)), consumed.
    cbn [rest seen caps min_len].
    split; [exact Hk|]. split; [exact Hr|]. split; [reflexivity|]. split; [lia|].
    intros input _ [Hin Hc]. split; [|exact Hc].
    cbn [seen rest]. rewrite rev_app_distr, rev_involutive, <- app_assoc, <- Hr.
    exact Hin.
  - destruct (run r' st k) as [y|] eqn:E.
    + injection H as ->.
      destruct (IH _ _ _ E) as (st1 & c1 & H1 & R1 & S1 & L1 & P1).
      exists st1, c1. cbn [min_len first_group_nonempty].
      split; [exact H1|]. split; [exact R1|]. split; [exact S1|]. split; [lia|].
      exact P1.
    + same_state st H.
  - destruct (IH _ _ _ H) as (st1 & c1 & H1 & R1 & S1 & L1 & P1).
    assert (Hn : (List.length (seen st1) - List.length (seen st))%nat = List.length c1).
    { rewrite S1, length_app, length_rev. lia. }
    assert (Hf : firstn (List.length c1) (rest st) = c1).
    { rewrite R1. rewrite firstn_app, Nat.sub_diag, firstn_all. cbn [firstn].
      apply app_nil_r. }
    rewrite Hn, Hf in H1.
    exists (MState (seen st1) (rest st1) ((i, c1) :: caps st1)), c1.
    cbn [rest seen caps min_len first_group_nonempty].
    split; [exact H1|]. split; [exact R1|]. split; [exact S1|]. split; [exact L1|].
    intros input Hg Hp. apply andb_true_iff in Hg. destruct Hg as [G1 G2].
    destruct (P1 input G2 Hp) as [Hin1 Hc1].
    split; [exact Hin1|]. cbn [caps]. constructor; [|exact Hc1].
    cbn [fst snd]. split.
    + exists (rev (seen st)), (rest st1).
      destruct Hp as [Hin _]. rewrite <- Hin, R1. reflexivity.
    + intros ->. cbn [Nat.eqb negb orb] in G1. apply Nat.leb_le in G1.
      intros ->. cbn in L1. lia.
  - destruct (at_boundary st); [|discriminate].
    same_state st H.
Qed.

Lemma re_match_captures : forall r s cp,
    first_group_nonempty r = true ->
    re_match r s = Some cp -> captured_from (chars s) cp.
Proof.
  intros r s cp Hg H. unfold re_match in H.
  destruct (run_sound _ _ _ _ _ H) as (st' & consumed & Ha & _ & _ & _ & P).
  unfold accept in Ha. injection Ha as <-.
  apply (P (chars s) Hg). split; [reflexivity | constructor].
Qed.

Lemma group_captured : forall input cp v,
    captured_from input cp -> group 1 cp = Some v ->
    v <> "" /\ part_of (chars v) input.
Proof.
  intros input. induction cp as [|[j w] cp IH]; intros v Hc H; [discriminate|].
  inversion Hc as [|? ? [Hp Hne] Hc']; subst. cbn [fst snd] in *.
  unfold group in *. cbn [lookup] in H. destruct (Nat.eqb 1 j) eqn:E.
  - injection H as <-. apply Nat.eqb_eq in E. symmetry in E.
    split.
    + intros Hz. apply (Hne E). destruct w; [reflexivity | discriminate].
    + unfold chars, text. rewrite list_ascii_of_string_of_list_ascii. exact Hp.
  - apply (IH v Hc' H).
Qed.

Lemma try_patterns_source : forall ps d info,
    try_patterns ps d = Some info ->
    exists p cp, In p ps /\ re_match p (strip d) = Some cp /\ info = matched d cp.
Proof.
  induction ps as [|p ps IH]; intros d info H; cbn [try_patterns] in H; [discriminate|].
  destruct (re_match p (strip d)) as [cp|] eqn:E.
  - injection H as <-. exists p, cp. split; [left; reflexivity | auto].
  - destruct (IH d info H) as (q & cp & Hq & Hm & Hi).
    exists q, cp. split; [right; exact Hq | auto].
Qed.

Lemma patterns_first_group_nonempty :
  Forall (fun p => first_group_nonempty p = true) patterns.
Proof. repeat constructor. Qed.

Lemma part_of_contains : forall v s,
    part_of (chars v) (chars s) -> contains v s = true.
Proof.
  intros v s (a & b & H). unfold contains. rewrite H. apply contains_chars_app.
Qed.

(** X15.  A ticket id the parser returns is never empty, so that the
    reconciler looks it up, and it is a contiguous part of the trimmed
    description, in the letter case of the description. *)
Theorem X15_ticket_id_is_a_part_of_the_description : forall d i,
    ticket_id (extract_ticket_info d) = Some i ->
    i <> "" /\ contains i (strip d) = true.
Proof.
  intros d i H. unfold extract_ticket_info in H.
  destruct (negb (truthy d)); [discriminate|].
  destruct (try_patterns patterns d) as [info|] eqn:E; [|discriminate].
  destruct (try_patterns_source _ _ _ E) as (p & cp & Hp & Hm & ->).
  cbn [matched ticket_id] in H.
  pose proof patterns_first_group_nonempty as Hall.
  rewrite Forall_forall in Hall.
  pose proof (re_match_captures p (strip d) cp (Hall p Hp) Hm) as Hc.
  destruct (group_captured _ _ _ Hc H) as [Hne Hpart].
  split; [exact Hne | apply part_of_contains; exact Hpart].
Qed.

Lemma X15_witness : "42" <> "" /\ contains "42" (strip "  #42: fix ") = true.
Proof.
  apply (X15_ticket_id_is_a_part_of_the_description "  #42: fix " "42").
  vm_compute. reflexivity.
Defined.

End MatcherFacts.

(** ** Durations as the tracker receives them *)

Module TimeTextFacts.
Import Text Calendar Toggl GitLab Sync Client Notions Validation.
Import ParserFacts RoundTripFacts ProcessingFacts.

Lemma time_text_from_a_minute : forall seconds,
    60 <= seconds -> seconds_to_gitlab_time seconds = format_duration seconds.
Proof.
  intros seconds H. unfold seconds_to_gitlab_time, format_duration.
  replace (seconds <=? 0) with false by (symmetry; apply Z.leb_gt; lia).
  cbv zeta.
  destruct (Z.ltb_spec 0 (seconds / 3600)) as [Hh | Hh];
    destruct (Z.ltb_spec 0 (seconds mod 3600 / 60)) as [Hm | Hm];
    cbn [List.app join].
  - rewrite str_app_assoc. reflexivity.
  - reflexivity.
  - reflexivity.
  - exfalso.
    pose proof (Z.div_mod seconds 3600 ltac:(lia)) as D1.
    pose proof (Z.mod_pos_bound seconds 3600 ltac:(lia)) as B1.
    pose proof (Z.div_mod (seconds mod 3600) 60 ltac:(lia)) as D2.
    pose proof (Z.mod_pos_bound (seconds mod 3600) 60 ltac:(lia)) as B2.
    assert (0 <= seconds / 3600) by (apply Z.div_pos; lia).
    assert (0 <= seconds mod 3600 / 60) by (apply Z.div_pos; lia).
    assert (Hq : seconds / 3600 = 0) by lia.
    assert (Hr : seconds mod 3600 / 60 = 0) by lia.
    rewrite Hq in D1. rewrite Hr in D2. lia.
Qed.

Lemma time_text_below_a_minute : forall seconds,
    seconds < 60 ->
    seconds_to_gitlab_time seconds = "1m"
    /\ (0 <= seconds -> format_duration seconds = "0m").
Proof.
  intros seconds H. unfold seconds_to_gitlab_time, format_duration.
  destruct (Z.leb_spec seconds 0) as [Hz | Hz].
  - split; [reflexivity|]. intros H0.
    assert (seconds = 0) by lia. subst. reflexivity.
  - cbv zeta.
    assert (Hq : seconds / 3600 = 0) by (apply Z.div_small; lia).
    assert (Hm : seconds mod 3600 = seconds) by (apply Z.mod_small; lia).
    assert (Hr : seconds mod 3600 / 60 = 0) by (rewrite Hm; apply Z.div_small; lia).
    rewrite Hq, Hr. split; reflexivity.
Qed.

(** X16.  From one minute on, the time text the client sends to the
    tracker is the text the reconciler prints for the same duration.
    Below one minute the client sends one minute, where the reconciler
    prints zero minutes. *)
Theorem X16_time_sent_is_the_time_printed : forall seconds,
    (60 <= seconds -> seconds_to_gitlab_time seconds = format_duration seconds)
    /\ (seconds < 60 -> seconds_to_gitlab_time seconds = "1m")
    /\ (0 <= seconds < 60 -> format_duration seconds = "0m").
Proof.
  intros seconds. split; [apply time_text_from_a_minute|].
  split; intros H.
  - apply (time_text_below_a_minute seconds H).
  - apply (time_text_below_a_minute seconds); lia.
Qed.

(** *** Validated settings *)

Lemma check_required_grows : forall fields missing invalid,
    (missing <> [] \/ invalid <> []) ->
    fst (check_required fields missing invalid) <> []
    \/ snd (check_required fields missing invalid) <> [].
Proof.
  induction fields as [|[field value] more IH]; intros missing invalid H;
    cbn [check_required]; [exact H|].
  assert (Hm : forall x : string, (missing ++ [x])%list <> [])
    by (intros x; destruct missing; discriminate).
  assert (Hi : forall x : string, (invalid ++ [x])%list <> [])
    by (intros x; destruct invalid; discriminate).
  destruct value as [v|]; [|apply IH; left; apply Hm].
  destruct (negb (truthy v)); [apply IH; left; apply Hm|].
  destruct (String.eqb field "GITLAB_PROJECT_ID" && negb (isdigit v))%bool;
    [apply IH; right; apply Hi | apply IH; exact H].
Qed.

Lemma check_required_clean : forall fields,
    check_required fields [] [] = ([], []) ->
    Forall (fun fv => present (snd fv)
                      /\ (fst fv = "GITLAB_PROJECT_ID" ->
                          exists v, snd fv = Some v /\ isdigit v = true))
           fields.
Proof.
  induction fields as [|[field value] more IH]; intros H; [constructor|].
  cbn [check_required] in H.
  assert (Hbad : forall missing invalid,
             (missing <> [] \/ invalid <> []) ->
             check_required more missing invalid <> ([], [])).
  { intros missing invalid Hne E.
    destruct (check_required_grows more missing invalid Hne) as [Hc | Hc];
      rewrite E in Hc; apply Hc; reflexivity. }
  destruct value as [v|].
  2:{ exfalso. apply (Hbad [field] []); [left; discriminate | exact H]. }
  destruct (truthy v) eqn:Et; cbn [negb] in H.
  2:{ exfalso. apply (Hbad [field] []); [left; discriminate | exact H]. }
  destruct (String.eqb field "GITLAB_PROJECT_ID") eqn:Ef; cbn [andb] in H.
  - destruct (isdigit v) eqn:Ed; cbn [negb] in H.
    + constructor; [|apply IH; exact H]. cbn [fst snd]. split.
      * exists v. split; [reflexivity | apply truthy_true; exact Et].
      * intros _. exists v. split; [reflexivity | exact Ed].
    + exfalso.
      apply (Hbad [] [field ++ " must be numeric"]); [right; discriminate | exact H].
  - constructor; [|apply IH; exact H]. cbn [fst snd]. split.
    + exists v. split; [reflexivity | apply truthy_true; exact Et].
    + intros E. apply String.eqb_neq in Ef. contradiction.
Qed.

(** What [validate] has checked when it returns. *)
Lemma validate_checked : forall c cfg,
    validate c cfg = inr true ->
    check_required (required_fields c) [] [] = ([], [])
    /\ 0 < SYNC_DAYS_BACK c
    /\ 0 <= MINIMUM_DURATION cfg
    /\ In (ROUND_TIME_TO_MINUTES cfg) [1; 5; 10; 15; 30].
Proof.
  intros c cfg H. unfold validate, validation_errors in H.
  destruct (check_required (required_fields c) [] []) as [missing invalid].
  assert (Hs : forall l (x : string), (l ++ [x])%list <> [])
    by (intros l x; destruct l; discriminate).
  destruct (Z.leb_spec (SYNC_DAYS_BACK c) 0) as [Hd | Hd].
  { exfalso. revert H.
    destruct (MINIMUM_DURATION cfg <? 0);
      destruct (negb (existsb (Z.eqb (ROUND_TIME_TO_MINUTES cfg)) [1; 5; 10; 15; 30]));
      destruct missing; destruct invalid; discriminate. }
  destruct (Z.ltb_spec (MINIMUM_DURATION cfg) 0) as [Hm | Hm].
  { exfalso. revert H.
    destruct (negb (existsb (Z.eqb (ROUND_TIME_TO_MINUTES cfg)) [1; 5; 10; 15; 30]));
      destruct missing; destruct invalid; discriminate. }
  destruct (existsb (Z.eqb (ROUND_TIME_TO_MINUTES cfg)) [1; 5; 10; 15; 30]) eqn:Er;
    cbn [negb] in H.
  2:{ exfalso. revert H. destruct missing; destruct invalid; discriminate. }
  destruct missing; [|discriminate]. destruct invalid; [|discriminate].
  split; [reflexivity|]. split; [exact Hd|]. split; [exact Hm|].
  apply existsb_exists in Er. destruct Er as (x & Hx & E).
  apply Z.eqb_eq in E. rewrite E. exact Hx.
Qed.

(** X17.  When [Config.validate] returns, the four required settings
    are present, the project id is a string of digits, [SYNC_DAYS_BACK]
    is positive, [MINIMUM_DURATION] is not negative and the granularity
    is one of 1, 5, 10, 15 and 30 minutes.  Under such settings every
    processed entry lasts a whole number of minutes, at least one, so
    that the time text sent to the tracker for it is the one the
    reconciler prints and no second of it is dropped. *)
Theorem X17_validated_settings_give_whole_minutes : forall c cfg,
    validate c cfg = inr true ->
    (present (TOGGL_API_TOKEN c) /\ present (TOGGL_WORKSPACE_ID c)
     /\ present (GITLAB_TOKEN c)
     /\ (exists v, GITLAB_PROJECT_ID c = Some v /\ isdigit v = true))
    /\ 0 < SYNC_DAYS_BACK c
    /\ 0 <= MINIMUM_DURATION cfg
    /\ In (ROUND_TIME_TO_MINUTES cfg) [1; 5; 10; 15; 30]
    /\ (forall f raw e,
           In e (process_time_entries f raw (MINIMUM_DURATION cfg)
                   (ROUND_TIME_TO_MINUTES cfg) (EXCLUDE_WEEKENDS cfg)) ->
           60 <= duration e
           /\ duration e mod 60 = 0
           /\ seconds_to_gitlab_time (duration e) = format_duration (duration e)
           /\ duration e / 3600 * 3600 + duration e mod 3600 / 60 * 60 = duration e).
Proof.
  intros c cfg H.
  destruct (validate_checked c cfg H) as (Hreq & Hd & Hm & Hr).
  split; [|split; [exact Hd | split; [exact Hm | split; [exact Hr|]]]].
  - pose proof (check_required_clean _ Hreq) as Hf. unfold required_fields in Hf.
    inversion Hf as [|? ? [P1 _] Hf1]; subst.
    inversion Hf1 as [|? ? [P2 _] Hf2]; subst.
    inversion Hf2 as [|? ? [P3 _] Hf3]; subst.
    inversion Hf3 as [|? ? [_ P4] _]; subst. cbn [fst snd] in *.
    split; [exact P1|]. split; [exact P2|]. split; [exact P3|].
    apply P4. reflexivity.
  - intros f raw e He.
    assert (Hpos : 0 < ROUND_TIME_TO_MINUTES cfg)
      by (cbn [In] in Hr; lia).
    destruct (processed_duration f raw _ _ _ e He) as [_ Hk].
    destruct (Hk Hpos) as (k & Hk0 & Hdur).
    assert (H60 : 60 <= duration e) by nia.
    assert (Hmod : duration e mod 60 = 0).
    { rewrite Hdur. replace (k * (ROUND_TIME_TO_MINUTES cfg * 60))
        with (k * ROUND_TIME_TO_MINUTES cfg * 60) by lia.
      apply Z.mod_mul. lia. }
    split; [exact H60|]. split; [exact Hmod|].
    split; [apply time_text_from_a_minute; exact H60|].
    pose proof (Z.div_mod (duration e) 3600 ltac:(lia)) as D1.
    pose proof (Z.div_mod (duration e mod 3600) 60 ltac:(lia)) as D2.
    pose proof (Z.div_mod (duration e) 60 ltac:(lia)) as D0.
    pose proof (Z.mod_pos_bound (duration e mod 3600) 60 ltac:(lia)) as B2.
    lia.
Qed.

Lemma X17_witness :
  seconds_to_gitlab_time (duration Scenario.fix_entry)
  = format_duration (duration Scenario.fix_entry).
Proof.
  destruct (X17_validated_settings_give_whole_minutes
              (mkCredentials (Some "token") (Some "7") (Some "glpat") (Some "1234") 7)
              Scenario.live)
    as (_ & _ & _ & _ & H).
  - vm_compute. reflexivity.
  - destruct (H Replay.iso_basic [Scenario.fix_42] Scenario.fix_entry)
      as (_ & _ & E & _); [left; reflexivity | exact E].
Defined.

End TimeTextFacts.

(** ** Where the calls go *)

Module TargetFacts.
Import Text Calendar Toggl GitLab Sync Notions EstimateNotions TargetNotions ProgFacts.
Import EstimateFacts.

Lemma on_target_app : forall t1 t2 current,
    on_target current t1 = true -> self_targeted t2 ->
    on_target current (t1 ++ t2) = true.
Proof.
  induction t1 as [|ev t1 IH]; intros t2 current H1 H2; [apply H2|].
  cbn [app on_target] in *.
  destruct (resolved ev) as [found|]; [apply IH; assumption|].
  destruct (issue_number (called ev)) as [n|]; [|apply IH; assumption].
  destruct current as [m|]; [|discriminate].
  apply andb_true_iff in H1. destruct H1 as [Hn H1]. rewrite Hn. cbn [andb].
  apply IH; assumption.
Qed.

Lemma self_targeted_nil : self_targeted [].
Proof. intros current. reflexivity. Qed.

Lemma self_targeted_app : forall t1 t2,
    self_targeted t1 -> self_targeted t2 -> self_targeted (t1 ++ t2).
Proof.
  intros t1 t2 H1 H2 current. apply on_target_app; [apply H1 | exact H2].
Qed.

(** Calls that are all about [issue] are on target after [issue] was
    resolved. *)
Lemma about_issue_on_target : forall cfg issue n total t,
    Forall (about_issue cfg issue n total) t ->
    on_target (Some (iid issue)) t = true.
Proof.
  intros cfg issue n total. induction t as [|[c r] t IH]; intros H; [reflexivity|].
  inversion H as [|? ? Hev Ht]; subst. specialize (IH Ht).
  unfold about_issue in Hev. cbn [called] in Hev.
  destruct c as [? | ? ? ? ? ? ? | m | m ? ? ? | m | m ? | m ?];
    cbn [on_target resolved issue_number called].
  - contradiction.
  - contradiction.
  - rewrite Hev, Z.eqb_refl. exact IH.
  - rewrite Hev, Z.eqb_refl. exact IH.
  - rewrite Hev, Z.eqb_refl. exact IH.
  - destruct Hev as [Hm _]. rewrite Hm, Z.eqb_refl. exact IH.
  - destruct Hev as [Hm _]. rewrite Hm, Z.eqb_refl. exact IH.
Qed.

Section Targets.
Variable cfg : Config.
Variable f : string -> option datetime.

Lemma sync_or_skip_on_target : forall issue entries st t st',
    Runs (sync_or_skip cfg f (Some issue) entries st) t st' ->
    on_target (Some (iid issue)) t = true.
Proof.
  intros issue entries st t st' H. cbn [sync_or_skip] in H.
  apply (about_issue_on_target cfg issue (len entries) (logged t)).
  exact (sync_entries_to_issue_about cfg f issue entries st t st' H).
Qed.

Lemma skip_self_targeted : forall entries st t st',
    Runs (sync_or_skip cfg f None entries st) t st' -> self_targeted t.
Proof.
  intros entries st t st' [-> _]. apply self_targeted_nil.
Qed.

Lemma create_or_skip_self_targeted : forall tid name entries total st t st',
    Runs (create_or_skip cfg f tid name entries total st) t st' -> self_targeted t.
Proof.
  intros tid name entries total st t st' H. unfold create_or_skip in H.
  destruct (should_create_issue cfg name); [|exact (skip_self_targeted _ _ _ _ H)].
  destruct (AUTO_CREATE_ISSUES cfg).
  2:{ destruct H as [-> _]. apply self_targeted_nil. }
  destruct (negb (DRY_RUN cfg)); [|exact (skip_self_targeted _ _ _ _ H)].
  cbn [Runs] in H. destruct H as (r & t' & -> & H).
  intros current. cbn [on_target resolved].
  destruct r as [issue|]; cbn [option_map].
  - exact (sync_or_skip_on_target _ _ _ _ _ H).
  - destruct H as [-> _]. reflexivity.
Qed.

Lemma sync_ticket_entries_self_targeted : forall k entries st t st',
    Runs (sync_ticket_entries cfg f k entries st) t st' -> self_targeted t.
Proof.
  intros [tid name] entries st t st' H. unfold sync_ticket_entries in H.
  apply Runs_bind_inv in H. destruct H as (t1 & found & t2 & H1 & H2 & ->).
  assert (Hrest : found = None -> self_targeted t2).
  { intros ->. destruct name as [name|]; [|exact (skip_self_targeted _ _ _ _ H2)].
    destruct (truthy name && truthy (strip name))%bool.
    - exact (create_or_skip_self_targeted _ _ _ _ _ _ _ H2).
    - exact (skip_self_targeted _ _ _ _ H2). }
  destruct (truthy_opt tid).
  - cbn [Runs] in H1. destruct H1 as (r & t' & -> & [-> <-]).
    intros current. cbn [app on_target resolved].
    destruct r as [issue|]; cbn [option_map].
    + exact (sync_or_skip_on_target _ _ _ _ _ H2).
    + apply (Hrest eq_refl).
  - destruct H1 as [-> <-]. cbn [app]. apply (Hrest eq_refl).
Qed.

Lemma sync_groups_self_targeted : forall groups st t st',
    Runs (sync_groups cfg f groups st) t st' -> self_targeted t.
Proof.
  induction groups as [|[k entries] more IH]; intros st t st' H.
  - destruct H as [-> _]. apply self_targeted_nil.
  - cbn [sync_groups] in H. apply Runs_bind_inv in H.
    destruct H as (t1 & st1 & t2 & H1 & H2 & ->).
    apply self_targeted_app;
      [exact (sync_ticket_entries_self_targeted _ _ _ _ _ H1) | exact (IH _ _ _ H2)].
Qed.

End Targets.

(** X18.  Time goes only where the run just looked: in the calls of any
    run, every call about an issue (reading its entries or its
    estimate, logging time, setting the estimate, adding a note) names
    the issue that the latest [find_issue_by_ticket_id] or
    [create_issue] before it returned; after a lookup or a creation that
    returned nothing, no such call follows until the next one. *)
Theorem X18_calls_go_to_the_issue_just_resolved :
  forall cfg f time_entries st t st',
    Runs (sync_time_entries cfg f time_entries st) t st' ->
    on_target None t = true.
Proof.
  intros cfg f time_entries st t st' H. unfold sync_time_entries in H.
  destruct time_entries as [|e more].
  { destruct H as [-> _]. reflexivity. }
  apply Runs_bind_inv in H. destruct H as (t1 & st1 & t2 & H1 & [-> _] & ->).
  rewrite app_nil_r. exact (sync_groups_self_targeted cfg f _ _ _ _ H1 None).
Qed.

Lemma X18_witness :
  on_target None
    (Scenario.calls
       (Scenario.replay estimating
          [Scenario.fix_42; Scenario.dashboard; Scenario.fix_again]
          Scenario.tracker_42)) = true.
Proof.
  apply (X18_calls_go_to_the_issue_just_resolved
           estimating Replay.iso_basic
           [Scenario.fix_42; Scenario.dashboard; Scenario.fix_again] stats0
           (Scenario.calls
              (Scenario.replay estimating
                 [Scenario.fix_42; Scenario.dashboard; Scenario.fix_again]
                 Scenario.tracker_42))
           (Scenario.counters
              (Scenario.replay estimating
                 [Scenario.fix_42; Scenario.dashboard; Scenario.fix_again]
                 Scenario.tracker_42))).
  exact (exec_Runs Stats Replay.gitlab
           (sync_time_entries estimating Replay.iso_basic
              [Scenario.fix_42; Scenario.dashboard; Scenario.fix_again] stats0)
           Scenario.tracker_42).
Defined.

End TargetFacts.

(** ** The analysis and the counters *)

Module AnalysisFacts.
Import Text Calendar Toggl GitLab Sync Notions Analysis ProgFacts.
Import RepeatFacts ProcessingFacts AccountingNotions AccountingFacts.

Lemma project_eqb_eq : forall a b, project_eqb a b = true <-> a = b.
Proof.
  intros [x|] [y|]; cbn; split; intros H; try discriminate; try reflexivity.
  - apply Z.eqb_eq in H. subst. reflexivity.
  - injection H as ->. apply Z.eqb_refl.
Qed.

Lemma count_project_sums : forall p d table,
    counted (count_project p d table) = counted table + 1
    /\ timed (count_project p d table) = timed table + d.
Proof.
  intros p d. induction table as [|[k totals] more [IHc IHt]];
    cbn [count_project counted timed fold_right snd count project_duration].
  - split; lia.
  - destruct (project_eqb k p);
      cbn [counted timed fold_right snd count project_duration].
    + fold (counted more). fold (timed more). split; lia.
    + fold (counted (count_project p d more)). fold (timed (count_project p d more)).
      fold (counted more). fold (timed more). split; lia.
Qed.

Lemma count_project_keys : forall p d table,
    NoDup (map fst table) -> NoDup (map fst (count_project p d table)).
Proof.
  intros p d. induction table as [|[k totals] more IH]; intros H;
    cbn [count_project map fst].
  - repeat constructor. intros [].
  - inversion H as [|? ? Hnot Hmore]; subst.
    destruct (project_eqb k p) eqn:E; cbn [map fst].
    + constructor; assumption.
    + constructor; [|apply IH; exact Hmore].
      intros Hin. apply Hnot.
      assert (Hkeys : forall q, In q (map fst (count_project p d more)) ->
                                q = p \/ In q (map fst more)).
      { clear. induction more as [|[k' t'] more IH]; intros q Hq;
          cbn [count_project map fst] in *.
        - destruct Hq as [<- | []]. left. reflexivity.
        - destruct (project_eqb k' p); cbn [map fst In] in *.
          + right. exact Hq.
          + destruct Hq as [<- | Hq]; [right; left; reflexivity|].
            destruct (IH q Hq) as [-> | Hin]; [left; reflexivity | right; right; exact Hin]. }
      destruct (Hkeys k Hin) as [-> | Hk]; [|exact Hk].
      exfalso. assert (Hrefl : project_eqb p p = true) by (apply project_eqb_eq; reflexivity).
      rewrite Hrefl in E. discriminate.
Qed.

Lemma projects_loop : forall entries table,
    NoDup (map fst table) ->
    let result :=
      fold_left (fun table e => count_project (project_id e) (duration e) table)
                entries table in
    counted result = counted table + len entries
    /\ timed result = timed table + sum_durations entries
    /\ NoDup (map fst result).
Proof.
  induction entries as [|e more IH]; intros table Hnd; cbn [fold_left]; cbv zeta.
  - unfold len, sum_durations. cbn. repeat split; try lia. exact Hnd.
  - destruct (IH (count_project (project_id e) (duration e) table)
                 (count_project_keys _ _ _ Hnd)) as (Hc & Ht & Hk).
    destruct (count_project_sums (project_id e) (duration e) table) as [Sc St].
    cbv zeta in Hc, Ht, Hk. rewrite Hc, Ht, Sc, St, len_cons, sum_durations_cons.
    repeat split; try lia. exact Hk.
Qed.

Lemma len_filter_bounds : forall (p : Entry -> bool) l,
    0 <= len (filter p l) <= len l.
Proof.
  intros p l. unfold len. pose proof (filter_length_le p l). lia.
Qed.

(** X19.  The analysis printed before the sync is consistent with
    itself and with the counters after it.  The project table has one
    row per project, its counts add up to the number of entries and its
    durations to the total duration; the entries with and without a
    ticket id make up all entries.  For a run over a non-empty list of
    raw entries, the analysis of the processed entries, when there are
    any, counts as many entries as the run adds to [processed_entries],
    and its total and billable times bound [total_time_synced] and
    [billable_time_synced]. *)
Theorem X19_analysis_agrees_with_the_counters :
  forall cfg f raw st t st' a,
    raw <> [] ->
    Runs (sync_time_entries cfg f raw st) t st' ->
    get_detailed_stats
      (process_time_entries f raw (MINIMUM_DURATION cfg)
         (ROUND_TIME_TO_MINUTES cfg) (EXCLUDE_WEEKENDS cfg)) = Some a ->
    processed_entries st' = processed_entries st + total_entries a
    /\ total_time_synced st' <= total_duration a
    /\ billable_time_synced st' <= billable_time a <= total_duration a
    /\ NoDup (map fst (projects a))
    /\ counted (projects a) = total_entries a
    /\ timed (projects a) = total_duration a
    /\ entries_with_tickets a + entries_without_tickets a = total_entries a
    /\ 0 <= entries_with_tickets a <= total_entries a.
Proof.
  intros cfg f raw st t st' a Hne H Ha.
  set (processed := process_time_entries f raw (MINIMUM_DURATION cfg)
                      (ROUND_TIME_TO_MINUTES cfg) (EXCLUDE_WEEKENDS cfg)) in *.
  destruct (sync_time_entries_fair cfg f raw st t st' H) as (P & _).
  cbv zeta in P. fold processed in P.
  assert (Hpos : forall e, In e processed -> 0 <= duration e).
  { intros e He. destruct (processed_duration f raw _ _ _ e He) as [Hd _]. lia. }
  unfold sync_time_entries in H. destruct raw as [|r0 raw']; [contradiction|].
  fold processed in H.
  apply Runs_bind_inv in H. destruct H as (t1 & st1 & t2 & _ & [_ E] & _).
  unfold get_detailed_stats in Ha. destruct processed as [|e0 more] eqn:Ep; [discriminate|].
  rewrite <- Ep in *. clear Ep e0 more. injection Ha as <-.
  cbn [total_entries total_duration billable_time projects entries_with_tickets
       entries_without_tickets].
  destruct (projects_loop processed [] (NoDup_nil _)) as (Hc & Ht & Hk).
  cbv zeta in Hc, Ht, Hk. cbn [counted timed fold_right] in Hc, Ht.
  pose proof (len_filter_bounds (fun e => truthy_opt (Toggl.ticket_id e)) processed) as Hw.
  subst st'. cbn [total_time_synced billable_time_synced processed_entries set_totals] in P |- *.
  assert (A1 : sum_where (fun _ => true) processed = sum_durations processed)
    by (apply sum_where_all; reflexivity).
  pose proof (sum_where_le (should_sync_entry cfg) (fun _ => true) processed Hpos
                (fun _ _ => eq_refl)) as B1.
  assert (Himp : forall e, (billable e && should_sync_entry cfg e)%bool = true ->
                           billable e = true)
    by (intros e He; apply andb_true_iff in He; tauto).
  pose proof (sum_where_le (fun e => (billable e && should_sync_entry cfg e)%bool)
                billable processed Hpos Himp) as B2.
  pose proof (sum_where_le billable (fun _ => true) processed Hpos
                (fun _ _ => eq_refl)) as B3.
  unfold sum_where in *.
  split; [exact P|]. split; [lia|]. split; [lia|].
  split; [exact Hk|]. split; [lia|]. split; [lia|]. split; lia.
Qed.

Lemma X19_witness :
  processed_entries
    (Scenario.counters
       (Scenario.replay Scenario.live
          [Scenario.fix_42; Scenario.meeting; Scenario.dashboard]
          Scenario.tracker_42)) = 3.
Proof.
  destruct (get_detailed_stats
              (process_time_entries Replay.iso_basic
                 [Scenario.fix_42; Scenario.meeting; Scenario.dashboard]
                 (MINIMUM_DURATION Scenario.live)
                 (ROUND_TIME_TO_MINUTES Scenario.live)
                 (EXCLUDE_WEEKENDS Scenario.live))) as [a|] eqn:Ea;
    [|vm_compute in Ea; discriminate].
  destruct (X19_analysis_agrees_with_the_counters
              Scenario.live Replay.iso_basic
              [Scenario.fix_42; Scenario.meeting; Scenario.dashboard] stats0
              (Scenario.calls
                 (Scenario.replay Scenario.live
                    [Scenario.fix_42; Scenario.meeting; Scenario.dashboard]
                    Scenario.tracker_42))
              (Scenario.counters
                 (Scenario.replay Scenario.live
                    [Scenario.fix_42; Scenario.meeting; Scenario.dashboard]
                    Scenario.tracker_42))
              a) as (P & _).
  - discriminate.
  - exact (exec_Runs Stats Replay.gitlab
             (sync_time_entries Scenario.live Replay.iso_basic
                [Scenario.fix_42; Scenario.meeting; Scenario.dashboard] stats0)
             Scenario.tracker_42).
  - exact Ea.
  - rewrite P. vm_compute in Ea. injection Ea as <-. reflexivity.
Defined.

End AnalysisFacts.

(** ** The summary of a dry run adds up *)

Module DryAccountingFacts.
Import Text Calendar Toggl GitLab Sync Notions ProgFacts.
Import AccountingNotions AccountingFacts GateNotions GateFacts.

Lemma licensed_without_creation : forall cfg t,
    (DRY_RUN cfg = true \/ AUTO_CREATE_ISSUES cfg = false) ->
    Forall (fun ev => licensed cfg (called ev) = true) t ->
    tally create_failed t = 0 /\ tally created_ok t = 0.
Proof.
  intros cfg t Hoff. induction t as [|[c r] t IH]; intros H; [split; reflexivity|].
  inversion H as [|? ? Hev Ht]; subst. destruct (IH Ht) as [IH1 IH2].
  rewrite !tally_cons, IH1, IH2. cbn [called] in Hev.
  destruct c as [? | ? ? ? ? ? ? | ? | ? ? ? ? | ? | ? ? | ? ?];
    cbn [create_failed created_ok]; try (split; reflexivity).
  exfalso. cbn [licensed] in Hev.
  destruct Hoff as [Hd | Ha]; [rewrite Hd in Hev | rewrite Ha in Hev];
    cbn [negb andb] in Hev; [|rewrite andb_false_r in Hev]; discriminate.
Qed.

(** X20.  In a dry run, and in any run with [AUTO_CREATE_ISSUES] off,
    the summary adds up: every processed entry is counted exactly once
    as synced, skipped or an error, whatever the tracker answers. *)
Theorem X20_dry_run_summary_adds_up :
  forall cfg f raw st t st',
    DRY_RUN cfg = true \/ AUTO_CREATE_ISSUES cfg = false ->
    Runs (sync_time_entries cfg f raw st) t st' ->
    synced_entries st' + skipped_entries st' + errors st'
    - (synced_entries st + skipped_entries st + errors st)
    = processed_entries st' - processed_entries st.
Proof.
  intros cfg f raw st t st' Hoff H.
  destruct (sync_time_entries_fair cfg f raw st t st' H) as (P & _ & _ & E & _).
  pose proof (Calls_Runs _ (licensed cfg) _ t st'
                (sync_time_entries_licensed cfg f raw st) H) as Hl.
  destruct (licensed_without_creation cfg t Hoff Hl) as [Hz _].
  specialize (E Hz). unfold settled in E. cbn -[Z.add tally] in E, P.
  cbv zeta in P. lia.
Qed.

Lemma X20_witness :
  let r := Scenario.replay Scenario.dry
             [Scenario.fix_42; Scenario.meeting; Scenario.dashboard]
             Scenario.tracker_42 in
  synced_entries (Scenario.counters r) + skipped_entries (Scenario.counters r)
  + errors (Scenario.counters r) = 3.
Proof.
  pose proof (X20_dry_run_summary_adds_up
                Scenario.dry Replay.iso_basic
                [Scenario.fix_42; Scenario.meeting; Scenario.dashboard] stats0
                (Scenario.calls
                   (Scenario.replay Scenario.dry
                      [Scenario.fix_42; Scenario.meeting; Scenario.dashboard]
                      Scenario.tracker_42))
                (Scenario.counters
                   (Scenario.replay Scenario.dry
                      [Scenario.fix_42; Scenario.meeting; Scenario.dashboard]
                      Scenario.tracker_42))
                (or_introl eq_refl)
                (exec_Runs Stats Replay.gitlab
                   (sync_time_entries Scenario.dry Replay.iso_basic
                      [Scenario.fix_42; Scenario.meeting; Scenario.dashboard] stats0)
                   Scenario.tracker_42)) as H.
  cbv zeta.
  replace (processed_entries
             (Scenario.counters
                (Scenario.replay Scenario.dry
                   [Scenario.fix_42; Scenario.meeting; Scenario.dashboard]
                   Scenario.tracker_42))) with 3 in H by (vm_compute; reflexivity).
  cbn [synced_entries skipped_entries errors processed_entries stats0] in H. lia.
Defined.

End DryAccountingFacts.
